(** * PyAutoFit: the parameter-space mapper and the search-driver fitness adapters

    A shallow embedding of [autofit/mapper/model_mapper.py] (class
    [ModelMapper]) and of [autofit/optimize/non_linear.py] (classes
    [IntervalCounter], [NonLinearOptimizer.Fitness], [DownhillSimplex.Fitness],
    [MultiNest.Fitness], [GridSearch.Fitness] and [GridSearch.fit]), followed
    by the properties of the specification that concern them.

    Python floats are IEEE-754 binary64 values, embedded as Rocq's primitive
    floats; Python exceptions are an error value threaded through a small
    state-and-exception monad; Python dictionaries are insertion-ordered
    association lists. *)

From Stdlib Require Import ZArith List String Bool Lia Floats Permutation Sorted.
Import ListNotations.

Local Open Scope Z_scope.

(* ===================================================================== *)
(** * Python values *)
(* ===================================================================== *)

Module Py.

(** Exceptions that the two modelled files raise or let through. *)
Inductive exn : Type :=
| PriorException (msg : string)
| CheckpointException (msg : string)
| FitException
| ResolutionError
| KeyError
| IndexError
| TypeError
| AttributeError
| ZeroDivisionError
| OtherError (tag : string).

Definition is_FitException (e : exn) : bool :=
  match e with FitException => true | _ => false end.

(** The outcome of a Python call: a value, or a raised exception. *)
Inductive outcome (A : Type) : Type :=
| Ok (a : A)
| Raise (e : exn).
Arguments Ok {A} a.
Arguments Raise {A} e.

Definition bind {A B} (r : outcome A) (k : A -> outcome B) : outcome B :=
  match r with
  | Ok a => k a
  | Raise e => Raise e
  end.

(** [-np.inf] and the float comparisons [>] and [==]. *)
Definition neg_inf : float := neg_infinity.
Definition gt (x y : float) : bool := PrimFloat.ltb y x.
Definition feq (x y : float) : bool := PrimFloat.eqb x y.

(** The builtin [max(x, y)] on two arguments: the running maximum starts at
    [x] and is replaced by [y] only when [y > x]. *)
Definition max (x y : float) : float := if gt y x then y else x.

(** The builtin [map(f, xs, ys)] on two iterables: it stops with the shorter
    one. *)
Fixpoint map2 {A B C} (f : A -> B -> C) (xs : list A) (ys : list B) : list C :=
  match xs, ys with
  | x :: xs', y :: ys' => f x y :: map2 f xs' ys'
  | _, _ => []
  end.

(** [sorted(l, key=...)]: a stable sort, here by insertion. *)
Fixpoint insert_by {A} (key : A -> Z) (x : A) (l : list A) : list A :=
  match l with
  | [] => [x]
  | y :: r => if key x <=? key y then x :: l else y :: insert_by key x r
  end.

Definition sorted {A} (key : A -> Z) (l : list A) : list A :=
  fold_right (insert_by key) [] l.

(** A [dict]: an association list in insertion order.  Assigning to a key
    that is already present keeps the position and the stored key object and
    replaces the value. *)
Section Dict.
Context {K V : Type}.
Variable keq : K -> K -> bool.

Definition dict : Type := list (K * V).

Fixpoint dict_set (d : dict) (k : K) (v : V) : dict :=
  match d with
  | [] => [(k, v)]
  | (k', v') :: r =>
      if keq k k' then (k', v) :: r else (k', v') :: dict_set r k v
  end.

Fixpoint dict_get (d : dict) (k : K) : option V :=
  match d with
  | [] => None
  | (k', v') :: r => if keq k k' then Some v' else dict_get r k
  end.

(** [dict(pairs)] and the dict comprehensions: the pairs are assigned
    from left to right. *)
Definition dict_update (d : dict) (pairs : list (K * V)) : dict :=
  fold_left (fun acc kv => dict_set acc (fst kv) (snd kv)) pairs d.

Definition dict_of_list (pairs : list (K * V)) : dict :=
  dict_update [] pairs.

Definition dict_keys (d : dict) : list K := map fst d.
Definition dict_values (d : dict) : list V := map snd d.
Definition dict_items (d : dict) : list (K * V) := d.
End Dict.

Arguments dict K V : clear implicits.

End Py.

Import Py.

Notation "x <- c1 ;; c2" := (bind c1 (fun x => c2))
  (at level 100, c1 at next level, right associativity).

(* ===================================================================== *)
(** * autofit.mapper: priors and prior models *)
(* ===================================================================== *)

Module Prior.

(** Modelled from the spec: the classes of [autofit/mapper/prior.py], which
    is not part of the sources at hand.  A prior (Distribution) has a family
    with its parameters and a creation id; two priors are the same parameter
    exactly when they are the same object, and every object gets its own id
    from a global counter, so equality and hashing are by id. *)
Inductive Family : Type :=
| UniformPrior (lower_limit upper_limit : float)
| LogUniformPrior (lower_limit upper_limit : float)
| GaussianPrior (mean sigma lower_limit upper_limit : float).

Record t : Type := mk { id : Z; family : Family }.

Definition eqb (p q : t) : bool := id p =? id q.

(** [isinstance(prior, GaussianPrior)] *)
Definition is_gaussian (p : t) : bool :=
  match family p with GaussianPrior _ _ _ _ => true | _ => false end.

Definition lower_limit (p : t) : float :=
  match family p with
  | UniformPrior l _ | LogUniformPrior l _ | GaussianPrior _ _ l _ => l
  end.

Definition upper_limit (p : t) : float :=
  match family p with
  | UniformPrior _ u | LogUniformPrior _ u | GaussianPrior _ _ _ u => u
  end.

End Prior.

(** [PriorNameValue]: the named tuple [(name, prior)]. *)
Record PriorNameValue : Type :=
  mkPriorNameValue { pnv_name : string; pnv_prior : Prior.t }.

Module PriorModel.

(** Modelled from the spec: [AbstractPriorModel] of
    [autofit/mapper/prior_model], which is not part of the sources at hand.
    A Parameter Node is represented by its fields in declaration order, the
    fields of nested nodes included under their qualified names; a field
    holds a prior or a constant and remembers the class that owns it. *)
Inductive FieldValue : Type :=
| FPrior (p : Prior.t)
| FConstant (c : float).

Record Field : Type :=
  mkField { field_name : string; field_cls : string; field_value : FieldValue }.

Record t : Type := mk { cls : string; fields : list Field }.

(** [getattr(prior_model, name)] and [setattr(prior_model, name, value)]:
    the fields behave as the object's [__dict__]. *)
Fixpoint get_field (fs : list Field) (name : string) : option FieldValue :=
  match fs with
  | [] => None
  | f :: rest =>
      if (name =? field_name f)%string then Some (field_value f)
      else get_field rest name
  end.

Fixpoint set_field (owner : string) (fs : list Field) (name : string)
    (value : FieldValue) : list Field :=
  match fs with
  | [] => [mkField name owner value]
  | f :: rest =>
      if (name =? field_name f)%string
      then mkField (field_name f) (field_cls f) value :: rest
      else f :: set_field owner rest name value
  end.

Definition getattr (pm : t) (name : string) : option FieldValue :=
  get_field (fields pm) name.

Definition setattr (pm : t) (name : string) (value : FieldValue) : t :=
  mk (cls pm) (set_field (cls pm) (fields pm) name value).

(** [prior_model.prior_tuples]: the (name, prior) pairs of the node, in
    field declaration order, not deduplicated. *)
Definition prior_tuples (pm : t) : list PriorNameValue :=
  flat_map (fun f => match field_value f with
                     | FPrior p => [mkPriorNameValue (field_name f) p]
                     | FConstant _ => []
                     end) (fields pm).

(** [prior_model.prior_class_dict]: each prior with its owning class. *)
Definition prior_class_dict (pm : t) : dict Prior.t string :=
  dict_of_list Prior.eqb
    (flat_map (fun f => match field_value f with
                        | FPrior p => [(p, field_cls f)]
                        | FConstant _ => []
                        end) (fields pm)).

(** The instantiated object: one concrete value per field. *)
Definition Instance : Type := list (string * float).

Fixpoint resolve_fields (arguments : dict Prior.t float) (fs : list Field)
  : outcome Instance :=
  match fs with
  | [] => Ok []
  | f :: rest =>
      v <- match field_value f with
           | FPrior p => match dict_get Prior.eqb arguments p with
                         | Some x => Ok x
                         | None => Raise ResolutionError
                         end
           | FConstant c => Ok c
           end ;;
      vs <- resolve_fields arguments rest ;;
      Ok ((field_name f, v) :: vs)
  end.

(** [prior_model.instance_for_arguments(arguments)]: every field replaced
    by the value of its prior or by its constant; a prior without an entry
    in [arguments] is a [ResolutionError]. *)
Definition instance_for_arguments (pm : t) (arguments : dict Prior.t float)
  : outcome Instance :=
  resolve_fields arguments (fields pm).

Fixpoint substitute_fields (arguments : dict Prior.t Prior.t) (fs : list Field)
  : outcome (list Field) :=
  match fs with
  | [] => Ok []
  | f :: rest =>
      v <- match field_value f with
           | FPrior p => match dict_get Prior.eqb arguments p with
                         | Some q => Ok (FPrior q)
                         | None => Raise KeyError
                         end
           | FConstant c => Ok (FConstant c)
           end ;;
      fs' <- substitute_fields arguments rest ;;
      Ok (mkField (field_name f) (field_cls f) v :: fs')
  end.

(** [prior_model.gaussian_prior_model_for_arguments(arguments)]: the node
    rebuilt with every prior replaced by the prior that [arguments] maps it
    to, so that fields that shared a prior still share one. *)
Definition gaussian_prior_model_for_arguments (pm : t)
    (arguments : dict Prior.t Prior.t) : outcome t :=
  fs <- substitute_fields arguments (fields pm) ;;
  Ok (mk (cls pm) fs).

End PriorModel.

(* ===================================================================== *)
(** * autofit/mapper/model_mapper.py: class ModelMapper *)
(* ===================================================================== *)

Module ModelMapper.

(** A value of the mapper's [__dict__] that is not a prior model: an
    already-built object, passed through unchanged. *)
Inductive PlainValue : Type :=
| VInt (z : Z)
| VFloat (x : float)
| VStr (s : string).

Inductive Attr : Type :=
| APriorModel (pm : PriorModel.t)
| APlain (v : PlainValue).

(** The mapper is its [__dict__]: attribute name to attribute. *)
Record t : Type := mk { attrs : dict string Attr }.

(** [__setattr__]; the wrapping [AbstractPriorModel.from_object] has
    already been applied to [value]. *)
Definition setattr (m : t) (key : string) (value : Attr) : t :=
  mk (dict_set String.eqb (attrs m) key value).

(** [ModelInstance]: the resolved object graph, attribute by attribute. *)
Inductive InstanceAttr : Type :=
| IObject (o : PriorModel.Instance)
| IPlain (v : PlainValue).

Definition ModelInstance : Type := dict string InstanceAttr.

(** [mapper.<model_name>.<field_name> = prior]: the assignment that ties a
    field to a prior, e.g. [mapper.sersic.phi = mapper.other_sersic.phi]. *)
Definition assign_prior (m : t) (model_name field_name : string) (prior : Prior.t) : t :=
  match dict_get String.eqb (attrs m) model_name with
  | Some (APriorModel pm) =>
      setattr m model_name
              (APriorModel (PriorModel.setattr pm field_name (PriorModel.FPrior prior)))
  | _ => m
  end.

(** The value that [mapper.<model_name>.<field_name>] reads. *)
Definition read_field (m : t) (model_name field_name : string)
  : option PriorModel.FieldValue :=
  match dict_get String.eqb (attrs m) model_name with
  | Some (APriorModel pm) => PriorModel.getattr pm field_name
  | _ => None
  end.

Definition prior_model_tuples (m : t) : list (string * PriorModel.t) :=
  flat_map (fun kv => match snd kv with
                      | APriorModel pm => [(fst kv, pm)]
                      | APlain _ => []
                      end) (dict_items (attrs m)).

(** The generator of the dict comprehension in [prior_tuples]. *)
Definition all_prior_tuples (m : t) : list PriorNameValue :=
  flat_map (fun npm => PriorModel.prior_tuples (snd npm)) (prior_model_tuples m).

Definition prior_tuples (m : t) : list PriorNameValue :=
  dict_values
    (dict_of_list Prior.eqb
       (map (fun prior_tuple => (pnv_prior prior_tuple, prior_tuple))
            (all_prior_tuples m))).

Definition priors (m : t) : list Prior.t := map pnv_prior (prior_tuples m).

Definition prior_tuples_ordered_by_id (m : t) : list PriorNameValue :=
  sorted (fun prior_tuple => Prior.id (pnv_prior prior_tuple)) (prior_tuples m).

Definition prior_count (m : t) : Z :=
  Z.of_nat (List.length (prior_tuples_ordered_by_id m)).

Definition prior_class_dict (m : t) : dict Prior.t string :=
  dict_of_list Prior.eqb
    (flat_map (fun npm => dict_items (PriorModel.prior_class_dict (snd npm)))
              (prior_model_tuples m)).

Definition instance_tuples (m : t) : list (string * PlainValue) :=
  flat_map (fun kv => match snd kv with
                      | APlain v => if (fst kv =? "id")%string then [] else [(fst kv, v)]
                      | APriorModel _ => []
                      end) (dict_items (attrs m)).

Fixpoint resolve_prior_models (arguments : dict Prior.t float)
    (pms : list (string * PriorModel.t)) (model_instance : ModelInstance)
  : outcome ModelInstance :=
  match pms with
  | [] => Ok model_instance
  | (name, pm) :: rest =>
      o <- PriorModel.instance_for_arguments pm arguments ;;
      resolve_prior_models arguments rest
        (dict_set String.eqb model_instance name (IObject o))
  end.

Definition instance_for_arguments (m : t) (arguments : dict Prior.t float)
  : outcome ModelInstance :=
  model_instance <- resolve_prior_models arguments (prior_model_tuples m) [] ;;
  Ok (fold_left (fun mi nv => dict_set String.eqb mi (fst nv) (IPlain (snd nv)))
                (instance_tuples m) model_instance).

Section ValueFor.
(** [prior.value_for(unit)]: the unit-interval-to-physical transform of
    each prior family, defined in the absent [prior.py]. *)
Variable value_for : Prior.t -> float -> float.

Definition physical_vector_from_hypercube_vector (m : t)
    (hypercube_vector : list float) : list float :=
  map2 (fun prior_tuple unit => value_for (pnv_prior prior_tuple) unit)
       (prior_tuples_ordered_by_id m) hypercube_vector.

Definition physical_values_from_prior_medians (m : t) : list float :=
  physical_vector_from_hypercube_vector m
    (repeat 0.5%float (List.length (prior_tuples m))).

Definition instance_from_unit_vector (m : t) (unit_vector : list float)
  : outcome ModelInstance :=
  let arguments :=
    dict_of_list Prior.eqb
      (map2 (fun prior_tuple unit =>
               (pnv_prior prior_tuple, value_for (pnv_prior prior_tuple) unit))
            (prior_tuples_ordered_by_id m) unit_vector) in
  instance_for_arguments m arguments.

Definition instance_from_prior_medians (m : t) : outcome ModelInstance :=
  instance_from_unit_vector m (repeat 0.5%float (List.length (prior_tuples m))).
End ValueFor.

Definition instance_from_physical_vector (m : t) (physical_vector : list float)
  : outcome ModelInstance :=
  let arguments :=
    dict_of_list Prior.eqb
      (map2 (fun prior_tuple physical_unit => (pnv_prior prior_tuple, physical_unit))
            (prior_tuples_ordered_by_id m) physical_vector) in
  instance_for_arguments m arguments.

Fixpoint rebuild_prior_models (arguments : dict Prior.t Prior.t)
    (pms : list (string * PriorModel.t)) (mapper : t) : outcome t :=
  match pms with
  | [] => Ok mapper
  | (name, pm) :: rest =>
      pm' <- PriorModel.gaussian_prior_model_for_arguments pm arguments ;;
      rebuild_prior_models arguments rest (setattr mapper name (APriorModel pm'))
  end.

(** [copy.deepcopy(self)] keeps every attribute and every prior id, so the
    copy starts as the mapper itself. *)
Definition mapper_from_prior_arguments (m : t) (arguments : dict Prior.t Prior.t)
  : outcome t :=
  rebuild_prior_models arguments (prior_model_tuples m) m.

Definition mapper_from_partial_prior_arguments (m : t)
    (arguments : dict Prior.t Prior.t) : outcome t :=
  let original_prior_dict :=
    dict_of_list Prior.eqb (map (fun prior => (prior, prior)) (priors m)) in
  mapper_from_prior_arguments m
    (dict_update Prior.eqb original_prior_dict (dict_items arguments)).

Section Config.
(** [conf.instance.prior_width.get_for_nearest_ancestor(cls, name)] and
    [conf.instance.prior_limit.get_for_nearest_ancestor(cls, name)]: the
    configured width policy [(width_type, value)] and hard limits. *)
Variable prior_width : string -> string -> string * float.
Variable prior_limit : string -> string -> float * float.

(** The body of the loop of [mapper_from_gaussian_tuples] for index [i]
    and prior tuple [prior_tuple]; [new_id] is the creation id that the
    constructor [GaussianPrior(...)] draws from the global counter. *)
Definition gaussian_prior_for (prior_class_dict : dict Prior.t string)
    (tuples : list (float * float)) (a r : option float)
    (i : nat) (prior_tuple : PriorNameValue) (new_id : Z) : outcome Prior.t :=
  let prior := pnv_prior prior_tuple in
  cls <- match dict_get Prior.eqb prior_class_dict prior with
         | Some c => Ok c
         | None => Raise KeyError
         end ;;
  tuple_i <- match nth_error tuples i with
             | Some tu => Ok tu
             | None => Raise IndexError
             end ;;
  let mean := fst tuple_i in
  match a, r with
  | Some _, Some _ =>
      Raise (PriorException
               "Width of new priors cannot be both relative and absolute.")
  | _, _ =>
      let width_type_value :=
        match a with
        | Some av => ("a"%string, av)
        | None => match r with
                  | Some rv => ("r"%string, rv)
                  | None => prior_width cls (pnv_name prior_tuple)
                  end
        end in
      let width_type := fst width_type_value in
      let value := snd width_type_value in
      width <- (if (width_type =? "r")%string then Ok (value * mean)%float
                else if (width_type =? "a")%string then Ok value
                else Raise (PriorException
                  "Prior widths must be relative 'r' or absolute 'a' e.g. a, 1.0")) ;;
      let limits :=
        if Prior.is_gaussian prior
        then (Prior.lower_limit prior, Prior.upper_limit prior)
        else prior_limit cls (pnv_name prior_tuple) in
      Ok (Prior.mk new_id
            (Prior.GaussianPrior mean (Py.max (snd tuple_i) width)
                                 (fst limits) (snd limits)))
  end.

(** [for i, prior_tuple in enumerate(prior_tuples): ...] *)
Fixpoint gaussian_arguments (prior_class_dict : dict Prior.t string)
    (tuples : list (float * float)) (a r : option float)
    (i : nat) (prior_tuples : list PriorNameValue)
    (arguments : dict Prior.t Prior.t) (next_id : Z)
  : outcome (dict Prior.t Prior.t) :=
  match prior_tuples with
  | [] => Ok arguments
  | prior_tuple :: rest =>
      g <- gaussian_prior_for prior_class_dict tuples a r i prior_tuple next_id ;;
      gaussian_arguments prior_class_dict tuples a r (S i) rest
        (dict_set Prior.eqb arguments (pnv_prior prior_tuple) g) (next_id + 1)
  end.

(** [next_id] is the state of the global id counter at the call. *)
Definition mapper_from_gaussian_tuples (m : t) (tuples : list (float * float))
    (a r : option float) (next_id : Z) : outcome t :=
  arguments <- gaussian_arguments (prior_class_dict m) tuples a r 0%nat
                 (prior_tuples_ordered_by_id m) [] next_id ;;
  mapper_from_prior_arguments m arguments.

(** The integer [0] of the source is the float zero here. *)
Definition mapper_from_gaussian_means (m : t) (means : list float)
    (next_id : Z) : outcome t :=
  mapper_from_gaussian_tuples m (map (fun mean => (mean, 0%float)) means)
    None None next_id.
End Config.

End ModelMapper.

(* ===================================================================== *)
(** * autofit/optimize/non_linear.py: the fitness adapters *)
(* ===================================================================== *)

Module NonLinear.

Import ModelMapper.

(** Methods mutate [self] and may raise: a state-and-exception monad in
    which the state survives a raised exception. *)
Definition M (S A : Type) : Type := S -> outcome A * S.

Definition ret {S A} (a : A) : M S A := fun s => (Ok a, s).
Definition raise {S A} (e : exn) : M S A := fun s => (Raise e, s).
Definition mbind {S A B} (c : M S A) (k : A -> M S B) : M S B :=
  fun s => match c s with
           | (Ok a, s') => k a s'
           | (Raise e, s') => (Raise e, s')
           end.
Definition get {S} : M S S := fun s => (Ok s, s).
Definition modify {S} (f : S -> S) : M S unit := fun s => (Ok tt, f s).
Definition lift {S A} (r : outcome A) : M S A := fun s => (r, s).

(** [try: body except exc.FitException: handler] *)
Definition try_except_FitException {S A} (body handler : M S A) : M S A :=
  fun s => match body s with
           | (Raise e, s') => if is_FitException e then handler s' else (Raise e, s')
           | r => r
           end.

(** A method of a component object run on the enclosing object. *)
Definition zoom {S T A} (proj : S -> T) (upd : T -> S -> S) (c : M T A) : M S A :=
  fun s => let (r, t') := c (proj s) in (r, upd t' s).

Notation "x <~ c1 ;; c2" := (mbind c1 (fun x => c2))
  (at level 100, c1 at next level, right associativity).
Notation "c1 ;;; c2" := (mbind c1 (fun _ => c2))
  (at level 100, right associativity).

Definition when {S} (b : bool) (c : M S unit) : M S unit :=
  if b then c else ret tt.

(** A grid point: the tuple of unit values handed to the fitness adapter. *)
Definition cube : Type := list float.

Fixpoint cube_eqb (c d : cube) : bool :=
  match c, d with
  | [], [] => true
  | x :: c', y :: d' => feq x y && cube_eqb c' d'
  | _, _ => false
  end.

Record Result : Type :=
  mkResult { res_constant : ModelInstance;
             figure_of_merit : float;
             res_variable : option ModelMapper.t }.

(** The checkpoint file, as written by [save_checkpoint], one field a line. *)
Record Checkpoint : Type :=
  mkCheckpoint { cp_total_calls : Z;
                 cp_best_fit : float;
                 cp_best_cube : option cube;
                 cp_step_size : float;
                 cp_prior_count : Z }.

(** The calls made to the collaborators (the analysis, the optimizer's
    files), in the order in which they happen. *)
Inductive Event : Type :=
| EvSaveModelInfo
| EvFit (instance : ModelInstance)
| EvVisualize (instance : ModelInstance) (during_analysis : bool)
| EvBackup
| EvOutputResults (during_analysis : bool)
| EvSaveCheckpoint (record : Checkpoint)
| EvSaveResults (all_fit_items : list (cube * float)).

(** [class IntervalCounter] *)
Record IntervalCounter : Type := mkIntervalCounter { count : Z; interval : Z }.

Definition IntervalCounter_init (interval : Z) : IntervalCounter :=
  mkIntervalCounter 0 interval.

Definition IntervalCounter_call : M IntervalCounter bool :=
  fun self =>
    if interval self =? -1 then (Ok false, self)
    else
      let self := mkIntervalCounter (count self + 1) (interval self) in
      if interval self =? 0 then (Raise ZeroDivisionError, self)
      else (Ok (count self mod interval self =? 0), self).

(** [conf.instance.general.get('output', ...)] *)
Record GeneralConfig : Type :=
  mkGeneralConfig { visualise_interval : Z;
                    log_interval : Z;
                    backup_interval : Z;
                    grid_results_interval : Z;
                    number_of_accepted_samples_between_output : Z }.

(** [class NonLinearOptimizer.Fitness]; [trace] records what the object
    has done to its collaborators so far. *)
Record Fitness : Type :=
  mkFitness { result : option Result;
              constant : ModelInstance;
              max_likelihood : float;
              should_log : IntervalCounter;
              should_visualise : IntervalCounter;
              should_backup : IntervalCounter;
              trace : list Event }.

Definition emit (e : Event) : M Fitness unit :=
  modify (fun self => mkFitness (result self) (constant self) (max_likelihood self)
                        (should_log self) (should_visualise self)
                        (should_backup self) (trace self ++ [e])).

Definition set_best (likelihood : float) (r : Result) : M Fitness unit :=
  modify (fun self => mkFitness (Some r) (constant self) likelihood
                        (should_log self) (should_visualise self)
                        (should_backup self) (trace self)).

Definition call_should_visualise : M Fitness bool :=
  zoom should_visualise
       (fun c self => mkFitness (result self) (constant self) (max_likelihood self)
                        (should_log self) c (should_backup self) (trace self))
       IntervalCounter_call.

Definition call_should_backup : M Fitness bool :=
  zoom should_backup
       (fun c self => mkFitness (result self) (constant self) (max_likelihood self)
                        (should_log self) (should_visualise self) c (trace self))
       IntervalCounter_call.

Section Driver.
Variable conf : GeneralConfig.
(** [analysis.fit(instance)]: the likelihood supplied by the caller. *)
Variable analysis_fit : ModelInstance -> outcome float.
(** [instance += self.constant], of the absent [ModelInstance] class. *)
Variable instance_add : ModelInstance -> ModelInstance -> ModelInstance.

Definition Fitness_init (constant : ModelInstance) (trace : list Event) : Fitness :=
  mkFitness None constant neg_inf
            (IntervalCounter_init (log_interval conf))
            (IntervalCounter_init (visualise_interval conf))
            (IntervalCounter_init (backup_interval conf))
            trace.

Definition fit_instance (instance : ModelInstance) : M Fitness float :=
  self <~ get ;;
  let instance := instance_add instance (constant self) in
  emit (EvFit instance) ;;;
  likelihood <~ lift (analysis_fit instance) ;;
  when (gt likelihood (max_likelihood self))
       (set_best likelihood (mkResult instance likelihood None) ;;;
        fire <~ call_should_visualise ;;
        when fire (emit (EvVisualize instance true))) ;;;
  fire <~ call_should_backup ;;
  when fire (emit EvBackup) ;;;
  ret likelihood.

(** ** class DownhillSimplex.Fitness *)

(** The [try] block of [__call__]: the likelihood of the call. *)
Definition DownhillSimplex_likelihood
    (instance_from_physical_vector : list float -> outcome ModelInstance)
    (vector : list float) : M Fitness float :=
  try_except_FitException
    (instance <~ lift (instance_from_physical_vector vector) ;;
     fit_instance instance)
    (ret neg_inf).

Definition DownhillSimplex_call
    (instance_from_physical_vector : list float -> outcome ModelInstance)
    (vector : list float) : M Fitness float :=
  likelihood <~ DownhillSimplex_likelihood instance_from_physical_vector vector ;;
  ret (-2 * likelihood)%float.

(** ** class MultiNest.Fitness *)

Record MultiNestFitness : Type :=
  mkMultiNestFitness { mn_base : Fitness; accepted_samples : Z }.

Definition mn_zoom {A} (c : M Fitness A) : M MultiNestFitness A :=
  zoom mn_base (fun b self => mkMultiNestFitness b (accepted_samples self)) c.

Definition MultiNest_Fitness_init (constant : ModelInstance) (trace : list Event)
  : MultiNestFitness :=
  mkMultiNestFitness (Fitness_init constant trace) 0.

Definition MultiNest_call
    (instance_from_physical_vector : list float -> outcome ModelInstance)
    (cube : list float) : M MultiNestFitness float :=
  likelihood <~ mn_zoom (try_except_FitException
                           (instance <~ lift (instance_from_physical_vector cube) ;;
                            fit_instance instance)
                           (ret neg_inf)) ;;
  self <~ get ;;
  when (gt likelihood (max_likelihood (mn_base self)))
       (modify (fun self => mkMultiNestFitness (mn_base self)
                              (accepted_samples self + 1)) ;;;
        self <~ get ;;
        when (accepted_samples self
              =? number_of_accepted_samples_between_output conf)
             (modify (fun self => mkMultiNestFitness (mn_base self) 0) ;;;
              mn_zoom (emit (EvOutputResults true)))) ;;;
  ret likelihood.

(** ** class GridSearch *)

(** The optimizer object, as far as [fit] and the adapter read it;
    [checkpoint_file] is the content of [.checkpoint] when the file
    exists ([is_checkpoint]). *)
Record GridSearch : Type :=
  mkGridSearch { variable : ModelMapper.t;
                 gs_constant : ModelInstance;
                 step_size : float;
                 checkpoint_file : option Checkpoint }.

(** [class GridSearch.Fitness] *)
Record GridFitness : Type :=
  mkGridFitness { base : Fitness;
                  total_calls : Z;
                  checkpoint_count : Z;
                  best_fit : float;
                  best_cube : option cube;
                  all_fits : dict cube float;
                  should_save_grid_results : IntervalCounter }.

Definition gs_zoom {A} (c : M Fitness A) : M GridFitness A :=
  zoom base (fun b self => mkGridFitness b (total_calls self) (checkpoint_count self)
                             (best_fit self) (best_cube self) (all_fits self)
                             (should_save_grid_results self)) c.

Definition call_should_save_grid_results : M GridFitness bool :=
  zoom should_save_grid_results
       (fun c self => mkGridFitness (base self) (total_calls self)
                        (checkpoint_count self) (best_fit self) (best_cube self)
                        (all_fits self) c)
       IntervalCounter_call.

Definition GridSearch_Fitness_init
    (instance_from_unit_vector : cube -> outcome ModelInstance)
    (constant : ModelInstance) (trace : list Event)
    (checkpoint_count : Z) (best_fit : float) (best_cube : option cube)
  : outcome unit * GridFitness :=
  let self :=
    mkGridFitness (Fitness_init constant trace) 0 checkpoint_count best_fit
                  best_cube [] (IntervalCounter_init (grid_results_interval conf)) in
  match best_cube with
  | Some c =>
      (instance <~ lift (instance_from_unit_vector c) ;;
       gs_zoom (fit_instance instance) ;;;
       ret tt) self
  | None => (Ok tt, self)
  end.

Definition GridSearch_call (nlo : GridSearch)
    (instance_from_unit_vector : cube -> outcome ModelInstance)
    (cube : cube) : M GridFitness float :=
  try_except_FitException
    (modify (fun self => mkGridFitness (base self) (total_calls self + 1)
                           (checkpoint_count self) (best_fit self) (best_cube self)
                           (all_fits self) (should_save_grid_results self)) ;;;
     self <~ get ;;
     if total_calls self <=? checkpoint_count self then ret neg_inf
     else
       instance <~ lift (instance_from_unit_vector cube) ;;
       fit <~ gs_zoom (fit_instance instance) ;;
       modify (fun self => mkGridFitness (base self) (total_calls self)
                             (checkpoint_count self) (best_fit self) (best_cube self)
                             (dict_set cube_eqb (all_fits self) cube fit)
                             (should_save_grid_results self)) ;;;
       self <~ get ;;
       when (gt fit (best_fit self))
            (modify (fun self => mkGridFitness (base self) (total_calls self)
                                   (checkpoint_count self) fit (Some cube)
                                   (all_fits self) (should_save_grid_results self))) ;;;
       self <~ get ;;
       gs_zoom (emit (EvSaveCheckpoint
                        (mkCheckpoint (total_calls self) (best_fit self)
                                      (best_cube self) (step_size nlo)
                                      (prior_count (variable nlo))))) ;;;
       fire <~ call_should_save_grid_results ;;
       self <~ get ;;
       when fire (gs_zoom (emit (EvSaveResults (dict_items (all_fits self))))) ;;;
       ret fit)
    (ret neg_inf).

(** ** GridSearch.fit *)

Variable value_for : Prior.t -> float -> float.
Variable prior_width : string -> string -> string * float.
Variable prior_limit : string -> string -> float * float.

(** Modelled from the spec: the grid enumerator [optimizer.grid], an
    opaque optimizer injected through the constructor of [GridSearch].
    It calls the fitness adapter once for every point of its enumeration
    for the given dimension and step size, in order; [grid_points] is
    that enumeration. *)
Variable grid_points : Z -> float -> list cube.

Fixpoint run_grid (fitness_function : cube -> M GridFitness float)
    (points : list cube) : M GridFitness unit :=
  match points with
  | [] => ret tt
  | point :: rest => fitness_function point ;;; run_grid fitness_function rest
  end.

(** The locals [checkpoint_count], [best_fit] and [best_cube] of [fit]
    after the [if self.is_checkpoint:] block. *)
Definition checkpoint_seed (self : GridSearch) : outcome (Z * float * option cube) :=
  match checkpoint_file self with
  | None => Ok (0, neg_inf, None)
  | Some cp =>
      if negb (cp_prior_count cp =? prior_count (variable self)) then
        Raise (CheckpointException
                 "The number of dimensions does not match that found in the checkpoint")
      else if negb (feq (cp_step_size cp) (step_size self)) then
        Raise (CheckpointException
                 "The step size does not match that found in the checkpoint")
      else Ok (cp_total_calls cp, cp_best_fit cp, cp_best_cube cp)
  end.

(** [class GridSearch.Result] *)
Record GridResult : Type :=
  mkGridResult { gr_constant : ModelInstance;
                 gr_figure_of_merit : float;
                 gr_variable : ModelMapper.t;
                 gr_instances : list (ModelInstance * float) }.

Fixpoint resolve_all (resolve : cube -> outcome ModelInstance)
    (items : list (cube * float)) : outcome (list (ModelInstance * float)) :=
  match items with
  | [] => Ok []
  | (c, fit) :: rest =>
      instance <- resolve c ;;
      others <- resolve_all resolve rest ;;
      Ok ((instance, fit) :: others)
  end.

(** The part of [fit] after the grid has returned. *)
Definition GridSearch_fit_result (self : GridSearch) (next_id : Z)
    (fitness_function : GridFitness) : outcome GridResult :=
  let res := result (base fitness_function) in
  instances <- resolve_all (instance_from_unit_vector value_for (variable self))
                 (dict_items (all_fits fitness_function)) ;;
  new_variable <- match best_cube fitness_function with
                  | Some c => mapper_from_gaussian_means prior_width prior_limit
                                (variable self) c next_id
                  | None => Raise TypeError
                  end ;;
  match res with
  | Some r => Ok (mkGridResult (res_constant r) (figure_of_merit r)
                               new_variable instances)
  | None => Raise AttributeError
  end.

(** [fit] from the construction of the fitness function on, given the
    values of the locals [checkpoint_count], [best_fit] and [best_cube]. *)
Definition GridSearch_fit_seeded (self : GridSearch) (next_id : Z)
    (seed : Z * float * option cube) : outcome GridResult * list Event :=
  let '(checkpoint_count, best_fit, best_cube) := seed in
  let resolve := instance_from_unit_vector value_for (variable self) in
  let (constructed, fitness_function) :=
    GridSearch_Fitness_init resolve (gs_constant self) [EvSaveModelInfo]
                            checkpoint_count best_fit best_cube in
  match constructed with
  | Raise e => (Raise e, trace (base fitness_function))
  | Ok _ =>
      let (ran, fitness_function) :=
        run_grid (GridSearch_call self resolve)
                 (grid_points (prior_count (variable self)) (step_size self))
                 fitness_function in
      match ran with
      | Raise e => (Raise e, trace (base fitness_function))
      | Ok _ =>
          match GridSearch_fit_result self next_id fitness_function with
          | Raise e => (Raise e, trace (base fitness_function))
          | Ok res =>
              (Ok res,
               trace (base fitness_function)
                 ++ [EvVisualize (gr_constant res) false; EvBackup])
          end
      end
  end.

(** [fit(analysis)]: the result, and everything done to the collaborators
    on the way, starting with [save_model_info].  [next_id] is the state of
    the prior id counter.  The decorator [persistent_timer] only measures
    the running time and is left out. *)
Definition GridSearch_fit (self : GridSearch) (next_id : Z)
  : outcome GridResult * list Event :=
  match checkpoint_seed self with
  | Raise e => (Raise e, [EvSaveModelInfo])
  | Ok seed => GridSearch_fit_seeded self next_id seed
  end.
End Driver.

End NonLinear.

(* ===================================================================== *)
(** * autofit/mapper/model_mapper.py: the info dictionary *)
(* ===================================================================== *)

Module Info.

Import NonLinear.
Local Open Scope string_scope.

(** [n * s] on an integer and a string: [s] repeated [n] times, the empty
    string when [n] is not positive. *)
Fixpoint repeat_string (n : nat) (s : string) : string :=
  match n with
  | O => ""
  | S n' => s ++ repeat_string n' s
  end.

Definition str_mul (n : Z) (s : string) : string := repeat_string (Z.to_nat n) s.

(** [len(s)] *)
Definition len (s : string) : Z := Z.of_nat (String.length s).

Section Items.
(** The items that [ModelMapper.info] files under their paths are priors
    and floats: they are no dicts, and they can neither be searched nor
    assigned into.  [str] is their [str()]. *)
Variable Item : Type.
Variable str : Item -> string.

(** A value of an info dictionary: an item, or a dictionary again. *)
#[warnings="-register-all"]
Inductive info : Type :=
| Leaf (item : Item)
| Nested (info_dict : list (string * info)).

(** [add_to_info_dict((path_tuple, item), info_dict)]; the dictionary is
    changed in place, also by a call that raises. *)
Fixpoint add_to_info_dict (path_tuple : list string) (item : Item)
  : M (dict string info) unit :=
  match path_tuple with
  | [] => raise IndexError
  | key :: rest =>
      match rest with
      | [] => modify (fun info_dict => dict_set String.eqb info_dict key (Leaf item))
      | _ :: _ =>
          fun info_dict =>
            let info_dict :=
              match dict_get String.eqb info_dict key with
              | None => dict_set String.eqb info_dict key (Nested [])
              | Some _ => info_dict
              end in
            match dict_get String.eqb info_dict key with
            | Some (Nested sub) =>
                let (r, sub') := add_to_info_dict rest item sub in
                (r, dict_set String.eqb info_dict key (Nested sub'))
            | Some (Leaf _) => (Raise TypeError, info_dict)
            | None => (Raise KeyError, info_dict)
            end
      end
  end.

(** The body of the loop of [info_dict_to_list] for one [key, value]. *)
Fixpoint value_lines (line_length indent : Z) (key : string) (value : info)
  : list string :=
  let indent_string := str_mul indent " " in
  match value with
  | Nested info_dict =>
      let sub_lines :=
        (fix items (entries : list (string * info)) : list string :=
           match entries with
           | [] => []
           | (k, v) :: entries' =>
               (value_lines (line_length - indent) indent k v ++ items entries')%list
           end) info_dict in
      key :: map (fun line => indent_string ++ line) sub_lines
  | Leaf item =>
      let value_string := str item in
      let space_string :=
        str_mul (Z.max (line_length - len value_string - len key) 1) " " in
      [key ++ space_string ++ value_string]
  end.

Definition info_dict_to_list (info_dict : dict string info)
    (line_length indent : Z) : list string :=
  flat_map (fun kv => value_lines line_length indent (fst kv) (snd kv))
           (dict_items info_dict).
End Items.

Arguments Leaf {Item} item.
Arguments Nested {Item} info_dict.
Arguments add_to_info_dict {Item} path_tuple item.
Arguments value_lines {Item} str line_length indent key value.
Arguments info_dict_to_list {Item} str info_dict line_length indent.

End Info.

(* ===================================================================== *)
(** * Concrete parameter spaces and runs *)
(* ===================================================================== *)

Module Examples.

Import PriorModel ModelMapper NonLinear.
Local Open Scope string_scope.

(** [UniformPrior.value_for]: linear interpolation between the limits; the
    other families are not exercised by the examples. *)
Definition uniform_value_for (p : Prior.t) (unit : float) : float :=
  match Prior.family p with
  | Prior.UniformPrior l u => (l + unit * (u - l))%float
  | _ => unit
  end.

Definition p0 : Prior.t := Prior.mk 0 (Prior.UniformPrior 0 1).
Definition p1 : Prior.t := Prior.mk 1 (Prior.UniformPrior 0 2).

Definition field (name : string) (v : FieldValue) : Field := mkField name "Profile" v.

(** Two independent priors. *)
Definition mapper_two : ModelMapper.t :=
  ModelMapper.mk
    [("id", APlain (VInt 7));
     ("profile", APriorModel (PriorModel.mk "Profile"
                    [field "centre_0" (FPrior p0); field "centre_1" (FPrior p1)]))].

(** Three fields, the last two tied to one prior. *)
Definition mapper_tied : ModelMapper.t :=
  ModelMapper.mk
    [("profile", APriorModel (PriorModel.mk "Profile"
                    [field "one" (FPrior p0); field "two" (FPrior p1);
                     field "three" (FPrior p1)]))].

(** No prior at all: a constant field and a pass-through object. *)
Definition mapper_fixed : ModelMapper.t :=
  ModelMapper.mk
    [("profile", APriorModel (PriorModel.mk "Profile" [field "centre_0" (FConstant 1)]));
     ("label", APlain (VStr "fixed"))].

Definition no_width (cls name : string) : string * float := ("a", 0.5%float).
Definition no_limit (cls name : string) : float * float := (neg_infinity, infinity).

Definition conf10 : GeneralConfig := mkGeneralConfig 10 (-1) (-1) (-1) 1.

(** A likelihood that reads the first value of the [profile] object and
    fails with a fit error when the instance has none. *)
Definition first_value_fit (instance : ModelInstance) : outcome float :=
  match dict_get String.eqb instance "profile" with
  | Some (IObject ((_, x) :: _)) => Ok x
  | _ => Raise FitException
  end.

Definition keep_instance (instance constant : ModelInstance) : ModelInstance := instance.

(** A one-field instance holding [x], and the resolver that builds it from
    the first coordinate of a vector. *)
Definition instance_of (x : float) : ModelInstance :=
  [("profile", IObject [("centre_0", x)])].

Definition resolve_first (vector : list float) : outcome ModelInstance :=
  match vector with
  | x :: _ => Ok (instance_of x)
  | [] => Raise ResolutionError
  end.

(** A grid search over [mapper_two] resuming from a checkpoint written
    after five calls, and the same search against a checkpoint written for
    three parameters. *)
Definition checkpoint_five : Checkpoint :=
  mkCheckpoint 5 (-3.5) (Some [0.5; 0.25]%float) 0.25 2.

Definition grid_resume : GridSearch :=
  mkGridSearch mapper_two [] 0.25 (Some checkpoint_five).

Definition grid_mismatch : GridSearch :=
  mkGridSearch mapper_two [] 0.25
               (Some (mkCheckpoint 5 (-3.5) (Some [0.5; 0.25; 0]%float) 0.25 3)).

Definition seven_points (dimensions : Z) (step : float) : list cube :=
  [[0; 0]; [0; 0.25]; [0; 0.5]; [0; 0.75]; [0.25; 0]; [0.25; 0.25]; [0.25; 0.5]]%float.

(** Twelve calls whose second score does not improve on the first. *)
Definition twelve_vectors : list (list float) :=
  map (fun x => [x]) [1; 0; 2; 3; 4; 5; 6; 7; 8; 9; 10; 11]%float.

(** The two priors of [mapper_two] met in the opposite order, in two prior
    models. *)
Definition mapper_two_swapped : ModelMapper.t :=
  ModelMapper.mk
    [("second", APriorModel (PriorModel.mk "Profile" [field "centre_1" (FPrior p1)]));
     ("first", APriorModel (PriorModel.mk "Profile" [field "centre_0" (FPrior p0)]))].

(** A grid search over [mapper_two] that starts without a checkpoint, and
    an analysis that rejects every instance. *)
Definition grid_fresh : GridSearch := mkGridSearch mapper_two [] 0.25 None.

Definition reject_all (instance : ModelInstance) : outcome float := Raise FitException.

(** A grid adapter before its first call. *)
Definition grid_adapter : GridFitness :=
  mkGridFitness (Fitness_init conf10 [] []) 0 0 neg_inf None []
                (IntervalCounter_init (-1)).

(** An info dictionary of items that are their own [str()], two levels
    deep. *)
Definition info_example : dict string (Info.info string) :=
  [("galaxy", Info.Nested
                [("redshift", Info.Leaf "0.5");
                 ("light", Info.Nested [("intensity", Info.Leaf "1.0")])]);
   ("sky", Info.Leaf "0.1")].

End Examples.

(* ===================================================================== *)
(** * Observations used to state the properties *)
(* ===================================================================== *)

Module Observe.

Import PriorModel ModelMapper NonLinear.

(** The keys of a dictionary, seen through the integer that compares them. *)
Definition key_ids {K V} (proj : K -> Z) (d : dict K V) : list Z :=
  map proj (dict_keys d).

(** Every value carries the id of its key. *)
Definition agree {K V} (proj : K -> Z) (projv : V -> Z) (d : dict K V) : Prop :=
  Forall (fun kv => proj (fst kv) = projv (snd kv)) d.

Definition pid (prior_tuple : PriorNameValue) : Z := Prior.id (pnv_prior prior_tuple).

(** The ids of the priors of all fields, shared priors repeated. *)
Definition field_prior_ids (m : ModelMapper.t) : list Z := map pid (all_prior_tuples m).

(** The prior tuples of a list of fields and of a mapper's [__dict__]. *)
Definition tuples_of_fields (fs : list Field) : list PriorNameValue :=
  PriorModel.prior_tuples (PriorModel.mk EmptyString fs).

Definition tuples_of_attrs (d : dict string Attr) : list PriorNameValue :=
  all_prior_tuples (ModelMapper.mk d).

(** The number of fields of the mapper that hold the prior with id [z]. *)
Definition holders (m : ModelMapper.t) (z : Z) : nat :=
  count_occ Z.eq_dec (field_prior_ids m) z.

(** What one call of an interval counter whose interval is not zero answers
    and leaves behind. *)
Definition tick (c : IntervalCounter) : bool * IntervalCounter :=
  if interval c =? -1 then (false, c)
  else ((count c + 1) mod interval c =? 0,
        mkIntervalCounter (count c + 1) (interval c)).

(** The number of likelihood evaluations and of visualisations during the
    analysis that a trace records. *)
Definition is_fit (e : Event) : bool :=
  match e with EvFit _ => true | _ => false end.

Definition is_visualize (e : Event) : bool :=
  match e with EvVisualize _ true => true | _ => false end.

Definition count_fits (tr : list Event) : nat := List.length (filter is_fit tr).

Definition count_visualize (tr : list Event) : nat :=
  List.length (filter is_visualize tr).

(** The adapter after a likelihood evaluation on [instance] that raised:
    only the trace has grown. *)
Definition evaluated (self : Fitness) (instance : ModelInstance) : Fitness :=
  mkFitness (result self) (constant self) (max_likelihood self)
            (should_log self) (should_visualise self) (should_backup self)
            (trace self ++ [EvFit instance]).

(** The adapter after a likelihood evaluation on [instance] that returned
    [likelihood], when no interval is zero. *)
Definition fit_instance_next (likelihood : float) (instance : ModelInstance)
    (self : Fitness) : Fitness :=
  let improved := gt likelihood (max_likelihood self) in
  let visualise := tick (should_visualise self) in
  let backup := tick (should_backup self) in
  mkFitness (if improved then Some (mkResult instance likelihood None) else result self)
            (constant self)
            (if improved then likelihood else max_likelihood self)
            (should_log self)
            (if improved then snd visualise else should_visualise self)
            (snd backup)
            (trace self ++ [EvFit instance]
               ++ (if improved && fst visualise then [EvVisualize instance true] else [])
               ++ (if fst backup then [EvBackup] else [])).

(** The adapter after [total_calls] has been set to [n]. *)
Definition with_total_calls (g : GridFitness) (n : Z) : GridFitness :=
  mkGridFitness (base g) n (checkpoint_count g) (best_fit g) (best_cube g)
                (all_fits g) (should_save_grid_results g).

Section Runs.
Variable analysis_fit : ModelInstance -> outcome float.
Variable instance_add : ModelInstance -> ModelInstance -> ModelInstance.
Variable resolve : list float -> outcome ModelInstance.

(** The score of a call on [vector]: the likelihood of the resolved
    instance, or the exception that the resolution or the likelihood
    raises. *)
Definition call_score (constant : ModelInstance) (vector : list float)
  : outcome float :=
  instance <- resolve vector ;;
  analysis_fit (instance_add instance constant).

(** An optimizer calling the downhill-simplex adapter on each vector in
    turn; for every call, whether the call visualised.  The run ends with
    the first call that raises. *)
Fixpoint simplex_run (vectors : list (list float)) (self : Fitness) : list bool :=
  match vectors with
  | [] => []
  | vector :: rest =>
      let (r, self') :=
        DownhillSimplex_call analysis_fit instance_add resolve vector self in
      let fired := (count_visualize (trace self) <? count_visualize (trace self'))%nat in
      match r with
      | Ok _ => fired :: simplex_run rest self'
      | Raise _ => [fired]
      end
  end.

(** The gating rule that the code follows, in the terms of the
    specification: a call visualises when its score strictly improves on the
    best score so far and it is the [interval]-th, [2 * interval]-th, ...
    call to do so.  [improvements] counts the improving calls so far. *)
Fixpoint improving_interval_flags (interval : Z) (best : float) (improvements : Z)
    (scores : list (outcome float)) : list bool :=
  match scores with
  | [] => []
  | Ok likelihood :: rest =>
      if gt likelihood best
      then ((improvements + 1) mod interval =? 0)
             :: improving_interval_flags interval likelihood (improvements + 1) rest
      else false :: improving_interval_flags interval best improvements rest
  | Raise e :: rest =>
      if is_FitException e
      then false :: improving_interval_flags interval best improvements rest
      else [false]
  end.
End Runs.

(** The width policy in the words of the specification: [a] under the
    absolute policy, [mean * r] under the relative one; undefined when both
    or none of the two are supplied. *)
Definition policy_width (a r : option float) (mean : float) : option float :=
  match a, r with
  | Some av, None => Some av
  | None, Some rv => Some (mean * rv)%float
  | _, _ => None
  end.

End Observe.

(* ===================================================================== *)
(** * Further observations *)
(* ===================================================================== *)

Module Views.

Import PriorModel ModelMapper NonLinear Observe.

(** The [__dict__] that [mapper_from_prior_arguments] leaves when the
    attribute names are distinct: every prior model rebuilt in its place,
    every other attribute kept. *)
Fixpoint substitute_attrs (arguments : dict Prior.t Prior.t) (d : dict string Attr)
  : outcome (dict string Attr) :=
  match d with
  | [] => Ok []
  | (name, APriorModel pm) :: rest =>
      pm' <- gaussian_prior_model_for_arguments pm arguments ;;
      rest' <- substitute_attrs arguments rest ;;
      Ok ((name, APriorModel pm') :: rest')
  | (name, APlain v) :: rest =>
      rest' <- substitute_attrs arguments rest ;;
      Ok ((name, APlain v) :: rest')
  end.

(** The tuple [new] is the tuple [old] with its prior replaced by the
    prior that [arguments] assigns to it. *)
Definition substituted (arguments : dict Prior.t Prior.t)
    (old new : PriorNameValue) : Prop :=
  pnv_name new = pnv_name old /\
  dict_get Prior.eqb arguments (pnv_prior old) = Some (pnv_prior new).

(** The same for [mapper_from_partial_prior_arguments]: a prior without an
    entry in [arguments] is kept. *)
Definition partially_substituted (arguments : dict Prior.t Prior.t)
    (old new : PriorNameValue) : Prop :=
  pnv_name new = pnv_name old /\
  match dict_get Prior.eqb arguments (pnv_prior old) with
  | Some q => pnv_prior new = q
  | None => Prior.id (pnv_prior new) = Prior.id (pnv_prior old)
  end.

(** The hard limits that [mapper_from_gaussian_tuples] gives the Gaussian
    prior made from [prior_tuple], whose owning class is [cls]. *)
Definition refined_limits (prior_limit : string -> string -> float * float)
    (cls : string) (prior_tuple : PriorNameValue) : float * float :=
  if Prior.is_gaussian (pnv_prior prior_tuple)
  then (Prior.lower_limit (pnv_prior prior_tuple),
        Prior.upper_limit (pnv_prior prior_tuple))
  else prior_limit cls (pnv_name prior_tuple).

(** [k] successive calls of an interval counter: the answers in order, and
    the counter that is left. *)
Fixpoint call_times (k : nat) : M IntervalCounter (list bool) :=
  match k with
  | O => ret []
  | S k' =>
      fire <~ IntervalCounter_call ;;
      fires <~ call_times k' ;;
      ret (fire :: fires)
  end.

(** The stored result and the stored maximum belong together: the result
    carries the maximum as its figure of merit, and without a result the
    maximum is still minus infinity. *)
Definition best_recorded (self : Fitness) : Prop :=
  match result self with
  | Some r => figure_of_merit r = max_likelihood self
  | None => max_likelihood self = neg_inf
  end.

Definition is_output_results (e : Event) : bool :=
  match e with EvOutputResults _ => true | _ => false end.

(** The checkpoint records that a trace has written, oldest first. *)
Fixpoint saved_checkpoints (tr : list Event) : list Checkpoint :=
  match tr with
  | [] => []
  | EvSaveCheckpoint record :: rest => record :: saved_checkpoints rest
  | _ :: rest => saved_checkpoints rest
  end.

(** The grid adapter and its base class agree on the best fit so far. *)
Definition in_step (g : GridFitness) : Prop :=
  best_fit g = max_likelihood (base g) /\
  best_recorded (base g) /\
  (best_cube g = None <-> result (base g) = None).

(** The optimizer whose checkpoint file holds [record]. *)
Definition with_checkpoint (nlo : GridSearch) (record : Checkpoint) : GridSearch :=
  mkGridSearch (variable nlo) (gs_constant nlo) (step_size nlo) (Some record).

Definition is_backup (e : Event) : bool :=
  match e with EvBackup => true | _ => false end.

Definition count_backups (tr : list Event) : nat := List.length (filter is_backup tr).

(** An optimizer handing the adapter one instance after the other, up to
    the first evaluation that raises. *)
Fixpoint fit_instances (analysis_fit : ModelInstance -> outcome float)
    (instance_add : ModelInstance -> ModelInstance -> ModelInstance)
    (instances : list ModelInstance) : M Fitness unit :=
  match instances with
  | [] => ret tt
  | instance :: rest =>
      fit_instance analysis_fit instance_add instance ;;;
      fit_instances analysis_fit instance_add rest
  end.

End Views.

(* ===================================================================== *)
(** * Observations on info dictionaries *)
(* ===================================================================== *)

Module InfoViews.

Import Info.
Local Open Scope string_scope.

(** [info_dict[k1][k2]...[kn]] for the path [(k1, ..., kn)], when every
    step but the last leads to a dictionary. *)
Fixpoint info_get {Item} (path : list string) (info_dict : dict string (info Item))
  : option (info Item) :=
  match path with
  | [] => None
  | key :: rest =>
      match rest with
      | [] => dict_get String.eqb info_dict key
      | _ :: _ =>
          match dict_get String.eqb info_dict key with
          | Some (Nested sub) => info_get rest sub
          | _ => None
          end
      end
  end.

(** Some proper prefix of the path leads to an item. *)
Fixpoint blocked {Item} (path : list string) (info_dict : dict string (info Item))
  : bool :=
  match path with
  | [] => false
  | key :: rest =>
      match rest with
      | [] => false
      | _ :: _ =>
          match dict_get String.eqb info_dict key with
          | Some (Leaf _) => true
          | Some (Nested sub) => blocked rest sub
          | None => false
          end
      end
  end.

(** The two paths part at some key: neither is a prefix of the other. *)
Fixpoint diverge (p q : list string) : bool :=
  match p, q with
  | x :: p', y :: q' => if x =? y then diverge p' q' else true
  | _, _ => false
  end.

(** For every line of the listing, in order: whether it shows an item
    ([true]) or only the key of a nested dictionary ([false]). *)
Fixpoint value_kinds {Item} (value : info Item) : list bool :=
  match value with
  | Leaf _ => [true]
  | Nested info_dict =>
      false :: (fix items (entries : list (string * info Item)) : list bool :=
                  match entries with
                  | [] => []
                  | (_, v) :: entries' => (value_kinds v ++ items entries')%list
                  end) info_dict
  end.

Definition line_kinds {Item} (info_dict : dict string (info Item)) : list bool :=
  flat_map (fun kv => value_kinds (snd kv)) info_dict.

(** Every key, and every key with its item and one space, has room on its
    line, the indentation taken off. *)
Fixpoint value_fits {Item} (str : Item -> string) (line_length indent : Z)
    (key : string) (value : info Item) : bool :=
  match value with
  | Leaf item => (len key + len (str item) + 1 <=? line_length)%Z
  | Nested info_dict =>
      (len key <=? line_length)%Z
      && (fix items (entries : list (string * info Item)) : bool :=
            match entries with
            | [] => true
            | (k, v) :: entries' =>
                value_fits str (line_length - indent) indent k v && items entries'
            end) info_dict
  end.

Definition fits {Item} (str : Item -> string) (info_dict : dict string (info Item))
    (line_length indent : Z) : bool :=
  forallb (fun kv => value_fits str line_length indent (fst kv) (snd kv)) info_dict.

(** Induction on a value of an info dictionary, with the nested
    dictionaries as premises. *)
Section Induction.
Context {Item : Type}.
Variable P : info Item -> Prop.
Hypothesis HLeaf : forall item, P (Leaf item).
Hypothesis HNested :
  forall info_dict, Forall (fun kv => P (snd kv)) info_dict -> P (Nested info_dict).

Fixpoint info_nested_ind (value : info Item) : P value :=
  match value with
  | Leaf item => HLeaf item
  | Nested info_dict =>
      HNested info_dict
        ((fix items (entries : list (string * info Item))
            : Forall (fun kv => P (snd kv)) entries :=
            match entries with
            | [] => Forall_nil _
            | (k, v) :: entries' =>
                Forall_cons (k, v) (info_nested_ind v) (items entries')
            end) info_dict)
  end.
End Induction.

End InfoViews.

(* ===================================================================== *)
(** * Facts about the Python values *)
(* ===================================================================== *)

Module PyFacts.

Import Observe.

(** ** Floats *)

Lemma SFmul_one_l (y : spec_float) :
  valid_binary y = true -> SF64mul (Prim2SF 1%float) y = y.
Proof.
  change (Prim2SF 1%float) with (S754_finite false 4503599627370496 (-52)).
  destruct y as [s | s | | s m e]; try reflexivity.
  unfold SpecFloat.valid_binary, bounded, canonical_mantissa.
  intros H. apply andb_prop in H. destruct H as [Hc Hb].
  apply Z.eqb_eq in Hc.
  unfold SF64mul, SFmul.
  change (xorb false s) with s.
  set (m52 := (m~0~0~0~0~0~0~0~0~0~0~0~0~0~0~0~0~0~0~0~0~0~0~0~0~0~0
                ~0~0~0~0~0~0~0~0~0~0~0~0~0~0~0~0~0~0~0~0~0~0~0~0~0~0)%positive).
  change (Z.pos (4503599627370496 * m)) with (Z.pos m52).
  assert (Hd : Z.pos (digits2_pos m52) = Z.pos (digits2_pos m) + 52).
  { unfold m52. cbn [digits2_pos]. rewrite !Pos2Z.inj_succ. lia. }
  assert (H1 : shr_fexp prec emax (Z.pos m52) (-52 + e) loc_Exact
               = (Build_shr_record (Z.pos m) false false, e)).
  { unfold shr_fexp. cbn [Zdigits2]. rewrite Hd.
    replace (Z.pos (digits2_pos m) + 52 + (-52 + e))
      with (Z.pos (digits2_pos m) + e) by lia.
    rewrite Hc. replace (e - (-52 + e)) with 52 by lia.
    unfold shr. replace (-52 + e + 52) with e by lia. reflexivity. }
  assert (H2 : shr_fexp prec emax (Z.pos m) e loc_Exact
               = (Build_shr_record (Z.pos m) false false, e)).
  { unfold shr_fexp. cbn [Zdigits2]. rewrite Hc, Z.sub_diag. reflexivity. }
  unfold binary_round_aux. rewrite H1.
  cbn [shr_m loc_of_shr_record round_nearest_even]. rewrite H2.
  cbn [shr_m]. rewrite Hb. reflexivity.
Qed.

(** Multiplying by [1.0] is exact for every float, the special values
    included. *)
Lemma mul_one_l (x : float) : (1 * x)%float = x.
Proof.
  apply Prim2SF_inj. rewrite mul_spec. apply SFmul_one_l, Prim2SF_valid.
Qed.

Lemma SFmul_comm (x y : spec_float) : SF64mul x y = SF64mul y x.
Proof.
  unfold SF64mul, SFmul.
  destruct x as [sx | sx | | sx mx ex], y as [sy | sy | | sy my ey];
    try reflexivity; try (now rewrite xorb_comm).
  now rewrite xorb_comm, Pos.mul_comm, Z.add_comm.
Qed.

Lemma mul_comm (x y : float) : (x * y)%float = (y * x)%float.
Proof.
  apply Prim2SF_inj. rewrite !mul_spec. apply SFmul_comm.
Qed.

Lemma leb_not_ltb_eqb (x y : float) :
  (x <=? y)%float = true -> (x <? y)%float = false -> (x =? y)%float = true.
Proof.
  rewrite leb_spec, ltb_spec, eqb_spec. unfold SFleb, SFltb, SFeqb.
  destruct (SFcompare (Prim2SF x) (Prim2SF y)) as [[ | | ] | ]; congruence.
Qed.

Lemma ltb_eqb_refl (x y : float) :
  (x <? y)%float = true -> (y =? y)%float = true.
Proof.
  rewrite ltb_spec, eqb_spec. unfold SFltb, SFeqb.
  destruct (Prim2SF x) as [ [|] | [|] | | [|] mx ex ],
           (Prim2SF y) as [ [|] | [|] | | [|] my ey ]; cbn; try congruence;
    intros _; rewrite Z.compare_refl, ?Pos.compare_cont_refl; reflexivity.
Qed.

(** ** [map] on two iterables *)

Lemma map2_length {A B C} (f : A -> B -> C) xs ys :
  List.length (map2 f xs ys) = Nat.min (List.length xs) (List.length ys).
Proof.
  revert ys. induction xs as [ | x xs IH ]; intros [ | y ys ]; cbn; auto.
Qed.

Lemma map2_nth_error {A B C} (f : A -> B -> C) xs ys i :
  nth_error (map2 f xs ys) i =
  match nth_error xs i, nth_error ys i with
  | Some x, Some y => Some (f x y)
  | _, _ => None
  end.
Proof.
  revert ys i. induction xs as [ | x xs IH ]; intros [ | y ys ] [ | i ]; cbn; auto.
  destruct (nth_error xs i); reflexivity.
Qed.

Lemma map2_map2_l {A B C D} (f : A -> B -> C) (g : A -> C -> D) xs ys :
  map2 g xs (map2 f xs ys) = map2 (fun x y => g x (f x y)) xs ys.
Proof.
  revert ys. induction xs as [ | x xs IH ]; intros [ | y ys ]; cbn; auto.
  now rewrite IH.
Qed.

(** ** [sorted] *)

Lemma insert_by_perm {A} (key : A -> Z) x l :
  Permutation (insert_by key x l) (x :: l).
Proof.
  induction l as [ | y l IH ]; cbn.
  - apply Permutation_refl.
  - destruct (key x <=? key y).
    + apply Permutation_refl.
    + rewrite IH. apply perm_swap.
Qed.

Lemma sorted_perm {A} (key : A -> Z) l : Permutation (sorted key l) l.
Proof.
  induction l as [ | x l IH ]; cbn.
  - apply perm_nil.
  - rewrite insert_by_perm. now apply perm_skip.
Qed.

Lemma sorted_length {A} (key : A -> Z) l :
  List.length (sorted key l) = List.length l.
Proof. apply Permutation_length, sorted_perm. Qed.

(** ** Dictionaries whose keys are compared through an integer *)

Section DictFacts.
Context {K V : Type}.
Variable keq : K -> K -> bool.
Variable proj : K -> Z.
Hypothesis keq_proj : forall a b, keq a b = (proj a =? proj b).

Lemma dict_get_set (d : dict K V) k v k' :
  dict_get keq (dict_set keq d k v) k' =
  if keq k' k then Some v else dict_get keq d k'.
Proof.
  induction d as [ | [k1 v1] d IH ]; cbn.
  - reflexivity.
  - destruct (keq k k1) eqn:E; cbn.
    + rewrite !keq_proj in *. apply Z.eqb_eq in E. rewrite E.
      destruct (proj k' =? proj k1); reflexivity.
    + rewrite IH. rewrite !keq_proj in *.
      destruct (proj k' =? proj k1) eqn:E1, (proj k' =? proj k) eqn:E2; auto.
      apply Z.eqb_eq in E1, E2. apply Z.eqb_neq in E. congruence.
Qed.

Lemma key_ids_set (d : dict K V) k v :
  key_ids proj (dict_set keq d k v) =
  if existsb (Z.eqb (proj k)) (key_ids proj d) then key_ids proj d
  else key_ids proj d ++ [proj k].
Proof.
  unfold key_ids, dict_keys.
  induction d as [ | [k1 v1] d IH ]; cbn.
  - reflexivity.
  - rewrite keq_proj. destruct (proj k =? proj k1); cbn.
    + reflexivity.
    + rewrite IH. destruct (existsb _ _); reflexivity.
Qed.

Lemma key_ids_set_In (d : dict K V) k v z :
  In z (key_ids proj (dict_set keq d k v)) <-> z = proj k \/ In z (key_ids proj d).
Proof.
  rewrite key_ids_set.
  destruct (existsb (Z.eqb (proj k)) (key_ids proj d)) eqn:E.
  - apply existsb_exists in E. destruct E as (y & Hy & E).
    apply Z.eqb_eq in E. subst y. intuition congruence.
  - rewrite in_app_iff. cbn. intuition.
Qed.

Lemma key_ids_set_NoDup (d : dict K V) k v :
  NoDup (key_ids proj d) -> NoDup (key_ids proj (dict_set keq d k v)).
Proof.
  intros H. rewrite key_ids_set.
  destruct (existsb (Z.eqb (proj k)) (key_ids proj d)) eqn:E; auto.
  apply NoDup_rev in H. rewrite <- (rev_involutive (_ ++ _)).
  apply NoDup_rev. rewrite rev_app_distr. cbn. constructor; auto.
  rewrite <- in_rev. intros Hin.
  assert (X : existsb (Z.eqb (proj k)) (key_ids proj d) = true).
  { apply existsb_exists. exists (proj k). split; auto. apply Z.eqb_refl. }
  congruence.
Qed.

Lemma key_ids_update_In pairs (d : dict K V) z :
  In z (key_ids proj (dict_update keq d pairs)) <->
  In z (key_ids proj d) \/ In z (map proj (map fst pairs)).
Proof.
  revert d. induction pairs as [ | [k v] pairs IH ]; intros d.
  - cbn. intuition.
  - change (dict_update keq d ((k, v) :: pairs))
      with (dict_update keq (dict_set keq d k v) pairs).
    rewrite IH, key_ids_set_In. cbn. intuition.
Qed.

Lemma key_ids_update_NoDup pairs (d : dict K V) :
  NoDup (key_ids proj d) -> NoDup (key_ids proj (dict_update keq d pairs)).
Proof.
  revert d. induction pairs as [ | [k v] pairs IH ]; intros d H; auto.
  change (dict_update keq d ((k, v) :: pairs))
    with (dict_update keq (dict_set keq d k v) pairs).
  apply IH, key_ids_set_NoDup, H.
Qed.

Lemma dict_get_Some_iff (d : dict K V) k :
  (exists v, dict_get keq d k = Some v) <-> In (proj k) (key_ids proj d).
Proof.
  unfold key_ids, dict_keys.
  induction d as [ | [k1 v1] d IH ]; cbn.
  - split; [ intros [v H]; discriminate | tauto ].
  - rewrite keq_proj. destruct (proj k =? proj k1) eqn:E.
    + apply Z.eqb_eq in E. split; eauto.
    + apply Z.eqb_neq in E. rewrite IH. intuition congruence.
Qed.

(** Entries whose value carries the id of its key. *)
Variable projv : V -> Z.

Lemma agree_set (d : dict K V) k v :
  agree proj projv d -> proj k = projv v -> agree proj projv (dict_set keq d k v).
Proof.
  unfold agree. intros H E.
  induction d as [ | [k1 v1] d IH ]; cbn.
  - constructor; auto.
  - inversion H as [ | x l Hx Hl ]; subst. rewrite keq_proj.
    destruct (proj k =? proj k1) eqn:E1.
    + apply Z.eqb_eq in E1. constructor; auto. cbn. congruence.
    + constructor; auto.
Qed.

Lemma agree_update pairs (d : dict K V) :
  agree proj projv d -> Forall (fun kv => proj (fst kv) = projv (snd kv)) pairs ->
  agree proj projv (dict_update keq d pairs).
Proof.
  revert d. induction pairs as [ | [k v] pairs IH ]; intros d Hd Hp; auto.
  inversion Hp; subst.
  change (dict_update keq d ((k, v) :: pairs))
    with (dict_update keq (dict_set keq d k v) pairs).
  apply IH; auto. apply agree_set; auto.
Qed.

Lemma agree_values (d : dict K V) :
  agree proj projv d -> map projv (dict_values d) = key_ids proj d.
Proof.
  unfold agree, key_ids, dict_values, dict_keys.
  induction 1 as [ | [k v] d Hkv _ IH ]; cbn in *; congruence.
Qed.

(** The number of entries of a dictionary built from pairs is the number
    of distinct keys among the pairs. *)
Lemma dict_of_list_length (pairs : list (K * V)) :
  List.length (dict_of_list keq pairs)
  = List.length (nodup Z.eq_dec (map proj (map fst pairs))).
Proof.
  transitivity (List.length (key_ids proj (dict_of_list keq pairs))).
  { unfold key_ids, dict_keys. now rewrite !length_map. }
  apply Nat.le_antisymm; apply NoDup_incl_length.
  - apply key_ids_update_NoDup. constructor.
  - intros z Hz. apply nodup_In. apply key_ids_update_In in Hz.
    destruct Hz as [ [] | Hz ]; exact Hz.
  - apply NoDup_nodup.
  - intros z Hz. apply nodup_In in Hz. apply key_ids_update_In. now right.
Qed.
End DictFacts.

End PyFacts.

(* ===================================================================== *)
(** * Facts about the mapper *)
(* ===================================================================== *)

Module MapperFacts.

Import PriorModel ModelMapper Observe PyFacts.

Lemma Prior_eqb_id (p q : Prior.t) : Prior.eqb p q = (Prior.id p =? Prior.id q).
Proof. reflexivity. Qed.

Lemma prior_tuples_ids (m : ModelMapper.t) :
  NoDup (map pid (prior_tuples m)) /\
  forall z, In z (map pid (prior_tuples m)) <-> In z (field_prior_ids m).
Proof.
  unfold prior_tuples.
  set (pairs := map (fun prior_tuple => (pnv_prior prior_tuple, prior_tuple))
                    (all_prior_tuples m)).
  assert (Hag : agree Prior.id pid (dict_of_list Prior.eqb pairs)).
  { apply (agree_update Prior.eqb Prior.id Prior_eqb_id).
    - constructor.
    - unfold pairs. apply Forall_forall. intros kv Hkv.
      apply in_map_iff in Hkv. destruct Hkv as (pt & <- & _). reflexivity. }
  rewrite (agree_values Prior.id pid _ Hag).
  split.
  - apply (key_ids_update_NoDup Prior.eqb Prior.id Prior_eqb_id). constructor.
  - intros z. unfold dict_of_list.
    rewrite (key_ids_update_In Prior.eqb Prior.id Prior_eqb_id).
    unfold field_prior_ids, pairs. rewrite !map_map. cbn. tauto.
Qed.

Lemma ordered_ids (m : ModelMapper.t) :
  NoDup (map pid (prior_tuples_ordered_by_id m)) /\
  forall z, In z (map pid (prior_tuples_ordered_by_id m)) <-> In z (field_prior_ids m).
Proof.
  destruct (prior_tuples_ids m) as [Hnd Hin].
  assert (P : Permutation (map pid (prior_tuples_ordered_by_id m))
                          (map pid (prior_tuples m))).
  { apply Permutation_map, sorted_perm. }
  split.
  - eapply Permutation_NoDup; [ apply Permutation_sym, P | exact Hnd ].
  - intros z. rewrite <- Hin. split; apply Permutation_in; auto.
    now apply Permutation_sym.
Qed.

(** The parameter count is the number of distinct prior ids among the
    fields of the mapper. *)
Lemma prior_count_distinct (m : ModelMapper.t) :
  prior_count m = Z.of_nat (List.length (nodup Z.eq_dec (field_prior_ids m))).
Proof.
  unfold prior_count, prior_tuples_ordered_by_id, prior_tuples, dict_values.
  rewrite sorted_length, length_map.
  rewrite (dict_of_list_length Prior.eqb Prior.id Prior_eqb_id).
  unfold field_prior_ids. now rewrite !map_map.
Qed.

Lemma prior_count_zero (m : ModelMapper.t) :
  prior_count m = 0 -> all_prior_tuples m = [].
Proof.
  rewrite prior_count_distinct. intros H.
  destruct (all_prior_tuples m) as [ | pt l ] eqn:E; auto.
  exfalso.
  assert (Hin : In (pid pt) (nodup Z.eq_dec (field_prior_ids m))).
  { apply nodup_In. unfold field_prior_ids. rewrite E. now left. }
  destruct (nodup Z.eq_dec (field_prior_ids m)); [ destruct Hin | discriminate ].
Qed.

(** ** Rebuilding a mapper from a substitution of priors *)

Lemma flat_map_nil {A B} (f : A -> list B) (l : list A) :
  flat_map f l = [] -> forall x, In x l -> f x = [].
Proof.
  induction l as [ | y l IH ]; cbn; intros H x Hx.
  - destruct Hx.
  - apply app_eq_nil in H. destruct H as [H1 H2].
    destruct Hx as [ <- | Hx ]; auto.
Qed.

(** A node is rebuilt whenever each of its priors has an entry. *)
Lemma substitute_fields_ok (arguments : dict Prior.t Prior.t) (fs : list Field) :
  (forall f p, In f fs -> field_value f = FPrior p ->
               In (Prior.id p) (key_ids Prior.id arguments)) ->
  exists fs', substitute_fields arguments fs = Ok fs'.
Proof.
  induction fs as [ | f fs IH ]; intros H; cbn.
  - eauto.
  - destruct IH as [fs' E].
    { intros g p Hg. apply H. now right. }
    rewrite E.
    destruct (field_value f) as [p | c] eqn:Ev; cbn; eauto.
    destruct (proj2 (dict_get_Some_iff Prior.eqb Prior.id Prior_eqb_id arguments p))
      as [q Hq].
    { apply (H f p); auto. now left. }
    rewrite Hq. cbn. eauto.
Qed.

Lemma rebuild_prior_models_ok (arguments : dict Prior.t Prior.t)
    (pms : list (string * PriorModel.t)) :
  (forall name pm, In (name, pm) pms ->
     exists pm', gaussian_prior_model_for_arguments pm arguments = Ok pm') ->
  forall mapper, exists mapper', rebuild_prior_models arguments pms mapper = Ok mapper'.
Proof.
  induction pms as [ | [name pm] pms IH ]; intros H mapper; cbn.
  - eauto.
  - destruct (H name pm) as [pm' E]; [ now left | ].
    rewrite E. cbn. apply IH. intros n q Hq. apply (H n q). now right.
Qed.

Lemma field_prior_in_mapper (m : ModelMapper.t) name pm f p :
  In (name, pm) (prior_model_tuples m) -> In f (fields pm) ->
  field_value f = FPrior p -> In (Prior.id p) (field_prior_ids m).
Proof.
  intros Hpm Hf Hv. unfold field_prior_ids, all_prior_tuples.
  apply in_map_iff. exists (mkPriorNameValue (field_name f) p). split; auto.
  apply in_flat_map. exists (name, pm). split; auto.
  unfold PriorModel.prior_tuples. cbn. apply in_flat_map. exists f. split; auto.
  rewrite Hv. now left.
Qed.

(** The substitution succeeds as soon as every prior of the mapper has an
    entry in the dictionary. *)
Lemma mapper_from_prior_arguments_ok (m : ModelMapper.t)
    (arguments : dict Prior.t Prior.t) :
  (forall z, In z (field_prior_ids m) -> In z (key_ids Prior.id arguments)) ->
  exists m', mapper_from_prior_arguments m arguments = Ok m'.
Proof.
  intros H. unfold mapper_from_prior_arguments.
  apply rebuild_prior_models_ok. intros name pm Hpm.
  unfold gaussian_prior_model_for_arguments.
  destruct (substitute_fields_ok arguments (fields pm)) as [fs' E].
  - intros f p Hf Hv. apply H. eapply field_prior_in_mapper; eauto.
  - rewrite E. cbn. eauto.
Qed.

(** Every prior of the mapper has a class in [prior_class_dict]. *)
Lemma prior_class_dict_covers (m : ModelMapper.t) z :
  In z (field_prior_ids m) -> In z (key_ids Prior.id (prior_class_dict m)).
Proof.
  unfold field_prior_ids, all_prior_tuples. intros H.
  apply in_map_iff in H. destruct H as (pt & <- & H).
  apply in_flat_map in H. destruct H as ([name pm] & Hpm & H).
  unfold PriorModel.prior_tuples in H. cbn in H.
  apply in_flat_map in H. destruct H as (f & Hf & H).
  assert (Hk : In (pid pt) (key_ids Prior.id (PriorModel.prior_class_dict pm))).
  { unfold PriorModel.prior_class_dict, dict_of_list.
    apply (key_ids_update_In Prior.eqb Prior.id Prior_eqb_id). right.
    rewrite map_map. apply in_map_iff.
    destruct (field_value f) as [p | c] eqn:Ev; [ | destruct H ].
    destruct H as [ <- | [] ]. exists (p, field_cls f). split; auto.
    apply in_flat_map. exists f. split; auto. rewrite Ev. now left. }
  unfold key_ids, dict_keys in Hk. rewrite map_map in Hk.
  apply in_map_iff in Hk. destruct Hk as ([k c] & Hid & Hin). cbn in Hid.
  unfold prior_class_dict, dict_of_list.
  apply (key_ids_update_In Prior.eqb Prior.id Prior_eqb_id). right.
  rewrite map_map. apply in_map_iff. exists (k, c). split; auto.
  apply in_flat_map. exists (name, pm). split; auto.
Qed.

(** ** The loop of [mapper_from_gaussian_tuples] *)

Section Loop.
Variable prior_width : string -> string -> string * float.
Variable prior_limit : string -> string -> float * float.
Variable pcd : dict Prior.t string.
Variable tuples : list (float * float).
Variable a r : option float.

Lemma gaussian_prior_for_one_policy i prior_tuple new_id mean ew w :
  policy_width a r mean = Some w ->
  In (pid prior_tuple) (key_ids Prior.id pcd) ->
  nth_error tuples i = Some (mean, ew) ->
  exists lo hi,
    gaussian_prior_for prior_width prior_limit pcd tuples a r i prior_tuple new_id
    = Ok (Prior.mk new_id (Prior.GaussianPrior mean (Py.max ew w) lo hi)).
Proof.
  intros Hw Hc Ht. unfold gaussian_prior_for.
  apply (dict_get_Some_iff Prior.eqb Prior.id Prior_eqb_id) in Hc.
  destruct Hc as [c Hc]. rewrite Hc, Ht. cbn.
  destruct a as [av | ], r as [rv | ]; cbn in Hw; try discriminate;
    injection Hw as <-; cbn.
  - eauto.
  - rewrite (mul_comm rv mean). eauto.
Qed.

Lemma gaussian_prior_for_both i prior_tuple new_id av rv tu :
  a = Some av -> r = Some rv ->
  In (pid prior_tuple) (key_ids Prior.id pcd) ->
  nth_error tuples i = Some tu ->
  gaussian_prior_for prior_width prior_limit pcd tuples a r i prior_tuple new_id
  = Raise (PriorException "Width of new priors cannot be both relative and absolute.").
Proof.
  intros -> -> Hc Ht. unfold gaussian_prior_for.
  apply (dict_get_Some_iff Prior.eqb Prior.id Prior_eqb_id) in Hc.
  destruct Hc as [c Hc]. rewrite Hc, Ht. reflexivity.
Qed.

Lemma gaussian_arguments_one_policy (pts : list PriorNameValue) :
  forall i arguments next_id,
    (forall mean, policy_width a r mean <> None) ->
    (forall pt, In pt pts -> In (pid pt) (key_ids Prior.id pcd)) ->
    (i + List.length pts <= List.length tuples)%nat ->
    NoDup (map pid pts) ->
    exists arguments',
      gaussian_arguments prior_width prior_limit pcd tuples a r i pts arguments next_id
      = Ok arguments' /\
      (forall z, In z (key_ids Prior.id arguments') <->
                 In z (key_ids Prior.id arguments) \/ In z (map pid pts)) /\
      (forall p, ~ In (Prior.id p) (map pid pts) ->
                 dict_get Prior.eqb arguments' p = dict_get Prior.eqb arguments p) /\
      (forall j pt mean ew,
          nth_error pts j = Some pt -> nth_error tuples (i + j) = Some (mean, ew) ->
          exists w lo hi,
            policy_width a r mean = Some w /\
            dict_get Prior.eqb arguments' (pnv_prior pt)
            = Some (Prior.mk (next_id + Z.of_nat j)
                             (Prior.GaussianPrior mean (Py.max ew w) lo hi))).
Proof.
  induction pts as [ | pt pts IH ]; intros i arguments next_id Hpol Hc Hlen Hnd.
  - exists arguments. cbn. repeat split; auto.
    + tauto.
    + intros j pt mean ew Hj. destruct j; discriminate.
  - cbn in Hlen. inversion Hnd as [ | x l Hnotin Hnd' ]; subst.
    destruct (nth_error tuples i) as [[mean ew] | ] eqn:Ht.
    2:{ apply nth_error_None in Ht. lia. }
    destruct (policy_width a r mean) as [w | ] eqn:Hw.
    2:{ now destruct (Hpol mean). }
    destruct (gaussian_prior_for_one_policy i pt next_id mean ew w Hw)
      as (lo & hi & Hg); auto.
    { apply Hc. now left. }
    cbn [gaussian_arguments]. rewrite Hg. cbn [bind].
    set (g := Prior.mk next_id (Prior.GaussianPrior mean (Py.max ew w) lo hi)).
    destruct (IH (S i) (dict_set Prior.eqb arguments (pnv_prior pt) g) (next_id + 1))
      as (arguments' & Hrun & Hkeys & Hother & Hnth); auto.
    { intros q Hq. apply Hc. now right. }
    { lia. }
    exists arguments'. split; [ exact Hrun | ]. split; [ | split ].
    + intros z. rewrite Hkeys.
      rewrite (key_ids_set_In Prior.eqb Prior.id Prior_eqb_id). cbn.
      change (pid pt) with (Prior.id (pnv_prior pt)). intuition congruence.
    + intros p Hp. cbn in Hp. rewrite Hother by tauto.
      rewrite (dict_get_set Prior.eqb Prior.id Prior_eqb_id).
      rewrite Prior_eqb_id. destruct (Prior.id p =? Prior.id (pnv_prior pt)) eqn:E; auto.
      apply Z.eqb_eq in E. exfalso. apply Hp. left. unfold pid. now symmetry.
    + intros [ | j ] q mean' ew' Hq Htq; cbn in Hq.
      * injection Hq as <-. rewrite Nat.add_0_r in Htq. rewrite Ht in Htq.
        injection Htq as <- <-. exists w, lo, hi. split; auto.
        rewrite Hother by exact Hnotin.
        rewrite (dict_get_set Prior.eqb Prior.id Prior_eqb_id).
        rewrite Prior_eqb_id, Z.eqb_refl. unfold g. cbn [Z.of_nat].
        now rewrite Z.add_0_r.
      * destruct (Hnth j q mean' ew' Hq) as (w' & lo' & hi' & Hw' & Hget).
        { now rewrite <- Nat.add_succ_comm in Htq. }
        exists w', lo', hi'. split; auto. rewrite Hget.
        replace (next_id + 1 + Z.of_nat j) with (next_id + Z.of_nat (S j)) by lia.
        reflexivity.
Qed.
End Loop.

(** ** Tying a field to another prior *)

(** Distinct elements of a list after one occurrence of [q] is replaced by
    an element [p] that occurs elsewhere in the list. *)
Lemma nodup_length_replace (l1 l2 : list Z) (p q : Z) :
  p <> q -> In p (l1 ++ l2) ->
  List.length (nodup Z.eq_dec (l1 ++ p :: l2)) =
  if Nat.eqb (count_occ Z.eq_dec (l1 ++ q :: l2) q) 1
  then Nat.pred (List.length (nodup Z.eq_dec (l1 ++ q :: l2)))
  else List.length (nodup Z.eq_dec (l1 ++ q :: l2)).
Proof.
  intros Hpq Hp.
  assert (Hocc : count_occ Z.eq_dec (l1 ++ q :: l2) q
                 = S (count_occ Z.eq_dec (l1 ++ l2) q)).
  { rewrite !count_occ_app, count_occ_cons_eq by reflexivity. lia. }
  assert (HinL' : forall z, In z (l1 ++ p :: l2) <-> In z (l1 ++ l2)).
  { intros z. rewrite !in_app_iff in *. cbn. intuition (subst; auto). }
  assert (HinL : forall z, In z (l1 ++ q :: l2) <-> z = q \/ In z (l1 ++ l2)).
  { intros z. rewrite !in_app_iff. cbn. intuition. }
  rewrite Hocc.
  destruct (count_occ Z.eq_dec (l1 ++ l2) q) as [ | n ] eqn:E; cbn [Nat.eqb].
  - (* the replaced prior was held by this field only *)
    apply count_occ_not_In in E.
    assert (Hlen : List.length (nodup Z.eq_dec (l1 ++ q :: l2))
                   = S (List.length (nodup Z.eq_dec (l1 ++ p :: l2)))).
    { change (S (List.length (nodup Z.eq_dec (l1 ++ p :: l2))))
        with (List.length (q :: nodup Z.eq_dec (l1 ++ p :: l2))).
      apply Nat.le_antisymm; apply NoDup_incl_length.
      - apply NoDup_nodup.
      - intros z Hz. apply nodup_In in Hz. apply HinL in Hz.
        destruct Hz as [ -> | Hz ]; [ now left | right ].
        apply nodup_In. now apply HinL'.
      - constructor; [ | apply NoDup_nodup ].
        intros Hq. apply nodup_In in Hq. apply HinL' in Hq. contradiction.
      - intros z Hz. apply nodup_In. apply HinL.
        destruct Hz as [ <- | Hz ]; [ now left | right ].
        apply nodup_In in Hz. now apply HinL' in Hz. }
    rewrite Hlen. reflexivity.
  - assert (Hq : In q (l1 ++ l2)).
    { apply (count_occ_In Z.eq_dec). lia. }
    apply Nat.le_antisymm; apply NoDup_incl_length; try apply NoDup_nodup.
    + intros z Hz. apply nodup_In. apply HinL. right.
      apply nodup_In in Hz. now apply HinL' in Hz.
    + intros z Hz. apply nodup_In. apply HinL'.
      apply nodup_In in Hz. apply HinL in Hz.
      destruct Hz as [ -> | Hz ]; auto.
Qed.

Lemma set_field_prior_tuples (owner : string) (fs : list Field) (name : string)
    (p q : Prior.t) :
  get_field fs name = Some (FPrior q) ->
  exists t1 t2,
    tuples_of_fields fs = t1 ++ mkPriorNameValue name q :: t2 /\
    tuples_of_fields (set_field owner fs name (FPrior p))
    = t1 ++ mkPriorNameValue name p :: t2.
Proof.
  unfold tuples_of_fields, PriorModel.prior_tuples. cbn [fields].
  induction fs as [ | f fs IH ]; cbn; intros H.
  - discriminate.
  - destruct (name =? field_name f)%string eqn:E.
    + apply String.eqb_eq in E. injection H as Hv. cbn. rewrite Hv. subst name.
      exists [], (flat_map (fun f => match field_value f with
                                     | FPrior p => [mkPriorNameValue (field_name f) p]
                                     | FConstant _ => []
                                     end) fs).
      split; reflexivity.
    + destruct (IH H) as (t1 & t2 & E1 & E2). cbn. rewrite E1, E2.
      exists ((match field_value f with
               | FPrior p => [mkPriorNameValue (field_name f) p]
               | FConstant _ => []
               end) ++ t1), t2.
      now rewrite <- !app_assoc.
Qed.

Lemma tuples_of_attrs_model (k : string) (pm : PriorModel.t) (d : dict string Attr) :
  tuples_of_attrs ((k, APriorModel pm) :: d)
  = PriorModel.prior_tuples pm ++ tuples_of_attrs d.
Proof.
  unfold tuples_of_attrs, all_prior_tuples, prior_model_tuples, dict_items.
  reflexivity.
Qed.

Lemma tuples_of_attrs_plain (k : string) (v : PlainValue) (d : dict string Attr) :
  tuples_of_attrs ((k, APlain v) :: d) = tuples_of_attrs d.
Proof. reflexivity. Qed.

Lemma setattr_prior_tuples (d : dict string Attr) (name : string) (pm : PriorModel.t) :
  dict_get String.eqb d name = Some (APriorModel pm) ->
  exists a1 a2,
    tuples_of_attrs d = a1 ++ PriorModel.prior_tuples pm ++ a2 /\
    forall pm',
      tuples_of_attrs (dict_set String.eqb d name (APriorModel pm'))
      = a1 ++ PriorModel.prior_tuples pm' ++ a2.
Proof.
  induction d as [ | [k v] d IH ]; cbn [dict_get dict_set]; intros H.
  - discriminate.
  - destruct (name =? k)%string eqn:E.
    + injection H as ->. exists [], (tuples_of_attrs d).
      split; [ apply tuples_of_attrs_model | ].
      intros pm'. apply tuples_of_attrs_model.
    + destruct (IH H) as (a1 & a2 & E1 & E2).
      destruct v as [pm0 | pv].
      * exists (PriorModel.prior_tuples pm0 ++ a1), a2. split.
        -- rewrite tuples_of_attrs_model, E1. now rewrite <- app_assoc.
        -- intros pm'. rewrite tuples_of_attrs_model, E2. now rewrite <- app_assoc.
      * exists a1, a2. split.
        -- now rewrite tuples_of_attrs_plain.
        -- intros pm'. now rewrite tuples_of_attrs_plain.
Qed.

(** Assigning prior [p] to a field that holds prior [q] replaces one
    occurrence of [q] by [p] in the sequence of the fields' priors. *)
Lemma assign_prior_tuples (m : ModelMapper.t) (model_name field_name : string)
    (p q : Prior.t) :
  read_field m model_name field_name = Some (FPrior q) ->
  exists l1 l2,
    field_prior_ids m = l1 ++ Prior.id q :: l2 /\
    field_prior_ids (assign_prior m model_name field_name p)
    = l1 ++ Prior.id p :: l2.
Proof.
  unfold read_field, assign_prior.
  destruct (dict_get String.eqb (attrs m) model_name) as [[pm | pv] | ] eqn:Hm;
    try discriminate.
  unfold PriorModel.getattr. intros Hf.
  destruct (setattr_prior_tuples (attrs m) model_name pm Hm) as (a1 & a2 & E1 & E2).
  destruct (set_field_prior_tuples (cls pm) (fields pm) field_name p q Hf)
    as (t1 & t2 & F1 & F2).
  unfold tuples_of_attrs in E1, E2. unfold tuples_of_fields in F1, F2.
  exists (map pid (a1 ++ t1)), (map pid (t2 ++ a2)).
  unfold field_prior_ids. split.
  - destruct m as [d]. cbn [attrs] in *. rewrite E1.
    unfold PriorModel.prior_tuples in *. cbn [fields] in *. rewrite F1.
    rewrite !map_app. cbn. now rewrite <- !app_assoc.
  - unfold ModelMapper.setattr. rewrite E2.
    unfold PriorModel.setattr, PriorModel.prior_tuples in *. cbn [fields] in *.
    rewrite F2. rewrite !map_app. cbn. now rewrite <- !app_assoc.
Qed.

Lemma read_field_In (m : ModelMapper.t) (model_name field_name : string) (p : Prior.t) :
  read_field m model_name field_name = Some (FPrior p) ->
  In (Prior.id p) (field_prior_ids m).
Proof.
  intros H. destruct (assign_prior_tuples m model_name field_name p p H)
    as (l1 & l2 & E & _).
  rewrite E. apply in_elt.
Qed.

(** ** Resolving a mapper against values for its priors *)

Lemma resolve_fields_ok (arguments : dict Prior.t float) (fs : list Field) :
  (forall f p, In f fs -> field_value f = FPrior p ->
               In (Prior.id p) (key_ids Prior.id arguments)) ->
  exists o, resolve_fields arguments fs = Ok o.
Proof.
  induction fs as [ | f fs IH ]; intros H; cbn.
  - eauto.
  - destruct IH as [o E].
    { intros g p Hg. apply H. now right. }
    rewrite E.
    destruct (field_value f) as [p | c] eqn:Ev; cbn; eauto.
    destruct (proj2 (dict_get_Some_iff Prior.eqb Prior.id Prior_eqb_id arguments p))
      as [x Hx].
    { apply (H f p); auto. now left. }
    rewrite Hx. cbn. eauto.
Qed.

Lemma resolve_prior_models_ok (arguments : dict Prior.t float)
    (pms : list (string * PriorModel.t)) :
  (forall name pm, In (name, pm) pms ->
     exists o, PriorModel.instance_for_arguments pm arguments = Ok o) ->
  forall model_instance,
    exists model_instance',
      resolve_prior_models arguments pms model_instance = Ok model_instance'.
Proof.
  induction pms as [ | [name pm] pms IH ]; intros H model_instance; cbn.
  - eauto.
  - destruct (H name pm) as [o E]; [ now left | ].
    rewrite E. cbn. apply IH. intros n q Hq. apply (H n q). now right.
Qed.

(** The resolution succeeds as soon as every prior of the mapper has a
    value. *)
Lemma instance_for_arguments_ok (m : ModelMapper.t) (arguments : dict Prior.t float) :
  (forall z, In z (field_prior_ids m) -> In z (key_ids Prior.id arguments)) ->
  exists instance, instance_for_arguments m arguments = Ok instance.
Proof.
  intros H. unfold instance_for_arguments.
  destruct (resolve_prior_models_ok arguments (prior_model_tuples m)) with
    (model_instance := @nil (string * InstanceAttr)) as [mi E].
  - intros name pm Hpm. unfold PriorModel.instance_for_arguments.
    apply resolve_fields_ok. intros f p Hf Hv. apply H.
    eapply field_prior_in_mapper; eauto.
  - rewrite E. cbn. eauto.
Qed.

Lemma map2_fst_ids {B} (g : PriorNameValue -> B -> float)
    (pts : list PriorNameValue) (ys : list B) :
  (List.length pts <= List.length ys)%nat ->
  map Prior.id (map fst (map2 (fun pt y => (pnv_prior pt, g pt y)) pts ys))
  = map pid pts.
Proof.
  revert ys. induction pts as [ | pt pts IH ]; intros [ | y ys ] H; cbn in *;
    try reflexivity; try lia.
  rewrite IH by lia. reflexivity.
Qed.

Lemma instance_from_unit_vector_ok (value_for : Prior.t -> float -> float)
    (m : ModelMapper.t) (u : list float) :
  prior_count m <= Z.of_nat (List.length u) ->
  exists instance, instance_from_unit_vector value_for m u = Ok instance.
Proof.
  intros H. unfold instance_from_unit_vector.
  apply instance_for_arguments_ok. intros z Hz.
  unfold dict_of_list. apply (key_ids_update_In Prior.eqb Prior.id Prior_eqb_id).
  right.
  rewrite (map2_fst_ids (fun pt y => value_for (pnv_prior pt) y)).
  - now apply (proj2 (ordered_ids m)).
  - unfold prior_count in H. lia.
Qed.

End MapperFacts.

(* ===================================================================== *)
(** * Properties of the parameter space *)
(* ===================================================================== *)

Section MapperProperties.

Import PriorModel ModelMapper Observe PyFacts MapperFacts.

(** C3, as stated, fails: [physical_vector_from_hypercube_vector] never
    checks the length of its argument.  On a space with two priors a unit
    vector of length one is mapped to a physical vector of length one, and
    a unit vector of length three to a physical vector of length two; no
    error is raised. *)
Lemma C3_short_and_long_vectors_are_accepted :
  prior_count Examples.mapper_two = 2 /\
  physical_vector_from_hypercube_vector Examples.uniform_value_for
    Examples.mapper_two [0.5%float] = [0.5%float] /\
  physical_vector_from_hypercube_vector Examples.uniform_value_for
    Examples.mapper_two [0.5%float; 0.5%float; 0.5%float] = [0.5%float; 1%float].
Proof. repeat split; vm_compute; reflexivity. Qed.

(** C3, amended: for every parameter space and every unit vector, of any
    length, the conversion returns a vector and raises nothing; its length is
    the smaller of the vector's length and the parameter count, and position
    [i] holds [value_for] of the [i]-th prior in id order applied to the
    [i]-th unit value. *)
Theorem C3_physical_vector_truncates
    (value_for : Prior.t -> float -> float) (m : ModelMapper.t) (u : list float) :
  Z.of_nat (List.length (physical_vector_from_hypercube_vector value_for m u))
    = Z.min (prior_count m) (Z.of_nat (List.length u)) /\
  forall i,
    nth_error (physical_vector_from_hypercube_vector value_for m u) i =
    match nth_error (prior_tuples_ordered_by_id m) i, nth_error u i with
    | Some prior_tuple, Some unit => Some (value_for (pnv_prior prior_tuple) unit)
    | _, _ => None
    end.
Proof.
  unfold physical_vector_from_hypercube_vector, prior_count. split.
  - rewrite map2_length. lia.
  - intros i. apply map2_nth_error.
Qed.

(** C6: for every unit vector [u], resolving the physical vector
    obtained from [u] and resolving [u] directly give the same outcome; when
    [u] has the length of the parameter count, both give one and the same
    instance graph, leaf for leaf. *)
Theorem C6_resolve_physical_of_to_physical
    (value_for : Prior.t -> float -> float) (m : ModelMapper.t) (u : list float) :
  instance_from_physical_vector m (physical_vector_from_hypercube_vector value_for m u)
  = instance_from_unit_vector value_for m u /\
  (Z.of_nat (List.length u) = prior_count m ->
   exists instance,
     instance_from_unit_vector value_for m u = Ok instance /\
     instance_from_physical_vector m
       (physical_vector_from_hypercube_vector value_for m u) = Ok instance).
Proof.
  assert (E : instance_from_physical_vector m
                (physical_vector_from_hypercube_vector value_for m u)
              = instance_from_unit_vector value_for m u).
  { unfold instance_from_physical_vector, physical_vector_from_hypercube_vector,
      instance_from_unit_vector.
    now rewrite map2_map2_l. }
  split; [ exact E | ].
  intros Hlen. destruct (instance_from_unit_vector_ok value_for m u) as [instance H].
  - lia.
  - exists instance. split; [ exact H | ]. now rewrite E.
Qed.

(** C6 on the two priors of [mapper_two] at the unit vector [0.5, 0.5]. *)
Lemma C6_resolve_physical_of_to_physical_witness :
  exists instance,
    instance_from_unit_vector Examples.uniform_value_for Examples.mapper_two
      [0.5; 0.5]%float = Ok instance /\
    instance_from_physical_vector Examples.mapper_two
      (physical_vector_from_hypercube_vector Examples.uniform_value_for
         Examples.mapper_two [0.5; 0.5]%float) = Ok instance.
Proof.
  apply (C6_resolve_physical_of_to_physical Examples.uniform_value_for
           Examples.mapper_two [0.5; 0.5]%float).
  reflexivity.
Defined.

(** C7, as stated, fails where it says "strictly": in a space whose
    fields [one], [two], [three] hold the priors 0, 1, 1, tying [two] to the
    prior of [one] leaves two distinct priors, because [three] still holds
    prior 1. *)
Lemma C7_tying_a_shared_prior_keeps_the_count :
  read_field Examples.mapper_tied "profile" "one" = Some (FPrior Examples.p0) /\
  read_field Examples.mapper_tied "profile" "two" = Some (FPrior Examples.p1) /\
  prior_count Examples.mapper_tied = 2 /\
  prior_count (assign_prior Examples.mapper_tied "profile" "two" Examples.p0) = 2.
Proof. repeat split; vm_compute; reflexivity. Qed.

(** C7, amended: the parameter count is the length of the deduplicated,
    id-ordered sequence of priors, which is the number of distinct priors
    among the fields; tying a field that held prior [q] to a different prior
    [p] held by another field never increases the count, and decreases it by
    exactly one when no other field holds [q], leaving it unchanged
    otherwise. *)
Theorem C7_count_and_sharing (m : ModelMapper.t)
    (model_1 field_1 model_2 field_2 : string) (p q : Prior.t) :
  read_field m model_1 field_1 = Some (FPrior p) ->
  read_field m model_2 field_2 = Some (FPrior q) ->
  Prior.id p <> Prior.id q ->
  Z.of_nat (List.length (prior_tuples_ordered_by_id m)) = prior_count m /\
  prior_count m = Z.of_nat (List.length (nodup Z.eq_dec (field_prior_ids m))) /\
  prior_count (assign_prior m model_2 field_2 p) <= prior_count m /\
  prior_count (assign_prior m model_2 field_2 p)
  = if Nat.eqb (holders m (Prior.id q)) 1 then prior_count m - 1 else prior_count m.
Proof.
  intros Hp Hq Hne.
  split; [ reflexivity | ]. split; [ apply prior_count_distinct | ].
  destruct (assign_prior_tuples m model_2 field_2 p q Hq) as (l1 & l2 & E & E').
  pose proof (read_field_In m model_1 field_1 p Hp) as Hin.
  rewrite E in Hin.
  assert (Hin' : In (Prior.id p) (l1 ++ l2)).
  { apply in_app_iff in Hin. apply in_app_iff.
    destruct Hin as [ Hin | [ Hin | Hin ] ]; auto. congruence. }
  pose proof (nodup_length_replace l1 l2 (Prior.id p) (Prior.id q) Hne Hin') as Hlen.
  rewrite !prior_count_distinct. unfold holders. rewrite E, E', Hlen.
  assert (Hpos : (0 < List.length (nodup Z.eq_dec (l1 ++ Prior.id q :: l2)))%nat).
  { destruct (nodup Z.eq_dec (l1 ++ Prior.id q :: l2)) eqn:En; cbn; [ | lia ].
    assert (X : In (Prior.id q) (nodup Z.eq_dec (l1 ++ Prior.id q :: l2))).
    { apply nodup_In, in_elt. }
    rewrite En in X. destruct X. }
  destruct (Nat.eqb (count_occ Z.eq_dec (l1 ++ Prior.id q :: l2) (Prior.id q)) 1);
    split; lia.
Qed.

(** The amended C7 on two independent priors: tying [centre_1] to the prior
    of [centre_0] takes the count from two to one. *)
Lemma C7_count_and_sharing_witness :
  Z.of_nat (List.length (prior_tuples_ordered_by_id Examples.mapper_two))
  = prior_count Examples.mapper_two /\
  prior_count Examples.mapper_two
  = Z.of_nat (List.length (nodup Z.eq_dec (field_prior_ids Examples.mapper_two))) /\
  prior_count (assign_prior Examples.mapper_two "profile" "centre_1" Examples.p0)
  <= prior_count Examples.mapper_two /\
  prior_count (assign_prior Examples.mapper_two "profile" "centre_1" Examples.p0)
  = if Nat.eqb (holders Examples.mapper_two (Prior.id Examples.p1)) 1
    then prior_count Examples.mapper_two - 1 else prior_count Examples.mapper_two.
Proof.
  apply (C7_count_and_sharing Examples.mapper_two "profile" "centre_0"
           "profile" "centre_1" Examples.p0 Examples.p1).
  - reflexivity.
  - reflexivity.
  - vm_compute. discriminate.
Defined.

End MapperProperties.

(* ===================================================================== *)
(** * Properties of the refinement *)
(* ===================================================================== *)

Section RefinementProperties.

Import PriorModel ModelMapper Observe PyFacts MapperFacts.

Lemma ordered_nil_of_count (m : ModelMapper.t) :
  prior_count m = 0 -> prior_tuples_ordered_by_id m = [].
Proof.
  unfold prior_count. destruct (prior_tuples_ordered_by_id m); cbn; auto. lia.
Qed.

Lemma ordered_covered (m : ModelMapper.t) prior_tuple :
  In prior_tuple (prior_tuples_ordered_by_id m) ->
  In (pid prior_tuple) (key_ids Prior.id (prior_class_dict m)).
Proof.
  intros H. apply prior_class_dict_covers. apply (proj2 (ordered_ids m)).
  now apply in_map.
Qed.

(** C4, as stated, fails for a negative mean: refining from the means
    [-1, 3] with only [r = 1.0] gives the first prior sigma [0], not its
    mean [-1]: the sigma is [max(0, r * mean)]. *)
Lemma C4_relative_sigma_of_negative_mean :
  exists m',
    mapper_from_gaussian_tuples Examples.no_width Examples.no_limit
      Examples.mapper_two [((-1)%float, 0%float); (3%float, 0%float)]
      None (Some 1%float) 10 = Ok m' /\
    read_field m' "profile" "centre_0"
    = Some (FPrior (Prior.mk 10 (Prior.GaussianPrior (-1) 0 neg_infinity infinity))) /\
    feq 0 (-1) = false.
Proof. eexists. repeat split; vm_compute; reflexivity. Qed.

(** C4, amended: when exactly one of [a] and [r] is supplied and there is a
    posterior tuple for every prior, [mapper_from_gaussian_tuples] succeeds,
    and for the [i]-th prior in id order it creates a Gaussian prior with the
    [i]-th mean and sigma [max(empirical_width, policy_width)], where the
    policy width is [a] under the absolute policy and [mean * r] under the
    relative one.  With zero empirical width, [a = 2.0] gives sigma [2.0]
    whatever the mean, and [r = 1.0] gives a sigma equal to the mean for
    every mean that is not negative. *)
Theorem C4_refined_sigma
    (prior_width : string -> string -> string * float)
    (prior_limit : string -> string -> float * float)
    (m : ModelMapper.t) (tuples : list (float * float))
    (a r : option float) (next_id : Z) :
  (a = None /\ r <> None) \/ (a <> None /\ r = None) ->
  prior_count m <= Z.of_nat (List.length tuples) ->
  exists arguments m',
    gaussian_arguments prior_width prior_limit (prior_class_dict m) tuples a r 0%nat
      (prior_tuples_ordered_by_id m) [] next_id = Ok arguments /\
    mapper_from_prior_arguments m arguments = Ok m' /\
    mapper_from_gaussian_tuples prior_width prior_limit m tuples a r next_id = Ok m' /\
    forall i prior_tuple mean empirical_width,
      nth_error (prior_tuples_ordered_by_id m) i = Some prior_tuple ->
      nth_error tuples i = Some (mean, empirical_width) ->
      exists width new_id lower upper,
        policy_width a r mean = Some width /\
        dict_get Prior.eqb arguments (pnv_prior prior_tuple)
        = Some (Prior.mk new_id
                  (Prior.GaussianPrior mean (Py.max empirical_width width) lower upper)) /\
        (a = Some 2%float -> empirical_width = 0%float ->
         Py.max empirical_width width = 2%float) /\
        (r = Some 1%float -> empirical_width = 0%float ->
         (0 <=? mean)%float = true ->
         feq (Py.max empirical_width width) mean = true).
Proof.
  intros Hone Hlen.
  assert (Hpol : forall mean, policy_width a r mean <> None).
  { intros mean. destruct Hone as [[-> Hr] | [Ha ->]].
    - destruct r; [ discriminate | contradiction ].
    - destruct a; [ discriminate | contradiction ]. }
  destruct (gaussian_arguments_one_policy prior_width prior_limit
              (prior_class_dict m) tuples a r (prior_tuples_ordered_by_id m)
              0%nat [] next_id Hpol)
    as (arguments & Hrun & Hkeys & _ & Hnth).
  { intros pt Hpt. now apply ordered_covered. }
  { unfold prior_count in Hlen. lia. }
  { apply ordered_ids. }
  destruct (mapper_from_prior_arguments_ok m arguments) as [m' Hm'].
  { intros z Hz. apply Hkeys. right. now apply (proj2 (ordered_ids m)). }
  exists arguments, m'. split; [ exact Hrun | ]. split; [ exact Hm' | ]. split.
  { unfold mapper_from_gaussian_tuples. rewrite Hrun. exact Hm'. }
  intros i pt mean ew Hi Ht.
  destruct (Hnth i pt mean ew Hi Ht) as (w & lo & hi & Hw & Hget).
  exists w, (next_id + Z.of_nat i), lo, hi.
  split; [ exact Hw | ]. split; [ exact Hget | ]. split.
  - intros -> ->. destruct r; cbn in Hw.
    + destruct Hone as [[? _] | [_ ?]]; discriminate.
    + injection Hw as <-. reflexivity.
  - intros -> -> Hpos. destruct a; cbn in Hw.
    + destruct Hone as [[? _] | [_ ?]]; discriminate.
    + injection Hw as <-. rewrite mul_comm, mul_one_l.
      unfold Py.max, gt, feq. destruct (0 <? mean)%float eqn:E.
      * eapply ltb_eqb_refl; eauto.
      * now apply leb_not_ltb_eqb.
Qed.

(** The amended C4 on the means [1, 3] refined with only [r = 1.0]. *)
Lemma C4_refined_sigma_witness :
  exists arguments m',
    gaussian_arguments Examples.no_width Examples.no_limit
      (prior_class_dict Examples.mapper_two) [(1%float, 0%float); (3%float, 0%float)]
      None (Some 1%float) 0%nat (prior_tuples_ordered_by_id Examples.mapper_two) [] 10
    = Ok arguments /\
    mapper_from_prior_arguments Examples.mapper_two arguments = Ok m' /\
    mapper_from_gaussian_tuples Examples.no_width Examples.no_limit
      Examples.mapper_two [(1%float, 0%float); (3%float, 0%float)]
      None (Some 1%float) 10 = Ok m' /\
    forall i prior_tuple mean empirical_width,
      nth_error (prior_tuples_ordered_by_id Examples.mapper_two) i = Some prior_tuple ->
      nth_error [(1%float, 0%float); (3%float, 0%float)] i
      = Some (mean, empirical_width) ->
      exists width new_id lower upper,
        policy_width None (Some 1%float) mean = Some width /\
        dict_get Prior.eqb arguments (pnv_prior prior_tuple)
        = Some (Prior.mk new_id
                  (Prior.GaussianPrior mean (Py.max empirical_width width) lower upper)) /\
        (None = Some 2%float -> empirical_width = 0%float ->
         Py.max empirical_width width = 2%float) /\
        (Some 1%float = Some 1%float -> empirical_width = 0%float ->
         (0 <=? mean)%float = true ->
         feq (Py.max empirical_width width) mean = true).
Proof.
  apply (C4_refined_sigma Examples.no_width Examples.no_limit Examples.mapper_two
           [(1%float, 0%float); (3%float, 0%float)] None (Some 1%float) 10).
  - left. split; [ reflexivity | discriminate ].
  - vm_compute. discriminate.
Defined.

(** C8, as stated, fails on a space without priors: the exclusion check
    sits inside the loop over the priors, so with both widths supplied the
    refinement of such a space returns a mapper. *)
Lemma C8_both_widths_accepted_without_priors :
  prior_count Examples.mapper_fixed = 0 /\
  mapper_from_gaussian_tuples Examples.no_width Examples.no_limit
    Examples.mapper_fixed [] (Some 2%float) (Some 1%float) 0
  = Ok Examples.mapper_fixed.
Proof. split; vm_compute; reflexivity. Qed.

(** C8, amended: with both [a] and [r] supplied, a space that has at least
    one prior, and at least one posterior tuple, the refinement raises
    [PriorException] and returns no mapper. *)
Theorem C8_both_widths_rejected
    (prior_width : string -> string -> string * float)
    (prior_limit : string -> string -> float * float)
    (m : ModelMapper.t) (tuples : list (float * float))
    (av rv : float) (next_id : Z) :
  0 < prior_count m ->
  tuples <> [] ->
  mapper_from_gaussian_tuples prior_width prior_limit m tuples (Some av) (Some rv) next_id
  = Raise (PriorException "Width of new priors cannot be both relative and absolute.").
Proof.
  intros Hcount Htuples. unfold mapper_from_gaussian_tuples.
  pose proof (ordered_covered m) as Hcov.
  unfold prior_count in Hcount.
  destruct (prior_tuples_ordered_by_id m) as [ | pt rest ]; [ cbn in Hcount; lia | ].
  destruct tuples as [ | tu tuples' ]; [ contradiction | ].
  cbn [gaussian_arguments].
  rewrite (gaussian_prior_for_both prior_width prior_limit (prior_class_dict m)
             (tu :: tuples') (Some av) (Some rv) 0%nat pt next_id av rv tu);
    auto.
  apply Hcov. now left.
Qed.

Lemma C8_both_widths_rejected_witness :
  mapper_from_gaussian_tuples Examples.no_width Examples.no_limit Examples.mapper_two
    [(0%float, 0%float); (1%float, 0%float)] (Some 2%float) (Some 1%float) 10
  = Raise (PriorException "Width of new priors cannot be both relative and absolute.").
Proof.
  apply (C8_both_widths_rejected Examples.no_width Examples.no_limit
           Examples.mapper_two
           [(0%float, 0%float); (1%float, 0%float)] 2%float 1%float 10).
  - reflexivity.
  - discriminate.
Defined.

(** C10: on a space without priors the refinement with both [a] and [r]
    supplied raises nothing: the loop body, and with it the exclusion check,
    is never run, the substitution stays empty, and a mapper is returned. *)
Theorem C10_no_prior_no_conflict
    (prior_width : string -> string -> string * float)
    (prior_limit : string -> string -> float * float)
    (m : ModelMapper.t) (tuples : list (float * float))
    (av rv : float) (next_id : Z) :
  prior_count m = 0 ->
  gaussian_arguments prior_width prior_limit (prior_class_dict m) tuples
    (Some av) (Some rv) 0%nat (prior_tuples_ordered_by_id m) [] next_id = Ok [] /\
  exists m',
    mapper_from_gaussian_tuples prior_width prior_limit m tuples (Some av) (Some rv) next_id
    = Ok m'.
Proof.
  intros Hcount. unfold mapper_from_gaussian_tuples.
  rewrite (ordered_nil_of_count m Hcount). cbn. split; [ reflexivity | ].
  apply mapper_from_prior_arguments_ok.
  unfold field_prior_ids. rewrite (prior_count_zero m Hcount). intros z [].
Qed.

Lemma C10_no_prior_no_conflict_witness :
  gaussian_arguments Examples.no_width Examples.no_limit
    (prior_class_dict Examples.mapper_fixed) [(1%float, 0%float)]
    (Some 2%float) (Some 1%float) 0%nat
    (prior_tuples_ordered_by_id Examples.mapper_fixed) [] 10 = Ok [] /\
  exists m',
    mapper_from_gaussian_tuples Examples.no_width Examples.no_limit
      Examples.mapper_fixed [(1%float, 0%float)] (Some 2%float) (Some 1%float) 10
    = Ok m'.
Proof.
  apply (C10_no_prior_no_conflict Examples.no_width Examples.no_limit
           Examples.mapper_fixed [(1%float, 0%float)]
           2%float 1%float 10).
  reflexivity.
Defined.

End RefinementProperties.

(* ===================================================================== *)
(** * Facts about the fitness adapters *)
(* ===================================================================== *)

Module DriverFacts.

Import ModelMapper NonLinear Observe PyFacts.

Lemma ltb_neg_inf (x : float) : (x <? neg_infinity)%float = false.
Proof.
  rewrite ltb_spec. change (Prim2SF neg_infinity) with (S754_infinity true).
  unfold SFltb. destruct (Prim2SF x) as [ [|] | [|] | | [|] mx ex ]; reflexivity.
Qed.

Lemma gt_neg_inf (x : float) : gt neg_inf x = false.
Proof. apply ltb_neg_inf. Qed.

Lemma IntervalCounter_call_tick (c : IntervalCounter) :
  interval c <> 0 -> IntervalCounter_call c = (Ok (fst (tick c)), snd (tick c)).
Proof.
  intros H. unfold IntervalCounter_call, tick.
  destruct (interval c =? -1); [ reflexivity | ]. cbn.
  apply Z.eqb_neq in H. now rewrite H.
Qed.

Lemma count_fits_app (t1 t2 : list Event) :
  count_fits (t1 ++ t2) = (count_fits t1 + count_fits t2)%nat.
Proof. unfold count_fits. now rewrite filter_app, length_app. Qed.

Lemma count_visualize_app (t1 t2 : list Event) :
  count_visualize (t1 ++ t2) = (count_visualize t1 + count_visualize t2)%nat.
Proof. unfold count_visualize. now rewrite filter_app, length_app. Qed.

Section Driver.
Variable analysis_fit : ModelInstance -> outcome float.
Variable instance_add : ModelInstance -> ModelInstance -> ModelInstance.

(** A likelihood that raises ends [fit_instance] right after the
    evaluation: only the trace has changed. *)
Lemma fit_instance_raise (instance : ModelInstance) (self : Fitness) (e : exn) :
  analysis_fit (instance_add instance (constant self)) = Raise e ->
  fit_instance analysis_fit instance_add instance self
  = (Raise e,
     mkFitness (result self) (constant self) (max_likelihood self)
               (should_log self) (should_visualise self) (should_backup self)
               (trace self ++ [EvFit (instance_add instance (constant self))])).
Proof.
  intros H. unfold fit_instance, mbind, get, emit, modify, lift. cbn.
  now rewrite H.
Qed.

(** Whatever happens, [fit_instance] evaluates the likelihood exactly once,
    on the instance extended with the constant, before anything else. *)
Lemma fit_instance_trace (instance : ModelInstance) (self : Fitness) :
  exists rest,
    trace (snd (fit_instance analysis_fit instance_add instance self))
    = trace self ++ EvFit (instance_add instance (constant self)) :: rest /\
    count_fits rest = 0%nat.
Proof.
  unfold fit_instance, mbind, get, emit, modify, lift, when, set_best, ret,
    call_should_visualise, call_should_backup, zoom, IntervalCounter_call, gt.
  cbn.
  destruct (analysis_fit _) as [l | e]; cbn.
  2:{ exists []. split; reflexivity. }
  destruct (max_likelihood self <? l)%float; cbn;
    repeat match goal with
           | |- context [ if ?b then _ else _ ] => destruct b; cbn
           end;
    rewrite <- ?app_assoc; cbn; eexists; split; reflexivity.
Qed.


(** A likelihood that returns ends [fit_instance] in [fit_instance_next]. *)
Lemma fit_instance_ok (instance : ModelInstance) (self : Fitness) (l : float) :
  analysis_fit (instance_add instance (constant self)) = Ok l ->
  interval (should_visualise self) <> 0 ->
  interval (should_backup self) <> 0 ->
  fit_instance analysis_fit instance_add instance self
  = (Ok l, fit_instance_next l (instance_add instance (constant self)) self).
Proof.
  intros H Hv Hb.
  pose proof (IntervalCounter_call_tick _ Hv) as Ev.
  pose proof (IntervalCounter_call_tick _ Hb) as Eb.
  unfold fit_instance, mbind, get, emit, modify, lift, when, set_best, ret,
    call_should_visualise, call_should_backup, zoom, fit_instance_next.
  cbn -[IntervalCounter_call tick gt]. rewrite H.
  destruct (tick (should_visualise self)) as [fv cv].
  destruct (tick (should_backup self)) as [fb cb].
  cbn [fst snd] in *.
  destruct (gt l (max_likelihood self)); cbn -[IntervalCounter_call tick gt];
    rewrite ?Ev; cbn -[IntervalCounter_call tick gt];
    destruct fv; cbn -[IntervalCounter_call tick gt];
    rewrite ?Eb; cbn -[IntervalCounter_call tick gt];
    destruct fb; cbn; rewrite <- ?app_assoc; reflexivity.
Qed.

(** ** The downhill-simplex adapter, call by call *)

Variable resolve : list float -> outcome ModelInstance.

Lemma DownhillSimplex_call_unresolved (vector : list float) (self : Fitness) (e : exn) :
  resolve vector = Raise e ->
  DownhillSimplex_call analysis_fit instance_add resolve vector self
  = if is_FitException e then (Ok (-2 * neg_inf)%float, self) else (Raise e, self).
Proof.
  intros H. unfold DownhillSimplex_call, DownhillSimplex_likelihood,
    try_except_FitException, mbind, lift, ret. rewrite H.
  destruct (is_FitException e); reflexivity.
Qed.

Lemma DownhillSimplex_likelihood_raise (vector : list float) (self : Fitness)
    (instance : ModelInstance) (e : exn) :
  resolve vector = Ok instance ->
  analysis_fit (instance_add instance (constant self)) = Raise e ->
  DownhillSimplex_likelihood analysis_fit instance_add resolve vector self
  = if is_FitException e
    then (Ok neg_inf, evaluated self (instance_add instance (constant self)))
    else (Raise e, evaluated self (instance_add instance (constant self))).
Proof.
  intros Hr H. unfold DownhillSimplex_likelihood,
    try_except_FitException, mbind, lift, ret. rewrite Hr.
  rewrite (fit_instance_raise _ _ _ H).
  destruct (is_FitException e); reflexivity.
Qed.

Lemma DownhillSimplex_call_raise (vector : list float) (self : Fitness)
    (instance : ModelInstance) (e : exn) :
  resolve vector = Ok instance ->
  analysis_fit (instance_add instance (constant self)) = Raise e ->
  DownhillSimplex_call analysis_fit instance_add resolve vector self
  = if is_FitException e
    then (Ok (-2 * neg_inf)%float, evaluated self (instance_add instance (constant self)))
    else (Raise e, evaluated self (instance_add instance (constant self))).
Proof.
  intros Hr H. unfold DownhillSimplex_call, mbind.
  rewrite (DownhillSimplex_likelihood_raise _ _ _ _ Hr H).
  destruct (is_FitException e); reflexivity.
Qed.

Lemma DownhillSimplex_call_ok (vector : list float) (self : Fitness)
    (instance : ModelInstance) (l : float) :
  resolve vector = Ok instance ->
  analysis_fit (instance_add instance (constant self)) = Ok l ->
  interval (should_visualise self) <> 0 ->
  interval (should_backup self) <> 0 ->
  DownhillSimplex_call analysis_fit instance_add resolve vector self
  = (Ok (-2 * l)%float,
     fit_instance_next l (instance_add instance (constant self)) self).
Proof.
  intros Hr H Hv Hb. unfold DownhillSimplex_call, DownhillSimplex_likelihood,
    try_except_FitException, mbind, lift, ret. rewrite Hr.
  now rewrite (fit_instance_ok _ _ _ H Hv Hb).
Qed.


Lemma tick_interval (c : IntervalCounter) : interval (snd (tick c)) = interval c.
Proof. unfold tick. destruct (interval c =? -1); reflexivity. Qed.

Lemma tick_counting (c : IntervalCounter) :
  interval c <> -1 ->
  tick c = ((count c + 1) mod interval c =? 0,
            mkIntervalCounter (count c + 1) (interval c)).
Proof.
  intros H. unfold tick. apply Z.eqb_neq in H. now rewrite H.
Qed.

Lemma fired_flag (tr : list Event) (instance : ModelInstance) (v b : bool) :
  (count_visualize tr
   <? count_visualize (tr ++ [EvFit instance]
                          ++ (if v then [EvVisualize instance true] else [])
                          ++ (if b then [EvBackup] else [])))%nat = v.
Proof.
  rewrite !count_visualize_app.
  destruct v, b; cbn; rewrite ?Nat.add_0_r.
  - apply Nat.ltb_lt. lia.
  - apply Nat.ltb_lt. lia.
  - apply Nat.ltb_irrefl.
  - apply Nat.ltb_irrefl.
Qed.

Lemma fired_flag_raise (tr : list Event) (instance : ModelInstance) :
  (count_visualize tr <? count_visualize (tr ++ [EvFit instance]))%nat = false.
Proof.
  rewrite count_visualize_app. cbn. rewrite Nat.add_0_r. apply Nat.ltb_irrefl.
Qed.

(** The calls that visualise are the improving calls whose number among
    the improving calls is a multiple of the interval. *)
Lemma simplex_run_flags (n : Z) :
  n <> 0 -> n <> -1 ->
  forall (vectors : list (list float)) (self : Fitness),
    interval (should_visualise self) = n ->
    interval (should_backup self) <> 0 ->
    simplex_run analysis_fit instance_add resolve vectors self
    = improving_interval_flags n (max_likelihood self) (count (should_visualise self))
        (map (call_score analysis_fit instance_add resolve (constant self)) vectors).
Proof.
  intros Hn0 Hn1. induction vectors as [ | vector rest IH ]; intros self Hi Hb.
  - reflexivity.
  - assert (Hv : interval (should_visualise self) <> 0) by congruence.
    assert (Hv1 : interval (should_visualise self) <> -1) by congruence.
    cbn [simplex_run map improving_interval_flags]. unfold call_score at 1.
    destruct (resolve vector) as [instance | e] eqn:Hr; cbn [bind].
    + destruct (analysis_fit (instance_add instance (constant self))) as [l | e] eqn:Ha.
      * rewrite (DownhillSimplex_call_ok _ _ _ _ Hr Ha Hv Hb).
        unfold fit_instance_next at 1. cbn [trace]. rewrite fired_flag.
        rewrite IH.
        -- unfold fit_instance_next.
           cbn [max_likelihood should_visualise constant].
           rewrite (tick_counting _ Hv1). cbn [fst snd].
           destruct (gt l (max_likelihood self)); cbn [andb count]; rewrite ?Hi;
             reflexivity.
        -- unfold fit_instance_next. cbn [should_visualise].
           destruct (gt l (max_likelihood self)); auto.
           now rewrite tick_interval.
        -- unfold fit_instance_next. cbn [should_backup].
           now rewrite tick_interval.
      * rewrite (DownhillSimplex_call_raise _ _ _ _ Hr Ha).
        destruct (is_FitException e).
        -- unfold evaluated at 1. cbn [trace]. rewrite fired_flag_raise.
           rewrite IH; auto.
        -- unfold evaluated. cbn [trace]. now rewrite fired_flag_raise.
    + rewrite (DownhillSimplex_call_unresolved _ _ _ Hr).
      destruct (is_FitException e).
      * rewrite Nat.ltb_irrefl. rewrite IH; auto.
      * now rewrite Nat.ltb_irrefl.
Qed.

(** ** The nested-sampling adapter *)

Variable conf : GeneralConfig.

Lemma MultiNest_call_raise (cube : list float) (self : MultiNestFitness)
    (instance : ModelInstance) (e : exn) :
  resolve cube = Ok instance ->
  analysis_fit (instance_add instance (constant (mn_base self))) = Raise e ->
  MultiNest_call conf analysis_fit instance_add resolve cube self
  = let after := mkMultiNestFitness
                   (evaluated (mn_base self)
                              (instance_add instance (constant (mn_base self))))
                   (accepted_samples self) in
    if is_FitException e then (Ok neg_inf, after) else (Raise e, after).
Proof.
  intros Hr H. unfold MultiNest_call, mn_zoom, zoom, try_except_FitException,
    mbind, lift, ret, get, when. rewrite Hr.
  rewrite (fit_instance_raise _ _ _ H).
  destruct (is_FitException e); cbn [mn_base accepted_samples]; [ | reflexivity ].
  now rewrite gt_neg_inf.
Qed.

(** ** The grid-search adapter *)

Variable nlo : GridSearch.

Lemma GridSearch_call_skip (point : cube) (self : GridFitness) :
  total_calls self + 1 <= checkpoint_count self ->
  GridSearch_call analysis_fit instance_add nlo resolve point self
  = (Ok neg_inf, with_total_calls self (total_calls self + 1)).
Proof.
  intros H. unfold GridSearch_call, try_except_FitException, mbind, modify, get, ret.
  cbn [total_calls checkpoint_count]. apply Z.leb_le in H. now rewrite H.
Qed.

Lemma GridSearch_call_raise (point : cube) (self : GridFitness)
    (instance : ModelInstance) (e : exn) :
  checkpoint_count self < total_calls self + 1 ->
  resolve point = Ok instance ->
  analysis_fit (instance_add instance (constant (base self))) = Raise e ->
  GridSearch_call analysis_fit instance_add nlo resolve point self
  = let after := mkGridFitness
                   (evaluated (base self)
                              (instance_add instance (constant (base self))))
                   (total_calls self + 1) (checkpoint_count self) (best_fit self)
                   (best_cube self) (all_fits self) (should_save_grid_results self) in
    if is_FitException e then (Ok neg_inf, after) else (Raise e, after).
Proof.
  intros Hc Hr H.
  unfold GridSearch_call, try_except_FitException, mbind, modify, get, ret,
    gs_zoom, zoom, lift.
  cbn [total_calls checkpoint_count base best_fit best_cube all_fits
       should_save_grid_results].
  apply Z.leb_gt in Hc. rewrite Hc, Hr.
  cbn [total_calls checkpoint_count base best_fit best_cube all_fits
       should_save_grid_results].
  rewrite (fit_instance_raise _ _ _ H).
  destruct (is_FitException e); reflexivity.
Qed.

Lemma with_total_calls_same (self : GridFitness) :
  with_total_calls self (total_calls self) = self.
Proof. now destruct self. Qed.

Lemma run_grid_skip (points : list cube) :
  forall self : GridFitness,
    total_calls self + Z.of_nat (List.length points) <= checkpoint_count self ->
    run_grid (GridSearch_call analysis_fit instance_add nlo resolve) points self
    = (Ok tt, with_total_calls self (total_calls self + Z.of_nat (List.length points))).
Proof.
  induction points as [ | point rest IH ]; intros self H.
  - cbn. now rewrite Z.add_0_r, with_total_calls_same.
  - cbn [run_grid]. unfold mbind. cbn [List.length] in H.
    rewrite GridSearch_call_skip by lia.
    rewrite IH by (cbn; lia).
    cbn [List.length with_total_calls total_calls base checkpoint_count best_fit
         best_cube all_fits should_save_grid_results].
    unfold with_total_calls. do 2 f_equal. lia.
Qed.

Lemma run_grid_app (f : cube -> M GridFitness float) (xs ys : list cube)
    (self : GridFitness) :
  run_grid f (xs ++ ys) self
  = match run_grid f xs self with
    | (Ok _, self') => run_grid f ys self'
    | (Raise e, self') => (Raise e, self')
    end.
Proof.
  revert self. induction xs as [ | x xs IH ]; intros self; cbn.
  - reflexivity.
  - unfold mbind. destruct (f x self) as [[v | e] self']; auto.
Qed.

End Driver.

End DriverFacts.

(* ===================================================================== *)
(** * Properties of the search driver *)
(* ===================================================================== *)

Section DriverProperties.

Import ModelMapper NonLinear Observe PyFacts DriverFacts.

(** C2, as stated, fails: the visualise counter is only consulted on calls
    whose score improves on the best so far.  With interval 10 and twelve
    calls of which the second does not improve, the tenth call does not
    visualise and the eleventh does. *)
Lemma C2_tenth_call_silent_eleventh_visualises :
  visualise_interval Examples.conf10 = 10 /\
  simplex_run Examples.first_value_fit Examples.keep_instance Examples.resolve_first
    Examples.twelve_vectors (Fitness_init Examples.conf10 [] [])
  = [false; false; false; false; false; false; false; false; false; false;
     true; false].
Proof. split; vm_compute; reflexivity. Qed.

(** C2, amended: with visualize-interval 10 (and a backup interval that is
    not zero), a call visualises exactly when its score strictly improves on
    the best score seen so far and it is the 10th, 20th, 30th, ... call to do
    so; a call that does not improve never visualises.  The first part
    states the rule for one evaluation, which all adapters share; the second
    follows a whole run of the downhill-simplex adapter. *)
Theorem C2_visualise_gated_by_improvements
    (conf : GeneralConfig)
    (analysis_fit : ModelInstance -> outcome float)
    (instance_add : ModelInstance -> ModelInstance -> ModelInstance)
    (resolve : list float -> outcome ModelInstance)
    (constant : ModelInstance) (tr : list Event) :
  visualise_interval conf = 10 ->
  backup_interval conf <> 0 ->
  (forall (self : Fitness) (instance : ModelInstance) (likelihood : float),
      interval (should_visualise self) = 10 ->
      interval (should_backup self) <> 0 ->
      analysis_fit (instance_add instance (NonLinear.constant self)) = Ok likelihood ->
      let after := snd (fit_instance analysis_fit instance_add instance self) in
      count_visualize (trace after)
      = (if gt likelihood (max_likelihood self)
            && ((count (should_visualise self) + 1) mod 10 =? 0)
         then S (count_visualize (trace self))
         else count_visualize (trace self)) /\
      count (should_visualise after)
      = count (should_visualise self)
        + (if gt likelihood (max_likelihood self) then 1 else 0)) /\
  forall vectors : list (list float),
    simplex_run analysis_fit instance_add resolve vectors
                (Fitness_init conf constant tr)
    = improving_interval_flags 10 neg_inf 0
        (map (call_score analysis_fit instance_add resolve constant) vectors).
Proof.
  intros Hv Hb. split.
  - intros self instance l Hi Hbi Ha. cbn zeta.
    rewrite (fit_instance_ok analysis_fit instance_add instance self l Ha)
      by (auto; rewrite Hi; discriminate).
    cbn [snd]. unfold fit_instance_next. cbn [trace should_visualise].
    rewrite tick_counting by (rewrite Hi; discriminate). cbn [fst snd].
    rewrite Hi, !count_visualize_app.
    destruct (gt l (max_likelihood self)); cbn [andb count].
    + destruct ((count (should_visualise self) + 1) mod 10 =? 0),
               (fst (tick (should_backup self))); cbn; split; lia.
    + destruct (fst (tick (should_backup self))); cbn; split; lia.
  - intros vectors.
    apply (simplex_run_flags analysis_fit instance_add resolve 10);
      try discriminate; cbn; auto.
Qed.

(** The amended C2 on the twelve calls above. *)
Lemma C2_visualise_gated_by_improvements_witness :
  simplex_run Examples.first_value_fit Examples.keep_instance Examples.resolve_first
              Examples.twelve_vectors (Fitness_init Examples.conf10 [] [])
  = improving_interval_flags 10 neg_inf 0
      (map (call_score Examples.first_value_fit Examples.keep_instance
                       Examples.resolve_first []) Examples.twelve_vectors).
Proof.
  apply (C2_visualise_gated_by_improvements Examples.conf10 Examples.first_value_fit
           Examples.keep_instance Examples.resolve_first [] []).
  - reflexivity.
  - discriminate.
Defined.

(** C5: when the likelihood raises on the resolved instance, each of the
    three adapters returns normally if the exception is the fit exception,
    and lets it through otherwise.  The likelihood of the call is then
    negative infinity; the nested-sampling and grid-search adapters return
    it, the downhill-simplex adapter returns [-2 * likelihood], which is
    positive infinity, the worst value for a minimiser.  Nothing but the
    trace (and the call count of the grid-search adapter) changes. *)
Theorem C5_fit_exception_scored_worst
    (conf : GeneralConfig)
    (analysis_fit : ModelInstance -> outcome float)
    (instance_add : ModelInstance -> ModelInstance -> ModelInstance)
    (resolve : list float -> outcome ModelInstance)
    (nlo : GridSearch)
    (vector : list float) (instance : ModelInstance) (e : exn)
    (simplex : Fitness) (multinest : MultiNestFitness) (grid : GridFitness) :
  resolve vector = Ok instance ->
  analysis_fit (instance_add instance (constant simplex)) = Raise e ->
  analysis_fit (instance_add instance (constant (mn_base multinest))) = Raise e ->
  analysis_fit (instance_add instance (constant (base grid))) = Raise e ->
  checkpoint_count grid < total_calls grid + 1 ->
  let simplex' := evaluated simplex (instance_add instance (constant simplex)) in
  let multinest' :=
    mkMultiNestFitness
      (evaluated (mn_base multinest)
                 (instance_add instance (constant (mn_base multinest))))
      (accepted_samples multinest) in
  let grid' :=
    mkGridFitness
      (evaluated (base grid) (instance_add instance (constant (base grid))))
      (total_calls grid + 1) (checkpoint_count grid) (best_fit grid)
      (best_cube grid) (all_fits grid) (should_save_grid_results grid) in
  if is_FitException e
  then
    DownhillSimplex_likelihood analysis_fit instance_add resolve vector simplex
    = (Ok neg_inf, simplex') /\
    DownhillSimplex_call analysis_fit instance_add resolve vector simplex
    = (Ok infinity, simplex') /\
    MultiNest_call conf analysis_fit instance_add resolve vector multinest
    = (Ok neg_inf, multinest') /\
    GridSearch_call analysis_fit instance_add nlo resolve vector grid
    = (Ok neg_inf, grid')
  else
    DownhillSimplex_call analysis_fit instance_add resolve vector simplex
    = (Raise e, simplex') /\
    MultiNest_call conf analysis_fit instance_add resolve vector multinest
    = (Raise e, multinest') /\
    GridSearch_call analysis_fit instance_add nlo resolve vector grid
    = (Raise e, grid').
Proof.
  intros Hr Hs Hm Hg Hc. cbn zeta.
  pose proof (DownhillSimplex_likelihood_raise analysis_fit instance_add resolve
                vector simplex instance e Hr Hs) as L.
  pose proof (DownhillSimplex_call_raise analysis_fit instance_add resolve
                vector simplex instance e Hr Hs) as S.
  pose proof (MultiNest_call_raise analysis_fit instance_add resolve conf
                vector multinest instance e Hr Hm) as N.
  pose proof (GridSearch_call_raise analysis_fit instance_add resolve nlo
                vector grid instance e Hc Hr Hg) as G.
  cbn zeta in N, G.
  destruct (is_FitException e); repeat split; assumption.
Qed.

Lemma C5_fit_exception_scored_worst_witness :
  DownhillSimplex_likelihood Examples.first_value_fit Examples.keep_instance
    (fun _ => Ok []) [0.5%float] (Fitness_init Examples.conf10 [] [])
  = (Ok neg_inf, evaluated (Fitness_init Examples.conf10 [] []) []) /\
  DownhillSimplex_call Examples.first_value_fit Examples.keep_instance
    (fun _ => Ok []) [0.5%float] (Fitness_init Examples.conf10 [] [])
  = (Ok infinity, evaluated (Fitness_init Examples.conf10 [] []) []) /\
  MultiNest_call Examples.conf10 Examples.first_value_fit Examples.keep_instance
    (fun _ => Ok []) [0.5%float] (MultiNest_Fitness_init Examples.conf10 [] [])
  = (Ok neg_inf,
     mkMultiNestFitness (evaluated (Fitness_init Examples.conf10 [] []) []) 0) /\
  GridSearch_call Examples.first_value_fit Examples.keep_instance Examples.grid_resume
    (fun _ => Ok []) [0.5%float]
    (mkGridFitness (Fitness_init Examples.conf10 [] []) 0 0 neg_inf None []
                   (IntervalCounter_init (-1)))
  = (Ok neg_inf,
     mkGridFitness (evaluated (Fitness_init Examples.conf10 [] []) []) (0 + 1) 0
                   neg_inf None [] (IntervalCounter_init (-1))).
Proof.
  apply (C5_fit_exception_scored_worst Examples.conf10 Examples.first_value_fit
           Examples.keep_instance (fun _ => Ok []) Examples.grid_resume
           [0.5%float] [] FitException
           (Fitness_init Examples.conf10 [] [])
           (MultiNest_Fitness_init Examples.conf10 [] [])
           (mkGridFitness (Fitness_init Examples.conf10 [] []) 0 0 neg_inf None []
                          (IntervalCounter_init (-1))));
    reflexivity.
Defined.

(** C9: a grid-search adapter constructed with a best vector that
    resolves evaluates the likelihood exactly once during construction, on
    the instance resolved from that vector, as the first thing it does; the
    adapter it leaves behind has made no call yet ([total_calls] is zero) and
    keeps the checkpointed values. *)
Theorem C9_constructor_evaluates_best_cube
    (conf : GeneralConfig)
    (analysis_fit : ModelInstance -> outcome float)
    (instance_add : ModelInstance -> ModelInstance -> ModelInstance)
    (resolve : cube -> outcome ModelInstance)
    (constant : ModelInstance) (tr : list Event)
    (checkpoint_count : Z) (best_fit : float) (c : cube) (instance : ModelInstance) :
  resolve c = Ok instance ->
  let self := snd (GridSearch_Fitness_init conf analysis_fit instance_add resolve
                     constant tr checkpoint_count best_fit (Some c)) in
  (exists rest,
      trace (base self) = tr ++ EvFit (instance_add instance constant) :: rest /\
      count_fits rest = 0%nat) /\
  count_fits (trace (base self)) = S (count_fits tr) /\
  total_calls self = 0 /\
  NonLinear.checkpoint_count self = checkpoint_count /\
  NonLinear.best_fit self = best_fit /\
  best_cube self = Some c.
Proof.
  intros Hr. cbn zeta.
  unfold GridSearch_Fitness_init, mbind, lift, gs_zoom, zoom, ret. rewrite Hr.
  cbn [base total_calls NonLinear.checkpoint_count NonLinear.best_fit best_cube
       all_fits should_save_grid_results].
  destruct (fit_instance_trace analysis_fit instance_add instance
              (Fitness_init conf constant tr)) as (rest & Ht & Hc).
  destruct (fit_instance analysis_fit instance_add instance
              (Fitness_init conf constant tr)) as [[l | e] after];
    cbn [snd base total_calls NonLinear.checkpoint_count NonLinear.best_fit
         best_cube] in *;
    (split; [ exists rest; split; [ exact Ht | exact Hc ] | ]);
    (split; [ rewrite Ht, count_fits_app; cbn; unfold count_fits in *; cbn;
              rewrite Hc; lia | ]);
    repeat split; reflexivity.
Qed.

Lemma C9_constructor_evaluates_best_cube_witness :
  count_fits
    (trace (base (snd (GridSearch_Fitness_init Examples.conf10 Examples.first_value_fit
                         Examples.keep_instance Examples.resolve_first [] []
                         5 (-3.5)%float (Some [0.5; 0.25]%float)))))
  = 1%nat /\
  total_calls (snd (GridSearch_Fitness_init Examples.conf10 Examples.first_value_fit
                      Examples.keep_instance Examples.resolve_first [] []
                      5 (-3.5)%float (Some [0.5; 0.25]%float))) = 0.
Proof.
  pose proof (C9_constructor_evaluates_best_cube Examples.conf10
                Examples.first_value_fit Examples.keep_instance Examples.resolve_first
                [] [] 5 (-3.5)%float [0.5; 0.25]%float (Examples.instance_of 0.5)
                eq_refl) as H.
  cbn zeta in H. destruct H as (_ & Hfits & Hcalls & _). split.
  - exact Hfits.
  - exact Hcalls.
Defined.

(** C1: with a checkpoint record on disk, [fit] raises
    [CheckpointException] right after [save_model_info], before any call of
    the fitness adapter, when the record's parameter count differs from the
    current one.  When parameter count and step size match, [fit] continues
    with the record's calls-completed, best score and best vector as seed:
    the adapter it constructs holds them as [checkpoint_count], [best_fit]
    and [best_cube] and has made no call; each of the first calls-completed
    calls of the enumeration returns negative infinity and changes nothing
    but the call count, so no likelihood is evaluated for them, and the rest
    of the enumeration runs from the adapter so advanced. *)
Theorem C1_checkpoint_resume
    (conf : GeneralConfig)
    (analysis_fit : ModelInstance -> outcome float)
    (instance_add : ModelInstance -> ModelInstance -> ModelInstance)
    (value_for : Prior.t -> float -> float)
    (prior_width : string -> string -> string * float)
    (prior_limit : string -> string -> float * float)
    (grid_points : Z -> float -> list cube)
    (self : GridSearch) (cp : Checkpoint) (next_id : Z) :
  checkpoint_file self = Some cp ->
  let resolve := instance_from_unit_vector value_for (variable self) in
  let call := GridSearch_call analysis_fit instance_add self resolve in
  (cp_prior_count cp <> prior_count (variable self) ->
   GridSearch_fit conf analysis_fit instance_add value_for prior_width prior_limit
     grid_points self next_id
   = (Raise (CheckpointException
               "The number of dimensions does not match that found in the checkpoint"),
      [EvSaveModelInfo])) /\
  (cp_prior_count cp = prior_count (variable self) ->
   feq (cp_step_size cp) (step_size self) = true ->
   let fitness_function :=
     snd (GridSearch_Fitness_init conf analysis_fit instance_add resolve
            (gs_constant self) [EvSaveModelInfo]
            (cp_total_calls cp) (cp_best_fit cp) (cp_best_cube cp)) in
   GridSearch_fit conf analysis_fit instance_add value_for prior_width prior_limit
     grid_points self next_id
   = GridSearch_fit_seeded conf analysis_fit instance_add value_for prior_width
       prior_limit grid_points self next_id
       (cp_total_calls cp, cp_best_fit cp, cp_best_cube cp) /\
   best_fit fitness_function = cp_best_fit cp /\
   best_cube fitness_function = cp_best_cube cp /\
   checkpoint_count fitness_function = cp_total_calls cp /\
   total_calls fitness_function = 0 /\
   (forall (k : nat) (point : cube),
       Z.of_nat k < cp_total_calls cp ->
       call point (with_total_calls fitness_function (Z.of_nat k))
       = (Ok neg_inf, with_total_calls fitness_function (Z.of_nat k + 1))) /\
   (forall skipped rest : list cube,
       Z.of_nat (List.length skipped) <= cp_total_calls cp ->
       run_grid call (skipped ++ rest) fitness_function
       = run_grid call rest
           (with_total_calls fitness_function (Z.of_nat (List.length skipped))))).
Proof.
  intros Hfile. cbn zeta. split.
  - intros Hcount. unfold GridSearch_fit, checkpoint_seed. rewrite Hfile.
    apply Z.eqb_neq in Hcount. now rewrite Hcount.
  - intros Hcount Hstep.
    assert (Hfields :
      let f := snd (GridSearch_Fitness_init conf analysis_fit instance_add
                      (instance_from_unit_vector value_for (variable self))
                      (gs_constant self) [EvSaveModelInfo]
                      (cp_total_calls cp) (cp_best_fit cp) (cp_best_cube cp)) in
      best_fit f = cp_best_fit cp /\ best_cube f = cp_best_cube cp /\
      checkpoint_count f = cp_total_calls cp /\ total_calls f = 0).
    { unfold GridSearch_Fitness_init, mbind, lift, gs_zoom, zoom, ret.
      destruct (cp_best_cube cp) as [c | ]; [ | cbn; auto ].
      destruct (instance_from_unit_vector value_for (variable self) c)
        as [instance | e]; [ | cbn; auto ].
      cbn [base].
      destruct (fit_instance analysis_fit instance_add instance _)
        as [[l | e] after]; cbn; auto. }
    cbn zeta in Hfields. destruct Hfields as (Hbf & Hbc & Hcc & Htc).
    split; [ | split; [ exact Hbf | split; [ exact Hbc | split;
             [ exact Hcc | split; [ exact Htc | split ] ] ] ] ].
    + unfold GridSearch_fit, checkpoint_seed. rewrite Hfile.
      apply Z.eqb_eq in Hcount. rewrite Hcount. cbn [negb]. now rewrite Hstep.
    + intros k point Hk.
      rewrite GridSearch_call_skip; cbn [with_total_calls total_calls checkpoint_count].
      * reflexivity.
      * rewrite Hcc. lia.
    + intros skipped rest Hlen.
      rewrite run_grid_app, run_grid_skip.
      * now rewrite Htc.
      * rewrite Htc, Hcc. lia.
Qed.

(** The matching case of C1 on [grid_resume], whose checkpoint records
    five completed calls, best score -3.5 and best vector [0.5, 0.25]. *)
Lemma C1_checkpoint_resume_witness :
  let resolve := instance_from_unit_vector Examples.uniform_value_for
                   Examples.mapper_two in
  let fitness_function :=
    snd (GridSearch_Fitness_init Examples.conf10 Examples.first_value_fit
           Examples.keep_instance resolve [] [EvSaveModelInfo]
           5 (-3.5)%float (Some [0.5; 0.25]%float)) in
  GridSearch_fit Examples.conf10 Examples.first_value_fit Examples.keep_instance
    Examples.uniform_value_for Examples.no_width Examples.no_limit
    Examples.seven_points Examples.grid_resume 100
  = GridSearch_fit_seeded Examples.conf10 Examples.first_value_fit
      Examples.keep_instance Examples.uniform_value_for Examples.no_width
      Examples.no_limit Examples.seven_points Examples.grid_resume 100
      (5, (-3.5)%float, Some [0.5; 0.25]%float) /\
  best_fit fitness_function = (-3.5)%float /\
  best_cube fitness_function = Some [0.5; 0.25]%float /\
  checkpoint_count fitness_function = 5 /\
  total_calls fitness_function = 0.
Proof.
  cbn zeta.
  destruct (C1_checkpoint_resume Examples.conf10 Examples.first_value_fit
              Examples.keep_instance Examples.uniform_value_for Examples.no_width
              Examples.no_limit Examples.seven_points Examples.grid_resume
              Examples.checkpoint_five 100 eq_refl) as [_ H].
  destruct (H eq_refl eq_refl) as (H1 & H2 & H3 & H4 & H5 & _).
  repeat split; assumption.
Defined.

End DriverProperties.

(* ===================================================================== *)
(** * Further facts: ordering and dictionaries *)
(* ===================================================================== *)

Module OrderFacts.

Import Observe PyFacts.

Lemma insert_by_In {A} (key : A -> Z) (x y : A) (l : list A) :
  In y (insert_by key x l) <-> y = x \/ In y l.
Proof.
  split; intros H.
  - apply (Permutation_in _ (insert_by_perm key x l)) in H.
    destruct H as [ <- | H ]; auto.
  - apply (Permutation_in _ (Permutation_sym (insert_by_perm key x l))).
    destruct H as [ -> | H ]; [ now left | now right ].
Qed.

Lemma insert_by_sorted {A} (key : A -> Z) (x : A) (l : list A) :
  StronglySorted (fun a b => key a <= key b) l ->
  StronglySorted (fun a b => key a <= key b) (insert_by key x l).
Proof.
  induction 1 as [ | y l Hl IH Hy ]; cbn.
  - constructor; constructor.
  - destruct (key x <=? key y) eqn:E.
    + apply Z.leb_le in E. constructor.
      * now constructor.
      * constructor; auto. eapply Forall_impl; [ | exact Hy ].
        cbn. intros a Ha. lia.
    + apply Z.leb_gt in E. constructor; auto.
      apply Forall_forall. intros z Hz. apply insert_by_In in Hz.
      destruct Hz as [ -> | Hz ]; [ lia | ].
      rewrite Forall_forall in Hy. now apply Hy.
Qed.

(** [sorted] returns its argument in ascending order of the key. *)
Lemma sorted_ascending {A} (key : A -> Z) (l : list A) :
  StronglySorted (fun a b => key a <= key b) (sorted key l).
Proof.
  induction l as [ | x l IH ]; cbn.
  - constructor.
  - now apply insert_by_sorted.
Qed.

Lemma ascending_strict {A} (key : A -> Z) (l : list A) :
  StronglySorted (fun a b => key a <= key b) l -> NoDup (map key l) ->
  StronglySorted (fun a b => key a < key b) l.
Proof.
  induction 1 as [ | x l Hl IH Hx ]; cbn; intros Hnd.
  - constructor.
  - inversion Hnd as [ | k ks Hnotin Hnd' ]; subst. constructor; auto.
    apply Forall_forall. intros y Hy. rewrite Forall_forall in Hx.
    specialize (Hx y Hy).
    assert (key x <> key y).
    { intros E. apply Hnotin. rewrite E. now apply in_map. }
    lia.
Qed.

Lemma strict_map {A} (key : A -> Z) (l : list A) :
  StronglySorted (fun a b => key a < key b) l -> StronglySorted Z.lt (map key l).
Proof.
  induction 1 as [ | x l Hl IH Hx ]; cbn; constructor; auto.
  apply Forall_forall. intros z Hz. apply in_map_iff in Hz.
  destruct Hz as (y & <- & Hy). rewrite Forall_forall in Hx. now apply Hx.
Qed.

(** A strictly ascending list is determined by its elements. *)
Lemma strict_unique (l1 : list Z) :
  forall l2 : list Z,
    StronglySorted Z.lt l1 -> StronglySorted Z.lt l2 ->
    (forall z, In z l1 <-> In z l2) -> l1 = l2.
Proof.
  induction l1 as [ | x l1 IH ]; intros l2 H1 H2 Hin.
  - destruct l2 as [ | y l2 ]; auto.
    exfalso. apply (proj2 (Hin y)). now left.
  - destruct l2 as [ | y l2 ].
    { exfalso. apply (proj1 (Hin x)). now left. }
    inversion H1 as [ | ? ? S1 F1 ]; subst.
    inversion H2 as [ | ? ? S2 F2 ]; subst.
    rewrite Forall_forall in F1, F2.
    assert (x = y).
    { destruct (proj1 (Hin x) (or_introl eq_refl)) as [ E | Hx ]; auto.
      destruct (proj2 (Hin y) (or_introl eq_refl)) as [ E | Hy ]; auto.
      specialize (F1 y Hy). specialize (F2 x Hx). lia. }
    subst y. f_equal. apply IH; auto.
    intros z. split; intros Hz.
    + destruct (proj1 (Hin z) (or_intror Hz)) as [ E | Hz' ]; auto.
      subst z. specialize (F1 x Hz). lia.
    + destruct (proj2 (Hin z) (or_intror Hz)) as [ E | Hz' ]; auto.
      subst z. specialize (F2 x Hz). lia.
Qed.

Lemma strict_nth (l : list Z) :
  StronglySorted Z.lt l ->
  forall i j x y, (i < j)%nat -> nth_error l i = Some x -> nth_error l j = Some y ->
                  x < y.
Proof.
  induction 1 as [ | a l Hl IH Ha ]; intros i j x y Hij Hi Hj.
  - destruct i; discriminate.
  - destruct j as [ | j ]; [ lia | ]. cbn in Hj.
    destruct i as [ | i ]; cbn in Hi.
    + injection Hi as <-. rewrite Forall_forall in Ha. apply Ha.
      eapply nth_error_In; eauto.
    + apply (IH i j x y); auto. lia.
Qed.

Section DictMore.
Context {K V : Type}.
Variable keq : K -> K -> bool.
Variable proj : K -> Z.
Hypothesis keq_proj : forall a b, keq a b = (proj a =? proj b).

(** A lookup only sees the id of the key. *)
Lemma dict_get_proj (d : dict K V) (k k' : K) :
  proj k = proj k' -> dict_get keq d k = dict_get keq d k'.
Proof.
  intros E. induction d as [ | [k1 v1] d IH ]; cbn; auto.
  rewrite !keq_proj, E, IH. reflexivity.
Qed.

Lemma dict_get_None_iff (d : dict K V) (k : K) :
  dict_get keq d k = None <-> ~ In (proj k) (key_ids proj d).
Proof.
  rewrite <- (dict_get_Some_iff keq proj keq_proj).
  destruct (dict_get keq d k) as [x | ]; split; intros H.
  - discriminate.
  - exfalso. apply H. eauto.
  - intros [y Hy]. discriminate.
  - reflexivity.
Qed.

Lemma dict_update_snoc (d : dict K V) (pairs : list (K * V)) (k : K) (v : V) :
  dict_update keq d (pairs ++ [(k, v)]) = dict_set keq (dict_update keq d pairs) k v.
Proof. unfold dict_update. now rewrite fold_left_app. Qed.

Lemma dict_set_entries (d : dict K V) (k : K) (v : V) (k0 : K) (v0 : V) :
  NoDup (key_ids proj d) ->
  In (k0, v0) (dict_set keq d k v) ->
  (v0 = v /\ proj k0 = proj k) \/ (In (k0, v0) d /\ proj k0 <> proj k).
Proof.
  unfold key_ids, dict_keys.
  induction d as [ | [k1 v1] d IH ]; cbn; intros Hnd H.
  - destruct H as [ H | [] ]. injection H as <- <-. now left.
  - inversion Hnd as [ | ? ? Hnotin Hnd' ]; subst. rewrite keq_proj in H.
    destruct (proj k =? proj k1) eqn:E.
    + apply Z.eqb_eq in E. destruct H as [ H | H ].
      * injection H as <- <-. left. auto.
      * right. split; auto. intros E'. apply Hnotin.
        rewrite <- E, <- E'. apply in_map. apply in_map_iff. exists (k0, v0). auto.
    + apply Z.eqb_neq in E. destruct H as [ H | H ].
      * injection H as <- <-. right. split; auto.
      * destruct (IH Hnd' H) as [ ? | [? ?] ]; auto.
Qed.

(** In a dictionary built from pairs, every entry carries the value of the
    last pair with its key. *)
Lemma dict_of_list_last (pairs : list (K * V)) :
  forall k0 v0,
    In (k0, v0) (dict_of_list keq pairs) ->
    exists l1 l2 k',
      pairs = l1 ++ (k', v0) :: l2 /\ proj k' = proj k0 /\
      ~ In (proj k0) (map proj (map fst l2)).
Proof.
  unfold dict_of_list.
  induction pairs as [ | [k v] pairs IH ] using rev_ind; intros k0 v0 H.
  - destruct H.
  - rewrite dict_update_snoc in H.
    apply dict_set_entries in H.
    2:{ apply (key_ids_update_NoDup keq proj keq_proj). constructor. }
    destruct H as [ [-> E] | [H Hne] ].
    + exists pairs, [], k. repeat split; auto.
    + destruct (IH k0 v0 H) as (l1 & l2 & k' & -> & E & Hl2).
      exists l1, (l2 ++ [(k, v)]), k'. rewrite <- app_assoc. repeat split; auto.
      rewrite !map_app, in_app_iff. cbn. intros [ X | [ X | [] ] ]; auto.
Qed.

(** The merge [{**d, **pairs}]: the entries of [pairs] win. *)
Lemma dict_get_update (pairs : dict K V) :
  NoDup (key_ids proj pairs) ->
  forall (d : dict K V) (k : K),
    dict_get keq (dict_update keq d pairs) k =
    match dict_get keq pairs k with
    | Some v => Some v
    | None => dict_get keq d k
    end.
Proof.
  unfold key_ids, dict_keys.
  induction pairs as [ | [k1 v1] pairs IH ]; intros Hnd d k.
  - reflexivity.
  - inversion Hnd as [ | ? ? Hnotin Hnd' ]; subst.
    change (dict_update keq d ((k1, v1) :: pairs))
      with (dict_update keq (dict_set keq d k1 v1) pairs).
    rewrite (IH Hnd'). cbn [dict_get]. rewrite (dict_get_set keq proj keq_proj).
    destruct (keq k k1) eqn:E.
    + rewrite keq_proj in E. apply Z.eqb_eq in E.
      assert (X : dict_get keq pairs k = None).
      { apply dict_get_None_iff. unfold key_ids, dict_keys. now rewrite E. }
      now rewrite X.
    + reflexivity.
Qed.

Lemma dict_values_update (pairs : list (K * V)) :
  forall (d : dict K V) (v : V),
    In v (dict_values (dict_update keq d pairs)) ->
    In v (dict_values d) \/ In v (map snd pairs).
Proof.
  induction pairs as [ | [k1 v1] pairs IH ]; intros d v H.
  - now left.
  - change (dict_update keq d ((k1, v1) :: pairs))
      with (dict_update keq (dict_set keq d k1 v1) pairs) in H.
    apply IH in H. destruct H as [ H | H ]; [ | right; now right ].
    unfold dict_values in *. apply in_map_iff in H.
    destruct H as ([k0 v0] & <- & H). cbn.
    clear IH. induction d as [ | [k2 v2] d IHd ]; cbn in H.
    + destruct H as [ H | [] ]. injection H as <- <-. right. now left.
    + destruct (keq k1 k2).
      * destruct H as [ H | H ].
        -- injection H as <- <-. right. now left.
        -- left. right. apply in_map_iff. exists (k0, v0). auto.
      * destruct H as [ H | H ].
        -- injection H as <- <-. left. now left.
        -- destruct (IHd H) as [ X | X ]; auto. left. now right.
Qed.
End DictMore.

End OrderFacts.

(* ===================================================================== *)
(** * Further facts about the mapper *)
(* ===================================================================== *)

Module MapperMore.

Import PriorModel ModelMapper Observe PyFacts MapperFacts OrderFacts.

Lemma ordered_strict (m : ModelMapper.t) :
  StronglySorted (fun p q => pid p < pid q) (prior_tuples_ordered_by_id m).
Proof.
  apply ascending_strict.
  - apply sorted_ascending.
  - apply ordered_ids.
Qed.

Lemma prior_tuples_are_fields (m : ModelMapper.t) (pt : PriorNameValue) :
  In pt (prior_tuples m) -> In pt (all_prior_tuples m).
Proof.
  unfold prior_tuples, dict_of_list. intros H.
  apply (dict_values_update Prior.eqb) in H. destruct H as [ [] | H ].
  rewrite map_map in H. cbn in H. now rewrite map_id in H.
Qed.

Lemma ordered_are_fields (m : ModelMapper.t) (pt : PriorNameValue) :
  In pt (prior_tuples_ordered_by_id m) -> In pt (all_prior_tuples m).
Proof.
  intros H. apply prior_tuples_are_fields.
  eapply Permutation_in; [ apply sorted_perm | exact H ].
Qed.

(** ** Failing resolutions *)

Lemma resolve_fields_raise (arguments : dict Prior.t float) (fs : list Field) (e : exn) :
  resolve_fields arguments fs = Raise e -> e = ResolutionError.
Proof.
  induction fs as [ | f fs IH ]; cbn.
  - discriminate.
  - destruct (field_value f) as [p | c]; cbn.
    + destruct (dict_get Prior.eqb arguments p); cbn.
      * destruct (resolve_fields arguments fs); cbn; [ discriminate | ].
        intros H. injection H as <-. now apply IH.
      * intros H. now injection H as <-.
    + destruct (resolve_fields arguments fs); cbn; [ discriminate | ].
      intros H. injection H as <-. now apply IH.
Qed.

Lemma resolve_fields_covered (arguments : dict Prior.t float) (fs : list Field)
    (o : PriorModel.Instance) :
  resolve_fields arguments fs = Ok o ->
  forall f p, In f fs -> field_value f = FPrior p ->
              In (Prior.id p) (key_ids Prior.id arguments).
Proof.
  revert o. induction fs as [ | f fs IH ]; cbn; intros o H g p Hg Hv.
  - destruct Hg.
  - destruct (field_value f) as [q | c] eqn:Ev; cbn in H.
    + destruct (dict_get Prior.eqb arguments q) as [x | ] eqn:Eq; cbn in H;
        [ | discriminate ].
      destruct (resolve_fields arguments fs) as [o' | e] eqn:Er; cbn in H;
        [ | discriminate ].
      destruct Hg as [ <- | Hg ].
      * rewrite Ev in Hv. injection Hv as <-.
        apply (dict_get_Some_iff Prior.eqb Prior.id Prior_eqb_id). eauto.
      * eapply IH; eauto.
    + destruct (resolve_fields arguments fs) as [o' | e] eqn:Er; cbn in H;
        [ | discriminate ].
      destruct Hg as [ <- | Hg ]; [ congruence | ]. eapply IH; eauto.
Qed.

Lemma resolve_prior_models_raise (arguments : dict Prior.t float)
    (pms : list (string * PriorModel.t)) :
  forall model_instance e,
    resolve_prior_models arguments pms model_instance = Raise e ->
    e = ResolutionError.
Proof.
  induction pms as [ | [name pm] pms IH ]; cbn; intros mi e H.
  - discriminate.
  - unfold PriorModel.instance_for_arguments in H.
    destruct (resolve_fields arguments (fields pm)) as [o | e'] eqn:E; cbn in H.
    + eapply IH; eauto.
    + injection H as <-. eapply resolve_fields_raise; eauto.
Qed.

Lemma resolve_prior_models_covered (arguments : dict Prior.t float)
    (pms : list (string * PriorModel.t)) :
  forall model_instance model_instance',
    resolve_prior_models arguments pms model_instance = Ok model_instance' ->
    forall name pm f p, In (name, pm) pms -> In f (fields pm) ->
                        field_value f = FPrior p ->
                        In (Prior.id p) (key_ids Prior.id arguments).
Proof.
  induction pms as [ | [name pm] pms IH ]; cbn; intros mi mi' H n q f p Hq Hf Hv.
  - destruct Hq.
  - unfold PriorModel.instance_for_arguments in H.
    destruct (resolve_fields arguments (fields pm)) as [o | e'] eqn:E; cbn in H;
      [ | discriminate ].
    destruct Hq as [ Hq | Hq ].
    + injection Hq as <- <-. eapply resolve_fields_covered; eauto.
    + eapply IH; eauto.
Qed.

Lemma field_prior_ids_held (m : ModelMapper.t) (z : Z) :
  In z (field_prior_ids m) ->
  exists name pm f p,
    In (name, pm) (prior_model_tuples m) /\ In f (fields pm) /\
    field_value f = FPrior p /\ Prior.id p = z.
Proof.
  unfold field_prior_ids, all_prior_tuples. intros H.
  apply in_map_iff in H. destruct H as (pt & <- & H).
  apply in_flat_map in H. destruct H as ([name pm] & Hpm & H).
  unfold PriorModel.prior_tuples in H. cbn in H.
  apply in_flat_map in H. destruct H as (f & Hf & H).
  destruct (field_value f) as [p | c] eqn:Ev; [ | destruct H ].
  destruct H as [ <- | [] ]. exists name, pm, f, p. auto.
Qed.

(** The resolution returns an instance exactly when every prior of the
    mapper has a value, and fails with [ResolutionError] otherwise. *)
Lemma instance_for_arguments_cases (m : ModelMapper.t) (arguments : dict Prior.t float) :
  match instance_for_arguments m arguments with
  | Ok _ => forall z, In z (field_prior_ids m) -> In z (key_ids Prior.id arguments)
  | Raise e => e = ResolutionError /\
               exists z, In z (field_prior_ids m) /\
                         ~ In z (key_ids Prior.id arguments)
  end.
Proof.
  unfold instance_for_arguments.
  destruct (resolve_prior_models arguments (prior_model_tuples m) [])
    as [mi | e] eqn:E; cbn.
  - intros z Hz. destruct (field_prior_ids_held m z Hz) as (n & pm & f & p & ? & ? & ? & <-).
    eapply resolve_prior_models_covered; eauto.
  - split; [ eapply resolve_prior_models_raise; eauto | ].
    destruct (existsb (fun z => negb (existsb (Z.eqb z) (key_ids Prior.id arguments)))
                      (field_prior_ids m)) eqn:X.
    + apply existsb_exists in X. destruct X as (z & Hz & Hn). exists z. split; auto.
      intros Hin. apply negb_true_iff in Hn.
      assert (Y : existsb (Z.eqb z) (key_ids Prior.id arguments) = true).
      { apply existsb_exists. exists z. split; auto. apply Z.eqb_refl. }
      congruence.
    + exfalso.
      destruct (instance_for_arguments_ok m arguments) as [inst Hi].
      * intros z Hz.
        destruct (existsb (Z.eqb z) (key_ids Prior.id arguments)) eqn:Y.
        -- apply existsb_exists in Y. destruct Y as (y & Hy & Ey).
           apply Z.eqb_eq in Ey. now subst y.
        -- assert (W : existsb (fun z => negb (existsb (Z.eqb z)
                                   (key_ids Prior.id arguments)))
                               (field_prior_ids m) = true).
           { apply existsb_exists. exists z. split; auto. now rewrite Y. }
           congruence.
      * unfold instance_for_arguments in Hi. rewrite E in Hi. discriminate.
Qed.

Lemma map2_fst_ids_firstn {B} (g : PriorNameValue -> B -> float)
    (pts : list PriorNameValue) (ys : list B) :
  map Prior.id (map fst (map2 (fun pt y => (pnv_prior pt, g pt y)) pts ys))
  = map pid (firstn (List.length ys) pts).
Proof.
  revert ys. induction pts as [ | pt pts IH ]; intros [ | y ys ]; cbn;
    try reflexivity.
  now rewrite IH.
Qed.

Lemma NoDup_firstn_nth {A} (l : list A) (n : nat) (x : A) :
  NoDup l -> nth_error l n = Some x -> ~ In x (firstn n l).
Proof.
  revert n. induction l as [ | a l IH ]; intros n Hnd Hn.
  - destruct n; discriminate.
  - inversion Hnd as [ | ? ? Hnotin Hnd' ]; subst. destruct n as [ | n ]; cbn.
    + tauto.
    + cbn in Hn. intros [ <- | H ].
      * apply Hnotin. eapply nth_error_In; eauto.
      * eapply IH; eauto.
Qed.

End MapperMore.

(* ===================================================================== *)
(** * Further properties of the parameter space *)
(* ===================================================================== *)

Section MapperExtras.

Import PriorModel ModelMapper Observe PyFacts MapperFacts OrderFacts MapperMore.

(** X1: [prior_tuples] holds one tuple for each distinct prior of the
    mapper: the ids of its tuples are free of repetitions, they are exactly
    the ids of the priors held by the fields, and every tuple is the tuple of
    some field. *)
Theorem prior_tuples_one_per_prior (m : ModelMapper.t) :
  NoDup (map pid (prior_tuples m)) /\
  (forall z, In z (map pid (prior_tuples m)) <-> In z (field_prior_ids m)) /\
  incl (prior_tuples m) (all_prior_tuples m).
Proof.
  destruct (prior_tuples_ids m) as [Hnd Hin]. repeat split; auto.
  - now apply Hin.
  - now apply Hin.
  - intros pt. apply prior_tuples_are_fields.
Qed.

(** X2: when several fields hold one prior, the tuple that [prior_tuples]
    keeps for it is the tuple of the last of these fields, in the order in
    which the fields are met: the dict comprehension overwrites earlier
    names. *)
Theorem shared_prior_named_by_last_field (m : ModelMapper.t) (pt : PriorNameValue) :
  In pt (prior_tuples m) ->
  exists before after,
    all_prior_tuples m = before ++ pt :: after /\
    ~ In (pid pt) (map pid after).
Proof.
  unfold prior_tuples, dict_values. intros H.
  apply in_map_iff in H. destruct H as ([k v] & Ev & H). cbn in Ev. subst v.
  apply (dict_of_list_last Prior.eqb Prior.id Prior_eqb_id) in H.
  destruct H as (l1 & l2 & k' & E & Ek & Hl2).
  apply map_eq_app in E. destruct E as (a1 & a2 & Ea & E1 & E2).
  destruct a2 as [ | x a2 ]; [ discriminate | ]. cbn in E2.
  injection E2 as Ex Ept E2. subst x.
  exists a1, a2. split; auto.
  intros Hin. apply Hl2. rewrite <- E2, !map_map. cbn.
  replace (Prior.id k) with (pid pt); auto.
  unfold pid. now rewrite Ex, Ek.
Qed.

Lemma shared_prior_named_by_last_field_witness :
  exists before after,
    all_prior_tuples Examples.mapper_tied
    = before ++ mkPriorNameValue "three" Examples.p1 :: after /\
    ~ In (pid (mkPriorNameValue "three" Examples.p1)) (map pid after).
Proof.
  apply (shared_prior_named_by_last_field Examples.mapper_tied
           (mkPriorNameValue "three" Examples.p1)).
  right. left. reflexivity.
Defined.

(** X3: [prior_tuples_ordered_by_id] is strictly ascending in the prior
    id: a prior that comes earlier in the sequence has a smaller id, and no
    id ever occurs twice. *)
Theorem ordered_by_id_strictly_ascending (m : ModelMapper.t) :
  StronglySorted (fun p q => pid p < pid q) (prior_tuples_ordered_by_id m) /\
  forall i j p q,
    (i < j)%nat ->
    nth_error (prior_tuples_ordered_by_id m) i = Some p ->
    nth_error (prior_tuples_ordered_by_id m) j = Some q ->
    pid p < pid q.
Proof.
  split; [ apply ordered_strict | ].
  intros i j p q Hij Hi Hj.
  apply (strict_nth (map pid (prior_tuples_ordered_by_id m))
           (strict_map pid _ (ordered_strict m)) i j); auto.
  - now rewrite nth_error_map, Hi.
  - now rewrite nth_error_map, Hj.
Qed.

(** X4: the order of the parameters only depends on which priors the
    mapper holds: two mappers whose fields hold the same priors, in whatever
    attributes, fields and order, put them at the same vector positions. *)
Theorem parameter_order_depends_on_priors_only (m1 m2 : ModelMapper.t) :
  (forall z, In z (field_prior_ids m1) <-> In z (field_prior_ids m2)) ->
  map pid (prior_tuples_ordered_by_id m1) = map pid (prior_tuples_ordered_by_id m2) /\
  prior_count m1 = prior_count m2.
Proof.
  intros H.
  assert (E : map pid (prior_tuples_ordered_by_id m1)
              = map pid (prior_tuples_ordered_by_id m2)).
  { apply strict_unique.
    - apply strict_map, ordered_strict.
    - apply strict_map, ordered_strict.
    - intros z. rewrite (proj2 (ordered_ids m1)), (proj2 (ordered_ids m2)). apply H. }
  split; auto. unfold prior_count.
  rewrite <- (length_map pid (prior_tuples_ordered_by_id m1)), E, length_map.
  reflexivity.
Qed.

Lemma parameter_order_depends_on_priors_only_witness :
  map pid (prior_tuples_ordered_by_id Examples.mapper_two)
  = map pid (prior_tuples_ordered_by_id Examples.mapper_two_swapped) /\
  prior_count Examples.mapper_two = prior_count Examples.mapper_two_swapped.
Proof.
  apply (parameter_order_depends_on_priors_only Examples.mapper_two
           Examples.mapper_two_swapped).
  intros z. cbn. tauto.
Defined.

(** X5: [instance_from_unit_vector] returns an instance exactly when the
    unit vector has at least as many entries as the mapper has priors
    (surplus entries are ignored); on a shorter vector it fails, a prior
    being left without a value. *)
Theorem instance_from_unit_vector_needs_every_prior
    (value_for : Prior.t -> float -> float) (m : ModelMapper.t) (u : list float) :
  match instance_from_unit_vector value_for m u with
  | Ok _ => prior_count m <= Z.of_nat (List.length u)
  | Raise _ => Z.of_nat (List.length u) < prior_count m
  end.
Proof.
  pose proof (instance_from_unit_vector_ok value_for m u) as Hok.
  unfold instance_from_unit_vector in *.
  set (arguments := dict_of_list Prior.eqb
         (map2 (fun prior_tuple unit =>
                  (pnv_prior prior_tuple, value_for (pnv_prior prior_tuple) unit))
               (prior_tuples_ordered_by_id m) u)) in *.
  assert (Hkeys : forall z, In z (key_ids Prior.id arguments) ->
                            In z (map pid (firstn (List.length u)
                                             (prior_tuples_ordered_by_id m)))).
  { intros z Hz. unfold arguments, dict_of_list in Hz.
    apply (key_ids_update_In Prior.eqb Prior.id Prior_eqb_id) in Hz.
    destruct Hz as [ [] | Hz ].
    now rewrite (map2_fst_ids_firstn
                   (fun pt y => value_for (pnv_prior pt) y)) in Hz. }
  pose proof (instance_for_arguments_cases m arguments) as Hcases.
  destruct (instance_for_arguments m arguments) as [inst | e].
  - destruct (Z_le_gt_dec (prior_count m) (Z.of_nat (List.length u))) as [ | Hgt ]; auto.
    exfalso. unfold prior_count in Hgt.
    destruct (nth_error (prior_tuples_ordered_by_id m) (List.length u)) as [pt | ] eqn:En.
    2:{ apply nth_error_None in En. lia. }
    apply (NoDup_firstn_nth (map pid (prior_tuples_ordered_by_id m))
             (List.length u) (pid pt)).
    + apply ordered_ids.
    + now rewrite nth_error_map, En.
    + rewrite firstn_map. apply Hkeys, Hcases.
      apply (proj2 (ordered_ids m)). apply in_map. eapply nth_error_In; eauto.
  - destruct (Z_le_gt_dec (prior_count m) (Z.of_nat (List.length u))) as [ Hle | ];
      [ | lia ].
    destruct (Hok Hle) as [inst Hi]. discriminate.
Qed.

(** X6: the vector of prior medians has one entry for each prior, and the
    instance of the prior medians always exists; it is also the instance of
    the physical values of the medians. *)
Theorem prior_medians_resolve
    (value_for : Prior.t -> float -> float) (m : ModelMapper.t) :
  Z.of_nat (List.length (physical_values_from_prior_medians value_for m))
  = prior_count m /\
  exists instance,
    instance_from_prior_medians value_for m = Ok instance /\
    instance_from_physical_vector m (physical_values_from_prior_medians value_for m)
    = Ok instance.
Proof.
  assert (Hlen : List.length (prior_tuples m)
                 = List.length (prior_tuples_ordered_by_id m)).
  { unfold prior_tuples_ordered_by_id. now rewrite sorted_length. }
  split.
  - unfold physical_values_from_prior_medians, physical_vector_from_hypercube_vector,
      prior_count.
    rewrite map2_length, repeat_length, Hlen. lia.
  - unfold instance_from_prior_medians, physical_values_from_prior_medians.
    destruct (instance_from_unit_vector_ok value_for m
                (repeat 0.5%float (List.length (prior_tuples m)))) as [instance H].
    + unfold prior_count. rewrite repeat_length, Hlen. lia.
    + exists instance. split; auto.
      unfold instance_from_physical_vector, physical_vector_from_hypercube_vector.
      rewrite map2_map2_l. exact H.
Qed.

End MapperExtras.

(* ===================================================================== *)
(** * Further facts: substituting the priors of a mapper *)
(* ===================================================================== *)

Module RefineFacts.

Import PriorModel ModelMapper Observe Views PyFacts MapperFacts OrderFacts MapperMore.

Lemma dict_set_fresh_app (done : dict string Attr) (n : string) (x y : Attr)
    (rest : dict string Attr) :
  ~ In n (map fst done) ->
  dict_set String.eqb (done ++ (n, x) :: rest) n y = done ++ (n, y) :: rest.
Proof.
  induction done as [ | [k v] done IH ]; cbn; intros H.
  - now rewrite String.eqb_refl.
  - destruct (n =? k)%string eqn:E.
    + apply String.eqb_eq in E. subst k. exfalso. apply H. now left.
    + rewrite IH; auto.
Qed.

Lemma rebuild_prior_models_structure (arguments : dict Prior.t Prior.t)
    (todo : dict string Attr) :
  forall done : dict string Attr,
    NoDup (map fst (done ++ todo)) ->
    rebuild_prior_models arguments (prior_model_tuples (ModelMapper.mk todo))
                         (ModelMapper.mk (done ++ todo))
    = (todo' <- substitute_attrs arguments todo ;; Ok (ModelMapper.mk (done ++ todo'))).
Proof.
  induction todo as [ | [n a] todo IH ]; intros done Hnd.
  - reflexivity.
  - assert (Hn : ~ In n (map fst done)).
    { rewrite map_app in Hnd. cbn in Hnd. apply NoDup_remove_2 in Hnd.
      intros X. apply Hnd. apply in_app_iff. now left. }
    assert (Hnd' : forall a', NoDup (map fst ((done ++ [(n, a')]) ++ todo))).
    { intros a'. rewrite <- app_assoc. cbn. rewrite map_app in *. exact Hnd. }
    destruct a as [pm | v].
    + change (prior_model_tuples (ModelMapper.mk ((n, APriorModel pm) :: todo)))
        with ((n, pm) :: prior_model_tuples (ModelMapper.mk todo)).
      cbn [rebuild_prior_models substitute_attrs].
      destruct (gaussian_prior_model_for_arguments pm arguments) as [pm' | e];
        cbn [bind]; [ | reflexivity ].
      unfold ModelMapper.setattr. cbn [attrs].
      rewrite dict_set_fresh_app by exact Hn.
      change (done ++ (n, APriorModel pm') :: todo)
        with (done ++ [(n, APriorModel pm')] ++ todo).
      rewrite app_assoc, IH by apply Hnd'.
      destruct (substitute_attrs arguments todo) as [todo' | e]; cbn [bind];
        [ | reflexivity ].
      now rewrite <- app_assoc.
    + change (prior_model_tuples (ModelMapper.mk ((n, APlain v) :: todo)))
        with (prior_model_tuples (ModelMapper.mk todo)).
      cbn [substitute_attrs].
      change (done ++ (n, APlain v) :: todo) with (done ++ [(n, APlain v)] ++ todo).
      rewrite app_assoc, IH by apply Hnd'.
      destruct (substitute_attrs arguments todo) as [todo' | e]; cbn [bind];
        [ | reflexivity ].
      now rewrite <- app_assoc.
Qed.

(** With distinct attribute names, [mapper_from_prior_arguments] rebuilds
    every prior model where it stands. *)
Lemma mapper_from_prior_arguments_structure (m : ModelMapper.t)
    (arguments : dict Prior.t Prior.t) :
  NoDup (dict_keys (attrs m)) ->
  mapper_from_prior_arguments m arguments
  = (d' <- substitute_attrs arguments (attrs m) ;; Ok (ModelMapper.mk d')).
Proof.
  intros H. destruct m as [d]. unfold mapper_from_prior_arguments. cbn [attrs] in *.
  apply (rebuild_prior_models_structure arguments d []). exact H.
Qed.

Lemma tuples_of_fields_cons (f : Field) (fs : list Field) :
  tuples_of_fields (f :: fs)
  = match field_value f with
    | FPrior p => [mkPriorNameValue (field_name f) p]
    | FConstant _ => []
    end ++ tuples_of_fields fs.
Proof. reflexivity. Qed.

Lemma substitute_fields_tuples (arguments : dict Prior.t Prior.t) (fs : list Field) :
  forall fs',
    substitute_fields arguments fs = Ok fs' ->
    Forall2 (substituted arguments) (tuples_of_fields fs) (tuples_of_fields fs').
Proof.
  induction fs as [ | f fs IH ]; cbn [substitute_fields]; intros fs' H.
  - injection H as <-. constructor.
  - destruct (field_value f) as [p | c] eqn:Ev.
    + destruct (dict_get Prior.eqb arguments p) as [q | ] eqn:Eq; cbn [bind] in H;
        [ | discriminate ].
      destruct (substitute_fields arguments fs) as [fs1 | e]; cbn [bind] in H;
        [ | discriminate ].
      injection H as <-. rewrite !tuples_of_fields_cons. cbn [field_value].
      rewrite Ev. cbn. constructor; auto. split; auto.
    + cbn [bind] in H.
      destruct (substitute_fields arguments fs) as [fs1 | e]; cbn [bind] in H;
        [ | discriminate ].
      injection H as <-. rewrite !tuples_of_fields_cons. cbn [field_value].
      rewrite Ev. cbn. auto.
Qed.

Lemma substitute_fields_raise (arguments : dict Prior.t Prior.t) (fs : list Field)
    (e : exn) :
  substitute_fields arguments fs = Raise e -> e = KeyError.
Proof.
  induction fs as [ | f fs IH ]; cbn [substitute_fields]; intros H.
  - discriminate.
  - destruct (field_value f) as [p | c].
    + destruct (dict_get Prior.eqb arguments p); cbn [bind] in H.
      * destruct (substitute_fields arguments fs); cbn [bind] in H;
          [ discriminate | ]. injection H as <-. now apply IH.
      * now injection H as <-.
    + cbn [bind] in H. destruct (substitute_fields arguments fs); cbn [bind] in H;
        [ discriminate | ]. injection H as <-. now apply IH.
Qed.

Lemma substitute_attrs_tuples (arguments : dict Prior.t Prior.t) (d : dict string Attr) :
  forall d',
    substitute_attrs arguments d = Ok d' ->
    Forall2 (substituted arguments) (tuples_of_attrs d) (tuples_of_attrs d').
Proof.
  induction d as [ | [n a] d IH ]; cbn [substitute_attrs]; intros d' H.
  - injection H as <-. constructor.
  - destruct a as [pm | v].
    + unfold gaussian_prior_model_for_arguments in H.
      destruct (substitute_fields arguments (fields pm)) as [fs' | e] eqn:Ef;
        cbn [bind] in H; [ | discriminate ].
      destruct (substitute_attrs arguments d) as [d1 | e]; cbn [bind] in H;
        [ | discriminate ].
      injection H as <-. rewrite !tuples_of_attrs_model.
      apply Forall2_app; auto.
      apply (substitute_fields_tuples arguments (fields pm) fs' Ef).
    + destruct (substitute_attrs arguments d) as [d1 | e]; cbn [bind] in H;
        [ | discriminate ].
      injection H as <-. rewrite !tuples_of_attrs_plain. auto.
Qed.

Lemma substitute_attrs_raise (arguments : dict Prior.t Prior.t) (d : dict string Attr)
    (e : exn) :
  substitute_attrs arguments d = Raise e -> e = KeyError.
Proof.
  induction d as [ | [n a] d IH ]; cbn [substitute_attrs]; intros H.
  - discriminate.
  - destruct a as [pm | v].
    + unfold gaussian_prior_model_for_arguments in H.
      destruct (substitute_fields arguments (fields pm)) as [fs' | e'] eqn:Ef;
        cbn [bind] in H.
      * destruct (substitute_attrs arguments d); cbn [bind] in H;
          [ discriminate | ]. injection H as <-. now apply IH.
      * injection H as <-. eapply substitute_fields_raise; eauto.
    + destruct (substitute_attrs arguments d); cbn [bind] in H;
        [ discriminate | ]. injection H as <-. now apply IH.
Qed.

(** What [mapper_from_prior_arguments] returns, tuple by tuple. *)
Lemma mapper_from_prior_arguments_tuples (m m' : ModelMapper.t)
    (arguments : dict Prior.t Prior.t) :
  NoDup (dict_keys (attrs m)) ->
  mapper_from_prior_arguments m arguments = Ok m' ->
  Forall2 (substituted arguments) (all_prior_tuples m) (all_prior_tuples m') /\
  dict_keys (attrs m') = dict_keys (attrs m).
Proof.
  intros Hnd H. rewrite (mapper_from_prior_arguments_structure m arguments Hnd) in H.
  destruct (substitute_attrs arguments (attrs m)) as [d' | e] eqn:E; cbn [bind] in H;
    [ | discriminate ].
  injection H as <-. split.
  - destruct m as [d]. exact (substitute_attrs_tuples arguments d d' E).
  - cbn [attrs]. clear Hnd. revert d' E.
    induction (attrs m) as [ | [n a] d IH ]; cbn [substitute_attrs]; intros d' E.
    + now injection E as <-.
    + destruct a as [pm | v].
      * destruct (gaussian_prior_model_for_arguments pm arguments); cbn [bind] in E;
          [ | discriminate ].
        destruct (substitute_attrs arguments d) as [d1 | ]; cbn [bind] in E;
          [ | discriminate ].
        injection E as <-. cbn. f_equal. now apply IH.
      * destruct (substitute_attrs arguments d) as [d1 | ]; cbn [bind] in E;
          [ | discriminate ].
        injection E as <-. cbn. f_equal. now apply IH.
Qed.

Lemma mapper_from_prior_arguments_raise (m : ModelMapper.t)
    (arguments : dict Prior.t Prior.t) (e : exn) :
  NoDup (dict_keys (attrs m)) ->
  mapper_from_prior_arguments m arguments = Raise e -> e = KeyError.
Proof.
  intros Hnd H. rewrite (mapper_from_prior_arguments_structure m arguments Hnd) in H.
  destruct (substitute_attrs arguments (attrs m)) as [d' | e'] eqn:E; cbn [bind] in H;
    [ discriminate | ].
  injection H as <-. eapply substitute_attrs_raise; eauto.
Qed.

Lemma Forall2_In_l {A B} (R : A -> B -> Prop) (l : list A) (l' : list B) (x : A) :
  Forall2 R l l' -> In x l -> exists y, In y l' /\ R x y.
Proof.
  induction 1 as [ | a b l l' Hab Hl IH ]; intros Hx.
  - destruct Hx.
  - destruct Hx as [ <- | Hx ].
    + exists b. split; auto. now left.
    + destruct (IH Hx) as (y & Hy & Hr). exists y. split; auto. now right.
Qed.

Lemma Forall2_In_r {A B} (R : A -> B -> Prop) (l : list A) (l' : list B) (y : B) :
  Forall2 R l l' -> In y l' -> exists x, In x l /\ R x y.
Proof.
  induction 1 as [ | a b l l' Hab Hl IH ]; intros Hy.
  - destruct Hy.
  - destruct Hy as [ <- | Hy ].
    + exists a. split; auto. now left.
    + destruct (IH Hy) as (x & Hx & Hr). exists x. split; auto. now right.
Qed.

Lemma Forall2_nth {A B} (R : A -> B -> Prop) (l : list A) (l' : list B) :
  Forall2 R l l' ->
  forall i x y, nth_error l i = Some x -> nth_error l' i = Some y -> R x y.
Proof.
  induction 1 as [ | a b l l' Hab Hl IH ]; intros i x y Hx Hy.
  - destruct i; discriminate.
  - destruct i as [ | i ]; cbn in Hx, Hy.
    + injection Hx as <-. injection Hy as <-. exact Hab.
    + eapply IH; eauto.
Qed.

Lemma agree_get {K V} (keq : K -> K -> bool) (proj : K -> Z) (projv : V -> Z)
    (keq_proj : forall a b, keq a b = (proj a =? proj b)) (d : dict K V) (k : K) (v : V) :
  agree proj projv d -> dict_get keq d k = Some v -> projv v = proj k.
Proof.
  unfold agree. induction 1 as [ | [k1 v1] d Hkv _ IH ]; cbn; intros H.
  - discriminate.
  - rewrite keq_proj in H. destruct (proj k =? proj k1) eqn:E; auto.
    apply Z.eqb_eq in E. injection H as <-. cbn in Hkv. congruence.
Qed.

(** The dictionary [{prior: prior for prior in self.priors}]. *)
Lemma original_prior_dict_facts (m : ModelMapper.t) :
  let original := dict_of_list Prior.eqb (map (fun prior => (prior, prior)) (priors m)) in
  agree Prior.id Prior.id original /\
  forall z, In z (field_prior_ids m) -> In z (key_ids Prior.id original).
Proof.
  cbn zeta. split.
  - apply (agree_update Prior.eqb Prior.id Prior_eqb_id).
    + constructor.
    + apply Forall_forall. intros kv Hkv. apply in_map_iff in Hkv.
      destruct Hkv as (p & <- & _). reflexivity.
  - intros z Hz. unfold dict_of_list.
    apply (key_ids_update_In Prior.eqb Prior.id Prior_eqb_id). right.
    rewrite !map_map. cbn. unfold priors. rewrite map_map.
    now apply (proj2 (prior_tuples_ids m)).
Qed.

End RefineFacts.

(* ===================================================================== *)
(** * Further facts: the refinement *)
(* ===================================================================== *)

Module RefinementMore.

Import PriorModel ModelMapper Observe Views PyFacts MapperFacts OrderFacts MapperMore
       RefineFacts.

Lemma seq_shift_strict (c : Z) (k : nat) :
  forall a : nat,
    StronglySorted Z.lt (map (fun i => c + Z.of_nat i) (seq a k)).
Proof.
  induction k as [ | k IH ]; intros a; cbn.
  - constructor.
  - constructor; [ apply IH | ].
    apply Forall_forall. intros z Hz. apply in_map_iff in Hz.
    destruct Hz as (i & <- & Hi). apply in_seq in Hi. lia.
Qed.

Lemma seq_shift_nth (c : Z) (k : nat) :
  forall a i : nat,
    (i < k)%nat ->
    nth_error (map (fun i => c + Z.of_nat i) (seq a k)) i = Some (c + Z.of_nat (a + i)).
Proof.
  induction k as [ | k IH ]; intros a i Hi; [ lia | ].
  destruct i as [ | i ]; cbn.
  - now rewrite Nat.add_0_r.
  - rewrite IH by lia. do 2 f_equal. lia.
Qed.

Section Loop.
Variable prior_width : string -> string -> string * float.
Variable prior_limit : string -> string -> float * float.
Variable pcd : dict Prior.t string.
Variable tuples : list (float * float).
Variable a r : option float.

(** A prior that the loop creates carries the id drawn for it. *)
Lemma gaussian_prior_for_id i prior_tuple new_id g :
  gaussian_prior_for prior_width prior_limit pcd tuples a r i prior_tuple new_id = Ok g ->
  Prior.id g = new_id /\ Prior.is_gaussian g = true.
Proof.
  unfold gaussian_prior_for.
  destruct (dict_get Prior.eqb pcd (pnv_prior prior_tuple)); cbn [bind];
    [ | discriminate ].
  destruct (nth_error tuples i); cbn [bind]; [ | discriminate ].
  destruct a, r; try discriminate;
    match goal with
    | |- context [ if ?b then _ else _ ] => destruct b
    end; cbn [bind];
    try match goal with
        | |- context [ if ?b then _ else _ ] => destruct b
        end; cbn [bind]; try discriminate;
    intros H; injection H as <-; auto.
Qed.

(** The one-policy body of the loop, with the limits spelt out. *)
Lemma gaussian_prior_for_one_policy_limits i prior_tuple new_id mean ew w cls :
  policy_width a r mean = Some w ->
  dict_get Prior.eqb pcd (pnv_prior prior_tuple) = Some cls ->
  nth_error tuples i = Some (mean, ew) ->
  gaussian_prior_for prior_width prior_limit pcd tuples a r i prior_tuple new_id
  = Ok (Prior.mk new_id
          (Prior.GaussianPrior mean (Py.max ew w)
             (fst (refined_limits prior_limit cls prior_tuple))
             (snd (refined_limits prior_limit cls prior_tuple)))).
Proof.
  intros Hw Hc Ht. unfold gaussian_prior_for, refined_limits.
  rewrite Hc, Ht. cbn [bind fst snd].
  destruct a as [av | ], r as [rv | ]; cbn in Hw; try discriminate;
    injection Hw as <-; cbn.
  - reflexivity.
  - now rewrite (mul_comm rv mean).
Qed.

(** The dictionary that the loop returns maps each prior of the sequence to
    the prior made for it, and leaves the other entries alone. *)
Lemma gaussian_arguments_entries (pts : list PriorNameValue) :
  forall i arguments next_id arguments',
    gaussian_arguments prior_width prior_limit pcd tuples a r i pts arguments next_id
    = Ok arguments' ->
    NoDup (map pid pts) ->
    (forall p, ~ In (Prior.id p) (map pid pts) ->
               dict_get Prior.eqb arguments' p = dict_get Prior.eqb arguments p) /\
    (forall j pt,
        nth_error pts j = Some pt ->
        exists g,
          gaussian_prior_for prior_width prior_limit pcd tuples a r (i + j) pt
                             (next_id + Z.of_nat j) = Ok g /\
          dict_get Prior.eqb arguments' (pnv_prior pt) = Some g).
Proof.
  induction pts as [ | pt pts IH ]; intros i arguments next_id arguments' H Hnd.
  - cbn in H. injection H as <-. split; auto.
    intros j q Hj. destruct j; discriminate.
  - cbn [gaussian_arguments] in H.
    destruct (gaussian_prior_for prior_width prior_limit pcd tuples a r i pt next_id)
      as [g | e] eqn:Eg; cbn [bind] in H; [ | discriminate ].
    inversion Hnd as [ | ? ? Hnotin Hnd' ]; subst.
    destruct (IH _ _ _ _ H Hnd') as [Hother Hnth]. split.
    + intros p Hp. cbn in Hp. rewrite Hother by tauto.
      rewrite (dict_get_set Prior.eqb Prior.id Prior_eqb_id), Prior_eqb_id.
      destruct (Prior.id p =? Prior.id (pnv_prior pt)) eqn:E; auto.
      apply Z.eqb_eq in E. exfalso. apply Hp. left. unfold pid. now symmetry.
    + intros [ | j ] q Hq; cbn in Hq.
      * injection Hq as <-. exists g. rewrite Nat.add_0_r. cbn [Z.of_nat].
        rewrite Z.add_0_r. split; auto.
        rewrite Hother by exact Hnotin.
        rewrite (dict_get_set Prior.eqb Prior.id Prior_eqb_id), Prior_eqb_id.
        now rewrite Z.eqb_refl.
      * destruct (Hnth j q Hq) as (g' & Hg' & Hget). exists g'.
        replace (i + S j)%nat with (S i + j)%nat by lia.
        replace (next_id + Z.of_nat (S j)) with (next_id + 1 + Z.of_nat j) by lia.
        auto.
Qed.

(** With one policy, the loop stops with [IndexError] at the first prior
    without a posterior tuple. *)
Lemma gaussian_arguments_too_few (pts : list PriorNameValue) :
  forall i arguments next_id,
    (forall mean, policy_width a r mean <> None) ->
    (forall pt, In pt pts -> In (pid pt) (key_ids Prior.id pcd)) ->
    (i <= List.length tuples < i + List.length pts)%nat ->
    gaussian_arguments prior_width prior_limit pcd tuples a r i pts arguments next_id
    = Raise IndexError.
Proof.
  induction pts as [ | pt pts IH ]; intros i arguments next_id Hpol Hc Hlen.
  - cbn in Hlen. lia.
  - cbn [gaussian_arguments]. cbn [List.length] in Hlen.
    assert (Hcls : In (pid pt) (key_ids Prior.id pcd)) by (apply Hc; now left).
    destruct (nth_error tuples i) as [[mean ew] | ] eqn:Ht.
    + destruct (policy_width a r mean) as [w | ] eqn:Hw; [ | now destruct (Hpol mean) ].
      destruct (gaussian_prior_for_one_policy prior_width prior_limit pcd tuples a r
                  i pt next_id mean ew w Hw Hcls Ht) as (lo & hi & Hg).
      rewrite Hg. cbn [bind]. apply IH; auto.
      * intros q Hq. apply Hc. now right.
      * assert (i < List.length tuples)%nat by (apply nth_error_Some; congruence).
        lia.
    + unfold gaussian_prior_for.
      apply (dict_get_Some_iff Prior.eqb Prior.id Prior_eqb_id) in Hcls.
      destruct Hcls as [c Hcls]. unfold pid in Hcls. rewrite Hcls, Ht. reflexivity.
Qed.
End Loop.

End RefinementMore.

(* ===================================================================== *)
(** * Further properties of the refinement *)
(* ===================================================================== *)

Section RefinementExtras.

Import PriorModel ModelMapper Observe Views PyFacts MapperFacts OrderFacts MapperMore
       RefineFacts RefinementMore.

(** X7: refinement keeps the parameters where they are.  With distinct
    attribute names, exactly one of [a] and [r], and a posterior tuple for
    every prior, [mapper_from_gaussian_tuples] returns a mapper with the same
    parameter count whose [i]-th prior, in id order, is the Gaussian prior
    made from the [i]-th old prior and the [i]-th tuple: a fresh id in the
    same order, the tuple's mean, sigma [max(width, policy_width)], and the
    limits of the old prior when that was Gaussian, the configured limits of
    its class and name otherwise. *)
Theorem refinement_keeps_parameter_positions
    (prior_width : string -> string -> string * float)
    (prior_limit : string -> string -> float * float)
    (m : ModelMapper.t) (tuples : list (float * float))
    (a r : option float) (next_id : Z) :
  NoDup (dict_keys (attrs m)) ->
  (a = None /\ r <> None) \/ (a <> None /\ r = None) ->
  prior_count m <= Z.of_nat (List.length tuples) ->
  exists m',
    mapper_from_gaussian_tuples prior_width prior_limit m tuples a r next_id = Ok m' /\
    prior_count m' = prior_count m /\
    forall i prior_tuple mean empirical_width,
      nth_error (prior_tuples_ordered_by_id m) i = Some prior_tuple ->
      nth_error tuples i = Some (mean, empirical_width) ->
      exists prior_tuple' width cls,
        nth_error (prior_tuples_ordered_by_id m') i = Some prior_tuple' /\
        policy_width a r mean = Some width /\
        dict_get Prior.eqb (prior_class_dict m) (pnv_prior prior_tuple) = Some cls /\
        pnv_prior prior_tuple'
        = Prior.mk (next_id + Z.of_nat i)
            (Prior.GaussianPrior mean (Py.max empirical_width width)
               (fst (refined_limits prior_limit cls prior_tuple))
               (snd (refined_limits prior_limit cls prior_tuple))).
Proof.
  intros Hnames Hone Hlen.
  set (pcd := prior_class_dict m).
  set (ordered := prior_tuples_ordered_by_id m).
  set (n := List.length ordered).
  assert (Hpol : forall mean, policy_width a r mean <> None).
  { intros mean. destruct Hone as [[-> Hr] | [Ha ->]].
    - destruct r; [ discriminate | contradiction ].
    - destruct a; [ discriminate | contradiction ]. }
  assert (Hcov : forall pt, In pt ordered -> In (pid pt) (key_ids Prior.id pcd)).
  { intros pt Hpt. apply prior_class_dict_covers. apply (proj2 (ordered_ids m)).
    now apply in_map. }
  destruct (gaussian_arguments_one_policy prior_width prior_limit pcd tuples a r
              ordered 0%nat [] next_id Hpol Hcov) as (arguments & Hrun & Hkeys & _ & _).
  { unfold prior_count in Hlen. fold ordered in Hlen. lia. }
  { apply ordered_ids. }
  destruct (gaussian_arguments_entries prior_width prior_limit pcd tuples a r
              ordered 0%nat [] next_id arguments Hrun (proj1 (ordered_ids m)))
    as [_ Hentries].
  destruct (mapper_from_prior_arguments_ok m arguments) as [m' Hm'].
  { intros z Hz. apply Hkeys. right. now apply (proj2 (ordered_ids m)). }
  destruct (mapper_from_prior_arguments_tuples m m' arguments Hnames Hm')
    as [Hsub _].
  (* every tuple of the new mapper holds the prior made for some position *)
  assert (Hnew : forall new, In new (all_prior_tuples m') ->
            exists j pt g,
              nth_error ordered j = Some pt /\
              gaussian_prior_for prior_width prior_limit pcd tuples a r j pt
                                 (next_id + Z.of_nat j) = Ok g /\
              pnv_prior new = g).
  { intros new Hin.
    destruct (Forall2_In_r _ _ _ _ Hsub Hin) as (old & Hold & _ & Hget).
    assert (Hid : In (pid old) (map pid ordered)).
    { apply (proj2 (ordered_ids m)). now apply in_map. }
    apply in_map_iff in Hid. destruct Hid as (pt & Hpid & Hpt).
    apply In_nth_error in Hpt. destruct Hpt as [j Hj].
    destruct (Hentries j pt Hj) as (g & Hg & Hgetj). cbn [Nat.add] in Hg.
    exists j, pt, g. repeat split; auto.
    rewrite (dict_get_proj Prior.eqb Prior.id Prior_eqb_id arguments
               (pnv_prior old) (pnv_prior pt)) in Hget by (symmetry; exact Hpid).
    congruence. }
  (* and the prior made for every position is held by some tuple *)
  assert (Hall : forall j pt g,
            nth_error ordered j = Some pt ->
            gaussian_prior_for prior_width prior_limit pcd tuples a r j pt
                               (next_id + Z.of_nat j) = Ok g ->
            exists new, In new (all_prior_tuples m') /\ pnv_prior new = g).
  { intros j pt g Hj Hg.
    assert (Hf : In pt (all_prior_tuples m)).
    { apply ordered_are_fields. eapply nth_error_In; eauto. }
    destruct (Forall2_In_l _ _ _ _ Hsub Hf) as (new & Hin & _ & Hget).
    destruct (Hentries j pt Hj) as (g' & Hg' & Hgetj). cbn [Nat.add] in Hg'.
    exists new. split; auto. congruence. }
  set (target := map (fun i => next_id + Z.of_nat i) (seq 0 n)).
  assert (Hids : map pid (prior_tuples_ordered_by_id m') = target).
  { apply strict_unique.
    - apply strict_map, ordered_strict.
    - apply seq_shift_strict.
    - intros z. rewrite (proj2 (ordered_ids m')). unfold field_prior_ids, target.
      rewrite !in_map_iff. split.
      + intros (new & <- & Hin).
        destruct (Hnew new Hin) as (j & pt & g & Hj & Hg & Hp).
        exists j. split.
        * unfold pid. rewrite Hp.
          now rewrite (proj1 (gaussian_prior_for_id _ _ _ _ _ _ _ _ _ _ Hg)).
        * apply in_seq. assert (j < n)%nat by (apply nth_error_Some; congruence). lia.
      + intros (j & <- & Hj). apply in_seq in Hj.
        destruct (nth_error ordered j) as [pt | ] eqn:Ej.
        2:{ apply nth_error_None in Ej. fold n in Ej. lia. }
        destruct (Hentries j pt Ej) as (g & Hg & _). cbn [Nat.add] in Hg.
        destruct (Hall j pt g Ej Hg) as (new & Hin & Hp).
        exists new. split; auto. unfold pid. rewrite Hp.
        now rewrite (proj1 (gaussian_prior_for_id _ _ _ _ _ _ _ _ _ _ Hg)). }
  exists m'. split; [ | split ].
  - unfold mapper_from_gaussian_tuples. fold pcd ordered. rewrite Hrun. exact Hm'.
  - unfold prior_count.
    rewrite <- (length_map pid (prior_tuples_ordered_by_id m')), Hids.
    unfold target. now rewrite length_map, length_seq.
  - intros i pt mean ew Hi Ht.
    assert (Hin : (i < n)%nat) by (apply nth_error_Some; fold ordered in Hi; congruence).
    assert (Hi' : nth_error (map pid (prior_tuples_ordered_by_id m')) i
                  = Some (next_id + Z.of_nat i)).
    { rewrite Hids. unfold target. now rewrite seq_shift_nth. }
    rewrite nth_error_map in Hi'.
    destruct (nth_error (prior_tuples_ordered_by_id m') i) as [pt' | ] eqn:Ei';
      [ | discriminate ].
    cbn in Hi'. injection Hi' as Hpid'.
    destruct (Hnew pt') as (j & ptj & g & Hj & Hg & Hp).
    { apply ordered_are_fields. eapply nth_error_In; eauto. }
    assert (j = i).
    { unfold pid in Hpid'. rewrite Hp in Hpid'.
      rewrite (proj1 (gaussian_prior_for_id _ _ _ _ _ _ _ _ _ _ Hg)) in Hpid'. lia. }
    subst j. fold ordered in Hi. rewrite Hi in Hj. injection Hj as <-.
    destruct (policy_width a r mean) as [w | ] eqn:Hw; [ | now destruct (Hpol mean) ].
    destruct (proj2 (dict_get_Some_iff Prior.eqb Prior.id Prior_eqb_id pcd
                       (pnv_prior pt))) as [cls Hcls].
    { apply Hcov. eapply nth_error_In; eauto. }
    exists pt', w, cls. repeat split; auto.
    rewrite Hp.
    rewrite (gaussian_prior_for_one_policy_limits prior_width prior_limit pcd tuples
               a r i pt (next_id + Z.of_nat i) mean ew w cls Hw Hcls Ht) in Hg.
    now injection Hg as <-.
Qed.

(** The refinement of [mapper_two] around the means 1 and 3 with [r = 1]. *)
Lemma refinement_keeps_parameter_positions_witness :
  exists m',
    mapper_from_gaussian_tuples Examples.no_width Examples.no_limit Examples.mapper_two
      [(1%float, 0%float); (3%float, 0%float)] None (Some 1%float) 10 = Ok m' /\
    prior_count m' = prior_count Examples.mapper_two /\
    forall i prior_tuple mean empirical_width,
      nth_error (prior_tuples_ordered_by_id Examples.mapper_two) i = Some prior_tuple ->
      nth_error [(1%float, 0%float); (3%float, 0%float)] i
      = Some (mean, empirical_width) ->
      exists prior_tuple' width cls,
        nth_error (prior_tuples_ordered_by_id m') i = Some prior_tuple' /\
        policy_width None (Some 1%float) mean = Some width /\
        dict_get Prior.eqb (prior_class_dict Examples.mapper_two)
                 (pnv_prior prior_tuple) = Some cls /\
        pnv_prior prior_tuple'
        = Prior.mk (10 + Z.of_nat i)
            (Prior.GaussianPrior mean (Py.max empirical_width width)
               (fst (refined_limits Examples.no_limit cls prior_tuple))
               (snd (refined_limits Examples.no_limit cls prior_tuple))).
Proof.
  apply (refinement_keeps_parameter_positions Examples.no_width Examples.no_limit
           Examples.mapper_two [(1%float, 0%float); (3%float, 0%float)]
           None (Some 1%float) 10).
  - cbn. repeat constructor; cbn; intuition discriminate.
  - left. split; [ reflexivity | discriminate ].
  - vm_compute. discriminate.
Defined.

(** X8: with one width policy, a list of posterior tuples shorter than the
    parameter count makes the refinement fail with [IndexError]; no mapper
    is returned. *)
Theorem refinement_needs_a_tuple_per_prior
    (prior_width : string -> string -> string * float)
    (prior_limit : string -> string -> float * float)
    (m : ModelMapper.t) (tuples : list (float * float))
    (a r : option float) (next_id : Z) :
  (a = None /\ r <> None) \/ (a <> None /\ r = None) ->
  Z.of_nat (List.length tuples) < prior_count m ->
  mapper_from_gaussian_tuples prior_width prior_limit m tuples a r next_id
  = Raise IndexError.
Proof.
  intros Hone Hlen. unfold mapper_from_gaussian_tuples.
  rewrite gaussian_arguments_too_few; auto.
  - intros mean. destruct Hone as [[-> Hr] | [Ha ->]].
    + destruct r; [ discriminate | contradiction ].
    + destruct a; [ discriminate | contradiction ].
  - intros pt Hpt. apply prior_class_dict_covers. apply (proj2 (ordered_ids m)).
    now apply in_map.
  - unfold prior_count in Hlen. lia.
Qed.

Lemma refinement_needs_a_tuple_per_prior_witness :
  mapper_from_gaussian_tuples Examples.no_width Examples.no_limit Examples.mapper_two
    [(1%float, 0%float)] (Some 2%float) None 10 = Raise IndexError.
Proof.
  apply (refinement_needs_a_tuple_per_prior Examples.no_width Examples.no_limit
           Examples.mapper_two [(1%float, 0%float)] (Some 2%float) None 10).
  - right. split; [ discriminate | reflexivity ].
  - reflexivity.
Defined.



(** X10: with distinct attribute names, [mapper_from_prior_arguments]
    either returns a mapper with the same attribute names in which every
    field's prior is replaced by the prior that [arguments] assigns to it, so
    that fields that shared a prior share its replacement, or it fails, some
    prior of the mapper having no entry in [arguments]. *)
Theorem mapper_from_prior_arguments_substitutes
    (m : ModelMapper.t) (arguments : dict Prior.t Prior.t) :
  NoDup (dict_keys (attrs m)) ->
  match mapper_from_prior_arguments m arguments with
  | Ok m' =>
      Forall2 (substituted arguments) (all_prior_tuples m) (all_prior_tuples m') /\
      dict_keys (attrs m') = dict_keys (attrs m) /\
      forall i j old_i old_j new_i new_j,
        nth_error (all_prior_tuples m) i = Some old_i ->
        nth_error (all_prior_tuples m) j = Some old_j ->
        nth_error (all_prior_tuples m') i = Some new_i ->
        nth_error (all_prior_tuples m') j = Some new_j ->
        pid old_i = pid old_j ->
        pnv_prior new_i = pnv_prior new_j
  | Raise _ =>
      ~ (forall z, In z (field_prior_ids m) -> In z (key_ids Prior.id arguments))
  end.
Proof.
  intros Hnames.
  destruct (mapper_from_prior_arguments m arguments) as [m' | e] eqn:E.
  - destruct (mapper_from_prior_arguments_tuples m m' arguments Hnames E)
      as [Hsub Hkeys].
    repeat split; auto.
    intros i j oi oj ni nj Hoi Hoj Hni Hnj Hid.
    destruct (Forall2_nth _ _ _ Hsub i oi ni Hoi Hni) as [_ Hi].
    destruct (Forall2_nth _ _ _ Hsub j oj nj Hoj Hnj) as [_ Hj].
    rewrite (dict_get_proj Prior.eqb Prior.id Prior_eqb_id arguments
               (pnv_prior oi) (pnv_prior oj) Hid) in Hi.
    congruence.
  - intros Hcov. destruct (mapper_from_prior_arguments_ok m arguments Hcov) as [m' H].
    congruence.
Qed.

Lemma mapper_from_prior_arguments_substitutes_witness :
  match mapper_from_prior_arguments Examples.mapper_tied
          [(Examples.p0, Examples.p1); (Examples.p1, Examples.p0)] with
  | Ok m' =>
      Forall2 (substituted [(Examples.p0, Examples.p1); (Examples.p1, Examples.p0)])
              (all_prior_tuples Examples.mapper_tied) (all_prior_tuples m') /\
      dict_keys (attrs m') = dict_keys (attrs Examples.mapper_tied) /\
      forall i j old_i old_j new_i new_j,
        nth_error (all_prior_tuples Examples.mapper_tied) i = Some old_i ->
        nth_error (all_prior_tuples Examples.mapper_tied) j = Some old_j ->
        nth_error (all_prior_tuples m') i = Some new_i ->
        nth_error (all_prior_tuples m') j = Some new_j ->
        pid old_i = pid old_j ->
        pnv_prior new_i = pnv_prior new_j
  | Raise _ =>
      ~ (forall z, In z (field_prior_ids Examples.mapper_tied) ->
                   In z (key_ids Prior.id
                           [(Examples.p0, Examples.p1); (Examples.p1, Examples.p0)]))
  end.
Proof.
  apply (mapper_from_prior_arguments_substitutes Examples.mapper_tied
           [(Examples.p0, Examples.p1); (Examples.p1, Examples.p0)]).
  cbn. repeat constructor; cbn; intuition discriminate.
Defined.

(** X11: [mapper_from_partial_prior_arguments] never fails for want of an
    entry: with distinct attribute names and a dictionary with distinct keys
    it returns a mapper in which a field whose prior has an entry holds that
    entry and every other field holds a prior of the id it held before; with
    an empty dictionary every field keeps the id of its prior. *)
Theorem partial_arguments_keep_the_other_priors
    (m : ModelMapper.t) (arguments : dict Prior.t Prior.t) :
  NoDup (dict_keys (attrs m)) ->
  NoDup (key_ids Prior.id arguments) ->
  exists m',
    mapper_from_partial_prior_arguments m arguments = Ok m' /\
    Forall2 (partially_substituted arguments) (all_prior_tuples m) (all_prior_tuples m') /\
    (arguments = [] -> field_prior_ids m' = field_prior_ids m).
Proof.
  intros Hnames Hkeys. unfold mapper_from_partial_prior_arguments.
  destruct (original_prior_dict_facts m) as [Hag Hcov]. cbn zeta in Hag, Hcov.
  set (original := dict_of_list Prior.eqb
                     (map (fun prior => (prior, prior)) (priors m))) in *.
  set (merged := dict_update Prior.eqb original (dict_items arguments)).
  assert (Hget : forall k, dict_get Prior.eqb merged k =
                           match dict_get Prior.eqb arguments k with
                           | Some v => Some v
                           | None => dict_get Prior.eqb original k
                           end).
  { intros k. apply (dict_get_update Prior.eqb Prior.id Prior_eqb_id arguments Hkeys). }
  destruct (mapper_from_prior_arguments_ok m merged) as [m' Hm'].
  { intros z Hz. apply (key_ids_update_In Prior.eqb Prior.id Prior_eqb_id).
    left. now apply Hcov. }
  destruct (mapper_from_prior_arguments_tuples m m' merged Hnames Hm') as [Hsub _].
  assert (Hpart : Forall2 (partially_substituted arguments)
                          (all_prior_tuples m) (all_prior_tuples m')).
  { eapply Forall2_impl; [ | exact Hsub ].
    intros old new [Hname Hlook]. split; auto.
    rewrite Hget in Hlook.
    destruct (dict_get Prior.eqb arguments (pnv_prior old)) as [q | ].
    - now injection Hlook as <-.
    - exact (agree_get Prior.eqb Prior.id Prior.id Prior_eqb_id _ _ _ Hag Hlook). }
  exists m'. repeat split; auto.
  intros ->. unfold field_prior_ids.
  clear - Hpart. induction Hpart as [ | old new l l' [_ Hid] _ IH ]; cbn; auto.
  cbn in Hid. unfold pid at 1 3. now rewrite Hid, IH.
Qed.

Lemma partial_arguments_keep_the_other_priors_witness :
  exists m',
    mapper_from_partial_prior_arguments Examples.mapper_two
      [(Examples.p1, Prior.mk 7 (Prior.UniformPrior 0 4))] = Ok m' /\
    Forall2 (partially_substituted [(Examples.p1, Prior.mk 7 (Prior.UniformPrior 0 4))])
            (all_prior_tuples Examples.mapper_two) (all_prior_tuples m') /\
    ([(Examples.p1, Prior.mk 7 (Prior.UniformPrior 0 4))] = [] ->
     field_prior_ids m' = field_prior_ids Examples.mapper_two).
Proof.
  apply (partial_arguments_keep_the_other_priors Examples.mapper_two
           [(Examples.p1, Prior.mk 7 (Prior.UniformPrior 0 4))]).
  - cbn. repeat constructor; cbn; intuition discriminate.
  - cbn. repeat constructor; cbn; intuition.
Defined.

End RefinementExtras.

(* ===================================================================== *)
(** * Further facts about the fitness adapters *)
(* ===================================================================== *)

Module DriverMore.

Import ModelMapper NonLinear Observe Views PyFacts DriverFacts.

Lemma ltb_irrefl (x : float) : (x <? x)%float = false.
Proof.
  rewrite ltb_spec. unfold SFltb.
  destruct (Prim2SF x) as [ [|] | [|] | | [|] mx ex ]; cbn; try reflexivity;
    rewrite Z.compare_refl, ?Pos.compare_cont_refl, ?Pos.compare_refl; reflexivity.
Qed.

Lemma gt_irrefl (x : float) : gt x x = false.
Proof. apply ltb_irrefl. Qed.

Lemma saved_checkpoints_app (t1 t2 : list Event) :
  saved_checkpoints (t1 ++ t2) = saved_checkpoints t1 ++ saved_checkpoints t2.
Proof.
  induction t1 as [ | e t1 IH ]; cbn; auto.
  destruct e; cbn; auto. now rewrite IH.
Qed.

Lemma call_times_counting (k : nat) :
  forall c : IntervalCounter,
    interval c <> -1 -> interval c <> 0 ->
    call_times k c
    = (Ok (map (fun i => (count c + Z.of_nat i + 1) mod interval c =? 0) (seq 0 k)),
       mkIntervalCounter (count c + Z.of_nat k) (interval c)).
Proof.
  induction k as [ | k IH ]; intros c H1 H0.
  - cbn. unfold ret. destruct c as [n i]. cbn. now rewrite Z.add_0_r.
  - cbn [call_times]. unfold mbind at 1. unfold IntervalCounter_call.
    destruct (interval c =? -1) eqn:E1; [ apply Z.eqb_eq in E1; contradiction | ].
    cbn [interval count]. 
    destruct (interval c =? 0) eqn:E0; [ apply Z.eqb_eq in E0; contradiction | ].
    unfold mbind. rewrite IH by (cbn; assumption). unfold ret. cbn [interval count].
    f_equal.
    + f_equal. cbn [seq map]. f_equal.
      * now rewrite Z.add_0_r.
      * rewrite <- seq_shift, map_map. apply map_ext. intros i.
        do 2 f_equal. lia.
    + f_equal. lia.
Qed.

Section Driver.
Variable analysis_fit : ModelInstance -> outcome float.
Variable instance_add : ModelInstance -> ModelInstance -> ModelInstance.

(** What [fit_instance] leaves behind, whatever happens. *)
Lemma fit_instance_effect (instance : ModelInstance) (self : Fitness) :
  let (r, self') := fit_instance analysis_fit instance_add instance self in
  (best_recorded self -> best_recorded self') /\
  constant self' = constant self /\
  should_log self' = should_log self /\
  (max_likelihood self' = max_likelihood self /\ result self' = result self \/
   gt (max_likelihood self') (max_likelihood self) = true /\ result self' <> None) /\
  (exists rest, trace self' = trace self ++ rest /\
                filter is_output_results rest = [] /\
                saved_checkpoints rest = []) /\
  match r with
  | Ok likelihood =>
      max_likelihood self' = (if gt likelihood (max_likelihood self)
                              then likelihood else max_likelihood self) /\
      (gt likelihood (max_likelihood self) = true -> result self' <> None) /\
      gt likelihood (max_likelihood self') = false
  | Raise e =>
      max_likelihood self' = max_likelihood self /\ result self' = result self \/
      e = ZeroDivisionError
  end.
Proof.
  unfold fit_instance, mbind, get, emit, modify, lift, when, set_best, ret,
    call_should_visualise, call_should_backup, zoom, IntervalCounter_call,
    best_recorded.
  cbn -[gt].
  destruct (analysis_fit _) as [l | e]; cbn -[gt].
  { destruct (gt l (max_likelihood self)) eqn:G; cbn -[gt];
      repeat match goal with
             | |- context [ if ?b then _ else _ ] => destruct b; cbn -[gt]
             end;
      rewrite <- ?app_assoc; cbn -[gt];
      repeat split; auto; try discriminate; try apply gt_irrefl;
        try (right; split; [ assumption | discriminate ]);
        try (eexists; repeat split; reflexivity). }
  repeat split; auto. eexists; repeat split; reflexivity.
Qed.

Variable resolve : list float -> outcome ModelInstance.

(** The [try] block shared by the three adapters. *)
Lemma try_block_effect (vector : list float) (self : Fitness) :
  let (r, self') :=
    try_except_FitException
      (instance <~ lift (resolve vector) ;;
       fit_instance analysis_fit instance_add instance)
      (ret neg_inf) self in
  (exists rest, trace self' = trace self ++ rest /\
                filter is_output_results rest = []) /\
  match r with
  | Ok likelihood => gt likelihood (max_likelihood self') = false
  | Raise _ => True
  end.
Proof.
  unfold try_except_FitException, mbind at 1, lift at 1.
  destruct (resolve vector) as [instance | e].
  - pose proof (fit_instance_effect instance self) as H.
    destruct (fit_instance analysis_fit instance_add instance self) as [[l | e] self'].
    + destruct H as (_ & _ & _ & _ & (rest & Ht & Ho & _) & _ & _ & Hgt).
      split; eauto.
    + destruct H as (_ & _ & _ & _ & (rest & Ht & Ho & _) & _).
      destruct (is_FitException e); unfold ret; split; eauto.
      apply gt_neg_inf.
  - destruct (is_FitException e); unfold ret; split; auto;
      try (exists []; now rewrite app_nil_r).
    apply gt_neg_inf.
Qed.

Variable nlo : GridSearch.

Lemma GridSearch_call_unresolved (point : cube) (self : GridFitness) (e : exn) :
  checkpoint_count self < total_calls self + 1 ->
  resolve point = Raise e ->
  GridSearch_call analysis_fit instance_add nlo resolve point self
  = (if is_FitException e then Ok neg_inf else Raise e,
     with_total_calls self (total_calls self + 1)).
Proof.
  intros Hc Hr.
  unfold GridSearch_call, try_except_FitException, mbind, modify, get, lift, ret,
    with_total_calls.
  cbn [total_calls checkpoint_count base best_fit best_cube all_fits
       should_save_grid_results].
  destruct (total_calls self + 1 <=? checkpoint_count self) eqn:E;
    [ apply Z.leb_le in E; lia | ].
  rewrite Hr. now destruct (is_FitException e).
Qed.

Lemma GridSearch_call_fit_raise (point : cube) (self : GridFitness)
    (instance : ModelInstance) (e : exn) (b' : Fitness) :
  checkpoint_count self < total_calls self + 1 ->
  resolve point = Ok instance ->
  fit_instance analysis_fit instance_add instance (base self) = (Raise e, b') ->
  GridSearch_call analysis_fit instance_add nlo resolve point self
  = (if is_FitException e then Ok neg_inf else Raise e,
     mkGridFitness b' (total_calls self + 1) (checkpoint_count self) (best_fit self)
                   (best_cube self) (all_fits self) (should_save_grid_results self)).
Proof.
  intros Hc Hr Hf.
  unfold GridSearch_call, try_except_FitException, mbind, modify, get, lift, ret,
    gs_zoom, zoom.
  cbn [total_calls checkpoint_count base best_fit best_cube all_fits
       should_save_grid_results].
  destruct (total_calls self + 1 <=? checkpoint_count self) eqn:E;
    [ apply Z.leb_le in E; lia | ].
  rewrite Hr.
  cbn [total_calls checkpoint_count base best_fit best_cube all_fits
       should_save_grid_results].
  rewrite Hf. now destruct (is_FitException e).
Qed.

Lemma GridSearch_call_scored (point : cube) (self : GridFitness)
    (instance : ModelInstance) (l : float) (b' : Fitness) :
  checkpoint_count self < total_calls self + 1 ->
  resolve point = Ok instance ->
  fit_instance analysis_fit instance_add instance (base self) = (Ok l, b') ->
  let best_fit' := if gt l (best_fit self) then l else best_fit self in
  let best_cube' := if gt l (best_fit self) then Some point else best_cube self in
  let record := mkCheckpoint (total_calls self + 1) best_fit' best_cube'
                             (step_size nlo) (prior_count (variable nlo)) in
  let all_fits' := dict_set cube_eqb (all_fits self) point l in
  let saved := mkFitness (result b') (constant b') (max_likelihood b')
                         (should_log b') (should_visualise b') (should_backup b')
                         (trace b' ++ [EvSaveCheckpoint record]) in
  GridSearch_call analysis_fit instance_add nlo resolve point self
  = match IntervalCounter_call (should_save_grid_results self) with
    | (Ok fire, c') =>
        (Ok l,
         mkGridFitness
           (if fire
            then mkFitness (result b') (constant b') (max_likelihood b')
                           (should_log b') (should_visualise b') (should_backup b')
                           ((trace b' ++ [EvSaveCheckpoint record])
                              ++ [EvSaveResults (dict_items all_fits')])
            else saved)
           (total_calls self + 1) (checkpoint_count self) best_fit' best_cube'
           all_fits' c')
    | (Raise e, c') =>
        (if is_FitException e then Ok neg_inf else Raise e,
         mkGridFitness saved (total_calls self + 1) (checkpoint_count self)
                       best_fit' best_cube' all_fits' c')
    end.
Proof.
  intros Hc Hr Hf. cbn zeta.
  unfold GridSearch_call, try_except_FitException, when, gs_zoom,
    call_should_save_grid_results, emit, zoom, mbind, modify, get, lift, ret.
  cbn [total_calls checkpoint_count base best_fit best_cube all_fits
       should_save_grid_results].
  destruct (total_calls self + 1 <=? checkpoint_count self) eqn:E;
    [ apply Z.leb_le in E; lia | ].
  rewrite Hr.
  cbn [total_calls checkpoint_count base best_fit best_cube all_fits
       should_save_grid_results].
  rewrite Hf.
  cbn [total_calls checkpoint_count base best_fit best_cube all_fits
       should_save_grid_results].
  destruct (gt l (best_fit self));
    cbn [total_calls checkpoint_count base best_fit best_cube all_fits
         should_save_grid_results modify];
    destruct (IntervalCounter_call (should_save_grid_results self)) as [[fire | e] c'];
    cbn [total_calls checkpoint_count base best_fit best_cube all_fits
         should_save_grid_results result constant max_likelihood should_log
         should_visualise should_backup trace];
    try (destruct fire); try (destruct (is_FitException e)); reflexivity.
Qed.

(** Every call is counted, whatever becomes of it. *)
Lemma GridSearch_call_counts (point : cube) (self : GridFitness) :
  let (r, self') := GridSearch_call analysis_fit instance_add nlo resolve point self in
  total_calls self' = total_calls self + 1 /\
  checkpoint_count self' = checkpoint_count self.
Proof.
  destruct (Z_le_gt_dec (total_calls self + 1) (checkpoint_count self)) as [Hs | Hs].
  { rewrite GridSearch_call_skip by assumption. split; reflexivity. }
  destruct (resolve point) as [instance | e] eqn:Hr.
  2:{ rewrite (GridSearch_call_unresolved point self e) by (auto; lia).
      split; reflexivity. }
  destruct (fit_instance analysis_fit instance_add instance (base self))
    as [[l | e] b'] eqn:Hf.
  2:{ rewrite (GridSearch_call_fit_raise point self instance e b') by (auto; lia).
      split; reflexivity. }
  rewrite (GridSearch_call_scored point self instance l b') by (auto; lia).
  destruct (IntervalCounter_call (should_save_grid_results self)) as [[fire | e] c'];
    split; reflexivity.
Qed.

(** A call that returns leaves the adapter and its base class in step. *)
Lemma GridSearch_call_in_step (point : cube) (self : GridFitness) :
  in_step self ->
  let (r, self') := GridSearch_call analysis_fit instance_add nlo resolve point self in
  match r with
  | Ok _ => in_step self'
  | Raise _ => True
  end.
Proof.
  intros (Hbest & Hrec & Hnone).
  destruct (Z_le_gt_dec (total_calls self + 1) (checkpoint_count self)) as [Hs | Hs].
  { rewrite GridSearch_call_skip by assumption. repeat split; auto; apply Hnone. }
  destruct (resolve point) as [instance | e] eqn:Hr.
  2:{ rewrite (GridSearch_call_unresolved point self e) by (auto; lia).
      destruct (is_FitException e); auto. repeat split; auto; apply Hnone. }
  pose proof (fit_instance_effect instance (base self)) as H.
  destruct (fit_instance analysis_fit instance_add instance (base self))
    as [[l | e] b'] eqn:Hf.
  2:{ rewrite (GridSearch_call_fit_raise point self instance e b') by (auto; lia).
      destruct H as (Hrec' & _ & _ & _ & _ & [[Hm Hres] | ->]); cbn; auto.
      destruct (is_FitException e); auto.
      repeat split; cbn; auto; try congruence; rewrite Hres; apply Hnone. }
  rewrite (GridSearch_call_scored point self instance l b') by (auto; lia).
  destruct H as (Hrec' & _ & _ & Hsame & _ & Hmax & Hsome & _).
  assert (Hstep : forall c' tr,
             in_step (mkGridFitness
                        (mkFitness (result b') (constant b') (max_likelihood b')
                                   (should_log b') (should_visualise b')
                                   (should_backup b') tr)
                        (total_calls self + 1) (checkpoint_count self)
                        (if gt l (best_fit self) then l else best_fit self)
                        (if gt l (best_fit self) then Some point else best_cube self)
                        (dict_set cube_eqb (all_fits self) point l) c')).
  { intros c' tr. specialize (Hrec' Hrec). unfold in_step, best_recorded in *.
    cbn [base best_fit best_cube result max_likelihood].
    rewrite Hbest in *.
    destruct (gt l (max_likelihood (base self))) eqn:G.
    - split; [ congruence | ]. split; [ exact Hrec' | ].
      split; [ discriminate | ].
      intros Hn. exfalso. now apply Hsome.
    - destruct Hsame as [[_ Hres] | [Hgt _]].
      + split; [ congruence | ]. split; [ exact Hrec' | ].
        rewrite Hres. exact Hnone.
      + rewrite Hmax, gt_irrefl in Hgt. discriminate. }
  destruct (IntervalCounter_call (should_save_grid_results self)) as [[fire | e] c'].
  - destruct fire; apply Hstep.
  - destruct (is_FitException e); [ apply Hstep | exact I ].
Qed.

Lemma run_grid_in_step (points : list cube) :
  forall self self' : GridFitness,
    in_step self ->
    run_grid (GridSearch_call analysis_fit instance_add nlo resolve) points self
    = (Ok tt, self') ->
    in_step self'.
Proof.
  induction points as [ | point rest IH ]; intros self self' Hin Hrun.
  - cbn in Hrun. unfold ret in Hrun. now injection Hrun as <-.
  - cbn [run_grid] in Hrun. unfold mbind in Hrun.
    pose proof (GridSearch_call_in_step point self Hin) as Hcall.
    destruct (GridSearch_call analysis_fit instance_add nlo resolve point self)
      as [[x | e] mid]; [ | discriminate ].
    eapply IH; eauto.
Qed.

(** A run in which every point is rejected with [FitException]. *)
Lemma run_grid_rejected (constant_ : ModelInstance) (points : list cube) :
  (forall point, In point points ->
     exists instance, resolve point = Ok instance /\
                      analysis_fit (instance_add instance constant_)
                      = Raise FitException) ->
  forall self : GridFitness,
    constant (base self) = constant_ ->
    checkpoint_count self <= total_calls self ->
    exists self' evs,
      run_grid (GridSearch_call analysis_fit instance_add nlo resolve) points self
      = (Ok tt, self') /\
      best_cube self' = best_cube self /\
      all_fits self' = all_fits self /\
      trace (base self') = trace (base self) ++ evs /\
      count_fits evs = List.length points /\
      saved_checkpoints evs = [].
Proof.
  induction points as [ | point rest IH ]; intros Hall self Hc Hcount.
  - exists self, []. cbn. unfold ret. rewrite app_nil_r. repeat split; auto.
  - destruct (Hall point (or_introl eq_refl)) as (instance & Hr & Hfit).
    rewrite <- Hc in Hfit.
    pose proof (GridSearch_call_raise analysis_fit instance_add resolve nlo
                  point self instance FitException
                  ltac:(lia) Hr Hfit) as Hcall.
    cbn zeta in Hcall. cbn [is_FitException] in Hcall.
    set (mid := mkGridFitness
                  (evaluated (base self) (instance_add instance (constant (base self))))
                  (total_calls self + 1) (checkpoint_count self) (best_fit self)
                  (best_cube self) (all_fits self) (should_save_grid_results self))
      in *.
    destruct (IH (fun q Hq => Hall q (or_intror Hq)) mid) as
      (self' & evs & Hrun & Hcube & Hfits & Htr & Hn & Hsaved).
    { exact Hc. }
    { cbn. lia. }
    exists self', (EvFit (instance_add instance (constant (base self))) :: evs).
    cbn [run_grid]. unfold mbind. rewrite Hcall, Hrun.
    repeat split; auto.
    + rewrite Htr. cbn. now rewrite <- app_assoc.
    + unfold count_fits in *. cbn. now rewrite Hn.
Qed.

End Driver.

End DriverMore.

(* ===================================================================== *)
(** * Further properties of the fitness adapters and of the grid search *)
(* ===================================================================== *)

Section DriverExtras.

Import ModelMapper NonLinear Observe Views PyFacts DriverFacts DriverMore.

(** X12: an interval counter answers [True] exactly on the calls that
    bring its count to a multiple of the interval.  With the interval -1 it
    never fires and never counts; with the interval 0 its first call fails
    with [ZeroDivisionError], the count already advanced. *)
Theorem interval_counter_fires_on_multiples (c : IntervalCounter) (k : nat) :
  (interval c = -1 -> call_times k c = (Ok (repeat false k), c)) /\
  (interval c = 0 ->
   call_times (S k) c = (Raise ZeroDivisionError, mkIntervalCounter (count c + 1) 0)) /\
  (interval c <> -1 -> interval c <> 0 ->
   call_times k c
   = (Ok (map (fun i => (count c + Z.of_nat i + 1) mod interval c =? 0) (seq 0 k)),
      mkIntervalCounter (count c + Z.of_nat k) (interval c))).
Proof.
  split; [ | split ].
  - intros H. induction k as [ | k IH ]; [ reflexivity | ].
    cbn [call_times repeat]. unfold mbind at 1. unfold IntervalCounter_call.
    rewrite H. cbn [Z.eqb Pos.eqb]. unfold mbind. rewrite IH. reflexivity.
  - intros H. cbn [call_times]. unfold mbind at 1. unfold IntervalCounter_call.
    rewrite H. reflexivity.
  - apply call_times_counting.
Qed.

(** X13: [fit_instance] keeps the stored result and the stored maximum
    together, whatever the outcome of the call: the result carries the
    maximum as its figure of merit.  The maximum never goes down, the
    likelihood returned never exceeds it, and neither the constant nor the
    log counter is touched. *)
Theorem fit_instance_keeps_result_and_maximum_together
    (analysis_fit : ModelInstance -> outcome float)
    (instance_add : ModelInstance -> ModelInstance -> ModelInstance)
    (instance : ModelInstance) (self : Fitness) :
  best_recorded self ->
  let (r, self') := fit_instance analysis_fit instance_add instance self in
  best_recorded self' /\
  constant self' = constant self /\
  should_log self' = should_log self /\
  (max_likelihood self' = max_likelihood self \/
   gt (max_likelihood self') (max_likelihood self) = true) /\
  match r with
  | Ok likelihood => gt likelihood (max_likelihood self') = false
  | Raise _ => True
  end.
Proof.
  intros Hrec.
  pose proof (fit_instance_effect analysis_fit instance_add instance self) as H.
  destruct (fit_instance analysis_fit instance_add instance self) as [r self'].
  destruct H as (Hrec' & Hc & Hl & Hmax & _ & Hr).
  repeat split; auto.
  - destruct Hmax as [[Hm _] | [Hm _]]; auto.
  - destruct r as [l | e]; auto. apply Hr.
Qed.

Lemma fit_instance_keeps_result_and_maximum_together_witness :
  let (r, self') :=
    fit_instance Examples.first_value_fit Examples.keep_instance
      (Examples.instance_of 1) (Fitness_init Examples.conf10 [] []) in
  best_recorded self' /\
  constant self' = constant (Fitness_init Examples.conf10 [] []) /\
  should_log self' = should_log (Fitness_init Examples.conf10 [] []) /\
  (max_likelihood self' = max_likelihood (Fitness_init Examples.conf10 [] []) \/
   gt (max_likelihood self') (max_likelihood (Fitness_init Examples.conf10 [] []))
   = true) /\
  match r with
  | Ok likelihood => gt likelihood (max_likelihood self') = false
  | Raise _ => True
  end.
Proof.
  apply (fit_instance_keeps_result_and_maximum_together
           Examples.first_value_fit Examples.keep_instance
           (Examples.instance_of 1) (Fitness_init Examples.conf10 [] [])).
  reflexivity.
Defined.

(** X14: the MultiNest adapter compares the likelihood with a maximum
    that [fit_instance] has already raised to it, so the comparison never
    succeeds: whatever the call does, [accepted_samples] keeps its value and
    [output_results] is not called. *)
Theorem multinest_never_outputs_during_analysis
    (conf : GeneralConfig)
    (analysis_fit : ModelInstance -> outcome float)
    (instance_add : ModelInstance -> ModelInstance -> ModelInstance)
    (resolve : list float -> outcome ModelInstance)
    (cube : list float) (self : MultiNestFitness) :
  let (r, self') := MultiNest_call conf analysis_fit instance_add resolve cube self in
  accepted_samples self' = accepted_samples self /\
  exists rest,
    trace (mn_base self') = trace (mn_base self) ++ rest /\
    filter is_output_results rest = [].
Proof.
  pose proof (try_block_effect analysis_fit instance_add resolve cube (mn_base self))
    as H.
  unfold MultiNest_call, mn_zoom, zoom, mbind at 1.
  destruct (try_except_FitException _ _ (mn_base self)) as [[l | e] b'].
  - destruct H as [Htr Hgt]. unfold mbind, get, when.
    cbn [mn_base accepted_samples]. rewrite Hgt. unfold ret.
    cbn [mn_base accepted_samples]. split; auto.
  - destruct H as [Htr _]. cbn [mn_base accepted_samples]. split; auto.
Qed.

(** X15: the grid adapter counts every call, also a call that is skipped,
    rejected or that raises, and it never changes its checkpoint count: after
    a run that returns, [total_calls] has grown by the number of points; a
    run that raises has counted the points up to the one that raised. *)
Theorem grid_adapter_counts_every_call
    (analysis_fit : ModelInstance -> outcome float)
    (instance_add : ModelInstance -> ModelInstance -> ModelInstance)
    (nlo : GridSearch) (resolve : cube -> outcome ModelInstance)
    (points : list cube) (self : GridFitness) :
  let (r, self') :=
    run_grid (GridSearch_call analysis_fit instance_add nlo resolve) points self in
  checkpoint_count self' = checkpoint_count self /\
  match r with
  | Ok _ => total_calls self' = total_calls self + Z.of_nat (List.length points)
  | Raise _ => total_calls self < total_calls self'
               <= total_calls self + Z.of_nat (List.length points)
  end.
Proof.
  revert self. induction points as [ | point rest IH ]; intros self.
  - cbn. split; auto. lia.
  - cbn [run_grid]. unfold mbind.
    pose proof (GridSearch_call_counts analysis_fit instance_add resolve nlo
                  point self) as Hcall.
    destruct (GridSearch_call analysis_fit instance_add nlo resolve point self)
      as [[x | e] mid].
    + destruct Hcall as [Ht Hc]. specialize (IH mid).
      destruct (run_grid _ rest mid) as [[u | e] self'];
        destruct IH as [Hc' Ht']; split; try congruence;
        cbn [List.length]; lia.
    + destruct Hcall as [Ht Hc]. split; auto. cbn [List.length]. lia.
Qed.

(** X16: a call of the grid adapter that scores its point moves the best
    fit and the best cube only on a strict improvement, and writes one
    checkpoint holding the number of calls made so far, the
    best fit, the best cube, the step size and the prior count.  The same
    optimizer accepts that checkpoint and resumes from these values, unless
    its step size is not equal to itself. *)
Theorem scored_call_writes_a_resumable_checkpoint
    (analysis_fit : ModelInstance -> outcome float)
    (instance_add : ModelInstance -> ModelInstance -> ModelInstance)
    (nlo : GridSearch) (resolve : cube -> outcome ModelInstance)
    (point : cube) (self : GridFitness)
    (instance : ModelInstance) (l : float) (b' : Fitness) :
  checkpoint_count self < total_calls self + 1 ->
  resolve point = Ok instance ->
  fit_instance analysis_fit instance_add instance (base self) = (Ok l, b') ->
  let (r, self') := GridSearch_call analysis_fit instance_add nlo resolve point self in
  exists record,
    saved_checkpoints (trace (base self'))
    = saved_checkpoints (trace (base self)) ++ [record] /\
    record = mkCheckpoint (total_calls self') (best_fit self') (best_cube self')
                          (step_size nlo) (prior_count (variable nlo)) /\
    total_calls self' = total_calls self + 1 /\
    best_fit self' = (if gt l (best_fit self) then l else best_fit self) /\
    best_cube self' = (if gt l (best_fit self) then Some point else best_cube self) /\
    checkpoint_seed (with_checkpoint nlo record)
    = if feq (step_size nlo) (step_size nlo)
      then Ok (total_calls self', best_fit self', best_cube self')
      else Raise (CheckpointException
                    "The step size does not match that found in the checkpoint").
Proof.
  intros Hc Hr Hf.
  rewrite (GridSearch_call_scored analysis_fit instance_add resolve nlo
             point self instance l b' Hc Hr Hf).
  pose proof (fit_instance_effect analysis_fit instance_add instance (base self)) as H.
  rewrite Hf in H. destruct H as (_ & _ & _ & _ & (rest & Htr & _ & Hsaved) & _).
  assert (Hseed : forall record,
             cp_prior_count record = prior_count (variable nlo) ->
             cp_step_size record = step_size nlo ->
             checkpoint_seed (with_checkpoint nlo record)
             = if feq (step_size nlo) (step_size nlo)
               then Ok (cp_total_calls record, cp_best_fit record, cp_best_cube record)
               else Raise (CheckpointException
                             "The step size does not match that found in the checkpoint")).
  { intros record Hp Hs. unfold checkpoint_seed, with_checkpoint.
    cbn [checkpoint_file variable step_size]. rewrite Hp, Hs, Z.eqb_refl.
    cbn [negb]. now destruct (feq (step_size nlo) (step_size nlo)). }
  destruct (IntervalCounter_call (should_save_grid_results self)) as [[fire | e] c'].
  - eexists. cbn [base total_calls best_fit best_cube all_fits].
    split; [ | split; [ reflexivity | ] ].
    + destruct fire; cbn [trace]; rewrite Htr, !saved_checkpoints_app, Hsaved;
        cbn; rewrite ?app_nil_r; reflexivity.
    + repeat split; auto; now rewrite Hseed.
  - eexists. cbn [base total_calls best_fit best_cube all_fits trace].
    split; [ | split; [ reflexivity | ] ].
    + rewrite Htr, !saved_checkpoints_app, Hsaved. cbn.
      rewrite ?app_nil_r. reflexivity.
    + repeat split; auto; now rewrite Hseed.
Qed.

Lemma scored_call_writes_a_resumable_checkpoint_witness :
  let (r, self') :=
    GridSearch_call Examples.first_value_fit Examples.keep_instance
      Examples.grid_fresh Examples.resolve_first [0.5%float] Examples.grid_adapter in
  exists record,
    saved_checkpoints (trace (base self'))
    = saved_checkpoints (trace (base Examples.grid_adapter)) ++ [record] /\
    record = mkCheckpoint (total_calls self') (best_fit self') (best_cube self')
                          (step_size Examples.grid_fresh)
                          (prior_count (variable Examples.grid_fresh)) /\
    total_calls self' = total_calls Examples.grid_adapter + 1 /\
    best_fit self' = (if gt 0.5%float (best_fit Examples.grid_adapter)
                      then 0.5%float else best_fit Examples.grid_adapter) /\
    best_cube self' = (if gt 0.5%float (best_fit Examples.grid_adapter)
                       then Some [0.5%float] else best_cube Examples.grid_adapter) /\
    checkpoint_seed (with_checkpoint Examples.grid_fresh record)
    = if feq (step_size Examples.grid_fresh) (step_size Examples.grid_fresh)
      then Ok (total_calls self', best_fit self', best_cube self')
      else Raise (CheckpointException
                    "The step size does not match that found in the checkpoint").
Proof.
  apply (scored_call_writes_a_resumable_checkpoint
           Examples.first_value_fit Examples.keep_instance
           Examples.grid_fresh Examples.resolve_first [0.5%float]
           Examples.grid_adapter (Examples.instance_of 0.5) 0.5%float
           (snd (fit_instance Examples.first_value_fit Examples.keep_instance
                   (Examples.instance_of 0.5) (base Examples.grid_adapter)))).
  - cbn. lia.
  - reflexivity.
  - reflexivity.
Defined.

(** X17: a grid search that starts without a checkpoint and whose
    analysis rejects every point with [FitException] returns no result: after
    one evaluation for each point of the grid, and without ever writing a
    checkpoint, [fit] fails with [TypeError], there being no best cube to
    refine the mapper from.  An empty grid is the same case. *)
Theorem grid_search_without_a_scored_point_fails
    (conf : GeneralConfig)
    (analysis_fit : ModelInstance -> outcome float)
    (instance_add : ModelInstance -> ModelInstance -> ModelInstance)
    (value_for : Prior.t -> float -> float)
    (prior_width : string -> string -> string * float)
    (prior_limit : string -> string -> float * float)
    (grid_points : Z -> float -> list cube)
    (self : GridSearch) (next_id : Z) :
  checkpoint_file self = None ->
  (forall point,
      In point (grid_points (prior_count (variable self)) (step_size self)) ->
      exists instance,
        instance_from_unit_vector value_for (variable self) point = Ok instance /\
        analysis_fit (instance_add instance (gs_constant self)) = Raise FitException) ->
  exists evs,
    GridSearch_fit conf analysis_fit instance_add value_for prior_width prior_limit
      grid_points self next_id
    = (Raise TypeError, EvSaveModelInfo :: evs) /\
    count_fits evs
    = List.length (grid_points (prior_count (variable self)) (step_size self)) /\
    saved_checkpoints evs = [].
Proof.
  intros Hfile Hall.
  unfold GridSearch_fit, checkpoint_seed. rewrite Hfile.
  unfold GridSearch_fit_seeded, GridSearch_Fitness_init.
  set (initial := mkGridFitness (Fitness_init conf (gs_constant self) [EvSaveModelInfo])
                                0 0 neg_inf None []
                                (IntervalCounter_init (grid_results_interval conf))).
  destruct (run_grid_rejected analysis_fit instance_add
              (instance_from_unit_vector value_for (variable self)) self
              (gs_constant self) _ Hall initial) as
    (final & evs & Hrun & Hcube & Hfits & Htr & Hn & Hsaved).
  { reflexivity. }
  { cbn. lia. }
  rewrite Hrun. unfold GridSearch_fit_result. rewrite Hfits, Hcube.
  cbn [initial all_fits best_cube dict_items resolve_all bind].
  exists evs. rewrite Htr. cbn. repeat split; auto.
Qed.

Lemma grid_search_without_a_scored_point_fails_witness :
  exists evs,
    GridSearch_fit Examples.conf10 Examples.reject_all Examples.keep_instance
      Examples.uniform_value_for Examples.no_width Examples.no_limit
      Examples.seven_points Examples.grid_fresh 100
    = (Raise TypeError, EvSaveModelInfo :: evs) /\
    count_fits evs
    = List.length (Examples.seven_points
                     (prior_count (variable Examples.grid_fresh))
                     (step_size Examples.grid_fresh)) /\
    saved_checkpoints evs = [].
Proof.
  apply (grid_search_without_a_scored_point_fails Examples.conf10 Examples.reject_all
           Examples.keep_instance Examples.uniform_value_for Examples.no_width
           Examples.no_limit Examples.seven_points Examples.grid_fresh 100).
  - reflexivity.
  - intros point Hin.
    destruct (MapperFacts.instance_from_unit_vector_ok Examples.uniform_value_for
                Examples.mapper_two point) as [instance Hi].
    + cbn in Hin.
      repeat (destruct Hin as [<- | Hin]; [ cbn; lia | ]). contradiction.
    + exists instance. split; [ exact Hi | reflexivity ].
Defined.

(** X18: a checkpoint written for the same number of parameters but for
    another step size stops [fit] with the second [CheckpointException],
    before anything is evaluated. *)
Theorem checkpoint_with_other_step_size_is_refused
    (conf : GeneralConfig)
    (analysis_fit : ModelInstance -> outcome float)
    (instance_add : ModelInstance -> ModelInstance -> ModelInstance)
    (value_for : Prior.t -> float -> float)
    (prior_width : string -> string -> string * float)
    (prior_limit : string -> string -> float * float)
    (grid_points : Z -> float -> list cube)
    (self : GridSearch) (cp : Checkpoint) (next_id : Z) :
  checkpoint_file self = Some cp ->
  cp_prior_count cp = prior_count (variable self) ->
  feq (cp_step_size cp) (step_size self) = false ->
  GridSearch_fit conf analysis_fit instance_add value_for prior_width prior_limit
    grid_points self next_id
  = (Raise (CheckpointException
              "The step size does not match that found in the checkpoint"),
     [EvSaveModelInfo]).
Proof.
  intros Hfile Hp Hs. unfold GridSearch_fit, checkpoint_seed.
  rewrite Hfile, Hp, Z.eqb_refl, Hs. reflexivity.
Qed.

Lemma checkpoint_with_other_step_size_is_refused_witness :
  GridSearch_fit Examples.conf10 Examples.first_value_fit Examples.keep_instance
    Examples.uniform_value_for Examples.no_width Examples.no_limit
    Examples.seven_points
    (with_checkpoint Examples.grid_fresh
       (mkCheckpoint 5 (-3.5) (Some [0.5; 0.25]%float) 0.5 2)) 100
  = (Raise (CheckpointException
              "The step size does not match that found in the checkpoint"),
     [EvSaveModelInfo]).
Proof.
  apply (checkpoint_with_other_step_size_is_refused Examples.conf10
           Examples.first_value_fit Examples.keep_instance
           Examples.uniform_value_for Examples.no_width Examples.no_limit
           Examples.seven_points
           (with_checkpoint Examples.grid_fresh
              (mkCheckpoint 5 (-3.5) (Some [0.5; 0.25]%float) 0.5 2))
           (mkCheckpoint 5 (-3.5) (Some [0.5; 0.25]%float) 0.5 2) 100).
  - reflexivity.
  - reflexivity.
  - reflexivity.
Defined.

(** X19: in a grid search that starts without a checkpoint the adapter's
    best fit is the likelihood of the result stored by its base class, at
    every point of a run that has not raised.  So when [fit] returns, the
    figure of merit of its result is the adapter's best fit, and the refined
    mapper is made from the adapter's best cube. *)
Theorem fresh_grid_search_reports_the_best_fit
    (conf : GeneralConfig)
    (analysis_fit : ModelInstance -> outcome float)
    (instance_add : ModelInstance -> ModelInstance -> ModelInstance)
    (value_for : Prior.t -> float -> float)
    (prior_width : string -> string -> string * float)
    (prior_limit : string -> string -> float * float)
    (grid_points : Z -> float -> list cube)
    (self : GridSearch) (next_id : Z) :
  checkpoint_file self = None ->
  let resolve := instance_from_unit_vector value_for (variable self) in
  let initial :=
    snd (GridSearch_Fitness_init conf analysis_fit instance_add resolve
           (gs_constant self) [EvSaveModelInfo] 0 neg_inf None) in
  in_step initial /\
  (forall points final,
      run_grid (GridSearch_call analysis_fit instance_add self resolve) points initial
      = (Ok tt, final) ->
      in_step final) /\
  match GridSearch_fit conf analysis_fit instance_add value_for prior_width
          prior_limit grid_points self next_id with
  | (Ok res, tr) =>
      exists final c,
        run_grid (GridSearch_call analysis_fit instance_add self resolve)
                 (grid_points (prior_count (variable self)) (step_size self)) initial
        = (Ok tt, final) /\
        best_cube final = Some c /\
        gr_figure_of_merit res = best_fit final /\
        mapper_from_gaussian_means prior_width prior_limit (variable self) c next_id
        = Ok (gr_variable res) /\
        tr = trace (base final) ++ [EvVisualize (gr_constant res) false; EvBackup]
  | (Raise _, _) => True
  end.
Proof.
  intros Hfile resolve initial.
  assert (Hinit : in_step initial).
  { unfold initial, GridSearch_Fitness_init. cbn. repeat split; auto. }
  assert (Hrun : forall points final,
             run_grid (GridSearch_call analysis_fit instance_add self resolve)
                      points initial = (Ok tt, final) -> in_step final).
  { intros points final. apply run_grid_in_step. exact Hinit. }
  split; [ exact Hinit | ]. split; [ exact Hrun | ].
  unfold GridSearch_fit, checkpoint_seed. rewrite Hfile.
  unfold GridSearch_fit_seeded. fold resolve.
  change (GridSearch_Fitness_init conf analysis_fit instance_add resolve
            (gs_constant self) [EvSaveModelInfo] 0 neg_inf None)
    with (Ok tt, initial).
  cbv beta iota.
  destruct (run_grid (GridSearch_call analysis_fit instance_add self resolve)
              (grid_points (prior_count (variable self)) (step_size self)) initial)
    as [[[] | e] final] eqn:Erun; [ | exact I ].
  pose proof (Hrun _ _ Erun) as (Hbest & Hrec & Hnone).
  unfold GridSearch_fit_result.
  destruct (resolve_all _ _) as [instances | e]; cbn [bind]; [ | exact I ].
  destruct (best_cube final) as [c | ] eqn:Ecube; cbn [bind]; [ | exact I ].
  destruct (mapper_from_gaussian_means prior_width prior_limit (variable self) c
              next_id) as [new_variable | e] eqn:Emap; cbn [bind]; [ | exact I ].
  unfold best_recorded in Hrec.
  destruct (result (base final)) as [r | ] eqn:Eres; [ | exact I ].
  exists final, c. cbn [gr_figure_of_merit gr_variable gr_constant].
  repeat split; auto. congruence.
Qed.

Lemma fresh_grid_search_reports_the_best_fit_witness :
  (exists res tr,
      GridSearch_fit Examples.conf10 Examples.first_value_fit Examples.keep_instance
        Examples.uniform_value_for Examples.no_width Examples.no_limit
        Examples.seven_points Examples.grid_fresh 100 = (Ok res, tr)) /\
  let resolve := instance_from_unit_vector Examples.uniform_value_for
                   (variable Examples.grid_fresh) in
  let initial :=
    snd (GridSearch_Fitness_init Examples.conf10 Examples.first_value_fit
           Examples.keep_instance resolve
           (gs_constant Examples.grid_fresh) [EvSaveModelInfo] 0 neg_inf None) in
  in_step initial /\
  (forall points final,
      run_grid (GridSearch_call Examples.first_value_fit Examples.keep_instance
                  Examples.grid_fresh resolve) points initial
      = (Ok tt, final) ->
      in_step final) /\
  match GridSearch_fit Examples.conf10 Examples.first_value_fit Examples.keep_instance
          Examples.uniform_value_for Examples.no_width Examples.no_limit
          Examples.seven_points Examples.grid_fresh 100 with
  | (Ok res, tr) =>
      exists final c,
        run_grid (GridSearch_call Examples.first_value_fit Examples.keep_instance
                    Examples.grid_fresh resolve)
                 (Examples.seven_points (prior_count (variable Examples.grid_fresh))
                    (step_size Examples.grid_fresh)) initial
        = (Ok tt, final) /\
        best_cube final = Some c /\
        gr_figure_of_merit res = best_fit final /\
        mapper_from_gaussian_means Examples.no_width Examples.no_limit
          (variable Examples.grid_fresh) c 100
        = Ok (gr_variable res) /\
        tr = trace (base final) ++ [EvVisualize (gr_constant res) false; EvBackup]
  | (Raise _, _) => True
  end.
Proof.
  split.
  - eexists. eexists. vm_compute. reflexivity.
  - apply (fresh_grid_search_reports_the_best_fit Examples.conf10
             Examples.first_value_fit Examples.keep_instance
             Examples.uniform_value_for Examples.no_width Examples.no_limit
             Examples.seven_points Examples.grid_fresh 100).
    reflexivity.
Defined.

End DriverExtras.

(* ===================================================================== *)
(** * Dictionaries keyed by strings *)
(* ===================================================================== *)

Module StringDict.

Section Facts.
Context {V : Type}.

Lemma sget_set (d : dict string V) (k : string) (v : V) (k' : string) :
  dict_get String.eqb (dict_set String.eqb d k v) k'
  = if (k' =? k)%string then Some v else dict_get String.eqb d k'.
Proof.
  induction d as [ | [k1 v1] d IH ]; cbn.
  - reflexivity.
  - destruct (k =? k1)%string eqn:E; cbn.
    + apply String.eqb_eq in E. subst k1. now destruct (k' =? k)%string.
    + destruct (k' =? k1)%string eqn:E1.
      * apply String.eqb_eq in E1. subst k1. rewrite String.eqb_sym, E. reflexivity.
      * exact IH.
Qed.

Lemma sget_None (d : dict string V) (k : string) :
  dict_get String.eqb d k = None <-> ~ In k (dict_keys d).
Proof.
  unfold dict_keys. induction d as [ | [k1 v1] d IH ]; cbn.
  - tauto.
  - destruct (k =? k1)%string eqn:E.
    + apply String.eqb_eq in E. split; [ discriminate | intuition congruence ].
    + apply String.eqb_neq in E. rewrite IH. intuition congruence.
Qed.

Lemma sget_In (d : dict string V) (k : string) (v : V) :
  dict_get String.eqb d k = Some v -> In (k, v) d.
Proof.
  induction d as [ | [k1 v1] d IH ]; cbn; [ discriminate | ].
  destruct (k =? k1)%string eqn:E; auto.
  apply String.eqb_eq in E. intros H. injection H as <-. left. congruence.
Qed.

Lemma sset_same (d : dict string V) (k : string) (v : V) :
  dict_get String.eqb d k = Some v -> dict_set String.eqb d k v = d.
Proof.
  induction d as [ | [k1 v1] d IH ]; cbn; [ discriminate | ].
  destruct (k =? k1)%string; intros H.
  - now injection H as <-.
  - now rewrite IH.
Qed.

Lemma skeys_set (d : dict string V) (k : string) (v : V) :
  dict_keys (dict_set String.eqb d k v)
  = match dict_get String.eqb d k with
    | Some _ => dict_keys d
    | None => dict_keys d ++ [k]
    end.
Proof.
  unfold dict_keys. induction d as [ | [k1 v1] d IH ]; cbn; auto.
  destruct (k =? k1)%string; cbn; auto.
  rewrite IH. now destruct (dict_get String.eqb d k).
Qed.

End Facts.

End StringDict.

(* ===================================================================== *)
(** * Further facts about instances and the class dictionary *)
(* ===================================================================== *)

Module InstanceFacts.

Import PriorModel ModelMapper Observe PyFacts MapperFacts OrderFacts StringDict.

Lemma prior_model_tuples_cons (k : string) (a : Attr) (d : dict string Attr) :
  prior_model_tuples (ModelMapper.mk ((k, a) :: d))
  = match a with
    | APriorModel pm => [(k, pm)]
    | APlain _ => []
    end ++ prior_model_tuples (ModelMapper.mk d).
Proof. reflexivity. Qed.

Lemma instance_tuples_cons (k : string) (a : Attr) (d : dict string Attr) :
  instance_tuples (ModelMapper.mk ((k, a) :: d))
  = match a with
    | APlain v => if (k =? "id")%string then [] else [(k, v)]
    | APriorModel _ => []
    end ++ instance_tuples (ModelMapper.mk d).
Proof. reflexivity. Qed.

Lemma prior_model_tuples_keys (d : dict string Attr) (k : string) :
  In k (map fst (prior_model_tuples (ModelMapper.mk d))) -> In k (dict_keys d).
Proof.
  unfold dict_keys. induction d as [ | [k1 a] d IH ]; [ auto | ].
  rewrite prior_model_tuples_cons, map_app, in_app_iff. cbn [map fst].
  intros [H | H]; [ | right; auto ].
  destruct a; cbn in H; [ | contradiction ]. destruct H as [ <- | [] ]. now left.
Qed.

Lemma instance_tuples_keys (d : dict string Attr) (k : string) :
  In k (map fst (instance_tuples (ModelMapper.mk d))) -> In k (dict_keys d).
Proof.
  unfold dict_keys. induction d as [ | [k1 a] d IH ]; [ auto | ].
  rewrite instance_tuples_cons, map_app, in_app_iff. cbn [map fst].
  intros [H | H]; [ | right; auto ].
  destruct a; cbn in H; [ contradiction | ].
  destruct (k1 =? "id")%string; cbn in H; [ contradiction | ].
  destruct H as [ <- | [] ]. now left.
Qed.

Lemma prior_model_tuples_NoDup (d : dict string Attr) :
  NoDup (dict_keys d) -> NoDup (map fst (prior_model_tuples (ModelMapper.mk d))).
Proof.
  unfold dict_keys. induction d as [ | [k a] d IH ]; intros H.
  - constructor.
  - inversion H as [ | ? ? Hk Hd ]; subst. rewrite prior_model_tuples_cons, map_app.
    destruct a; cbn [map app fst]; auto.
    constructor; auto. intros Hin. now apply Hk, prior_model_tuples_keys.
Qed.

Lemma instance_tuples_NoDup (d : dict string Attr) :
  NoDup (dict_keys d) -> NoDup (map fst (instance_tuples (ModelMapper.mk d))).
Proof.
  unfold dict_keys. induction d as [ | [k a] d IH ]; intros H.
  - constructor.
  - inversion H as [ | ? ? Hk Hd ]; subst. rewrite instance_tuples_cons, map_app.
    destruct a; cbn [map app fst]; auto.
    destruct (k =? "id")%string; cbn [map app fst]; auto.
    constructor; auto. intros Hin. now apply Hk, instance_tuples_keys.
Qed.

Lemma prior_model_tuples_get (d : dict string Attr) (name : string) :
  NoDup (dict_keys d) ->
  dict_get String.eqb (prior_model_tuples (ModelMapper.mk d)) name
  = match dict_get String.eqb d name with
    | Some (APriorModel pm) => Some pm
    | _ => None
    end.
Proof.
  unfold dict_keys. induction d as [ | [k a] d IH ]; intros H; [ reflexivity | ].
  inversion H as [ | ? ? Hk Hd ]; subst. rewrite prior_model_tuples_cons.
  cbn [dict_get]. destruct (name =? k)%string eqn:E.
  - apply String.eqb_eq in E. subst name. destruct a; cbn.
    + now rewrite String.eqb_refl.
    + apply sget_None. intros Hin. now apply Hk, prior_model_tuples_keys.
  - destruct a; cbn; [ rewrite E | ]; now apply IH.
Qed.

Lemma instance_tuples_get (d : dict string Attr) (name : string) :
  NoDup (dict_keys d) ->
  dict_get String.eqb (instance_tuples (ModelMapper.mk d)) name
  = match dict_get String.eqb d name with
    | Some (APlain v) => if (name =? "id")%string then None else Some v
    | _ => None
    end.
Proof.
  unfold dict_keys. induction d as [ | [k a] d IH ]; intros H; [ reflexivity | ].
  inversion H as [ | ? ? Hk Hd ]; subst. rewrite instance_tuples_cons.
  cbn [dict_get]. destruct (name =? k)%string eqn:E.
  - apply String.eqb_eq in E. subst name. destruct a; cbn.
    + apply sget_None. intros Hin. now apply Hk, instance_tuples_keys.
    + destruct (k =? "id")%string; cbn.
      * apply sget_None. intros Hin. now apply Hk, instance_tuples_keys.
      * now rewrite String.eqb_refl.
  - destruct a; cbn; try (now apply IH).
    destruct (k =? "id")%string; cbn; [ | rewrite E ]; now apply IH.
Qed.

Lemma resolve_prior_models_get (arguments : dict Prior.t float)
    (pms : list (string * PriorModel.t)) :
  NoDup (map fst pms) ->
  forall (acc model_instance : ModelInstance),
    resolve_prior_models arguments pms acc = Ok model_instance ->
    forall name,
      dict_get String.eqb model_instance name
      = match dict_get String.eqb pms name with
        | Some pm =>
            match PriorModel.instance_for_arguments pm arguments with
            | Ok o => Some (IObject o)
            | Raise _ => None
            end
        | None => dict_get String.eqb acc name
        end.
Proof.
  induction pms as [ | [n pm] pms IH ]; intros Hnd acc mi Hres name.
  - cbn in Hres. now injection Hres as <-.
  - inversion Hnd as [ | ? ? Hn Hnd' ]; subst. cbn [resolve_prior_models] in Hres.
    destruct (PriorModel.instance_for_arguments pm arguments) as [o | e] eqn:Eo;
      cbn [bind] in Hres; [ | discriminate ].
    rewrite (IH Hnd' _ _ Hres name). cbn [dict_get].
    destruct (name =? n)%string eqn:E.
    + apply String.eqb_eq in E. subst name.
      assert (Hnone : dict_get String.eqb pms n = None) by now apply sget_None.
      rewrite Hnone, sget_set, String.eqb_refl, Eo. reflexivity.
    + destruct (dict_get String.eqb pms name); auto.
      now rewrite sget_set, E.
Qed.

Lemma fold_plain_get (tuples : list (string * PlainValue)) :
  NoDup (map fst tuples) ->
  forall (acc : ModelInstance) name,
    dict_get String.eqb
      (fold_left (fun mi nv => dict_set String.eqb mi (fst nv) (IPlain (snd nv)))
                 tuples acc) name
    = match dict_get String.eqb tuples name with
      | Some v => Some (IPlain v)
      | None => dict_get String.eqb acc name
      end.
Proof.
  induction tuples as [ | [n v] tuples IH ]; intros Hnd acc name; [ reflexivity | ].
  inversion Hnd as [ | ? ? Hn Hnd' ]; subst. cbn [fold_left fst snd dict_get].
  rewrite (IH Hnd'). destruct (name =? n)%string eqn:E.
  - apply String.eqb_eq in E. subst name.
    assert (Hnone : dict_get String.eqb tuples n = None) by now apply sget_None.
    now rewrite Hnone, sget_set, String.eqb_refl.
  - destruct (dict_get String.eqb tuples name); auto.
    now rewrite sget_set, E.
Qed.

(** An entry of a dictionary built from pairs is one of the pairs. *)
Lemma dict_get_of_list {V} (pairs : list (Prior.t * V)) (p : Prior.t) (v : V) :
  dict_get Prior.eqb (dict_of_list Prior.eqb pairs) p = Some v ->
  exists q, In (q, v) pairs /\ Prior.id q = Prior.id p.
Proof.
  intros H.
  assert (Hin : exists k0, In (k0, v) (dict_of_list Prior.eqb pairs)
                           /\ Prior.id k0 = Prior.id p).
  { clear - H. induction (dict_of_list Prior.eqb pairs) as [ | [k1 v1] d IH ];
      cbn in H; [ discriminate | ].
    rewrite Prior_eqb_id in H. destruct (Prior.id p =? Prior.id k1) eqn:E.
    - apply Z.eqb_eq in E. injection H as <-. exists k1. split; [ now left | auto ].
    - destruct (IH H) as (k0 & Hk & Hid). exists k0. split; [ now right | auto ]. }
  destruct Hin as (k0 & Hk & Hid).
  destruct (dict_of_list_last Prior.eqb Prior.id Prior_eqb_id pairs k0 v Hk)
    as (l1 & l2 & k' & -> & Hk' & _).
  exists k'. split; [ apply in_elt | congruence ].
Qed.

End InstanceFacts.

(* ===================================================================== *)
(** * Further properties of instances and of the class dictionary *)
(* ===================================================================== *)

Section InstanceExtras.

Import PriorModel ModelMapper Observe PyFacts MapperFacts OrderFacts StringDict
  InstanceFacts.

(** X20: the instance that [instance_for_arguments] returns mirrors the
    mapper, attribute by attribute: a prior model is replaced by its
    instance for the arguments, any other attribute is passed on as it is,
    except for an attribute called [id], which is left out; the instance has
    no other attribute. *)
Theorem instance_mirrors_the_mapper
    (m : ModelMapper.t) (arguments : dict Prior.t float) (instance : ModelInstance) :
  NoDup (dict_keys (attrs m)) ->
  instance_for_arguments m arguments = Ok instance ->
  forall name,
    dict_get String.eqb instance name
    = match dict_get String.eqb (attrs m) name with
      | Some (APriorModel pm) =>
          match PriorModel.instance_for_arguments pm arguments with
          | Ok o => Some (IObject o)
          | Raise _ => None
          end
      | Some (APlain v) => if (name =? "id")%string then None else Some (IPlain v)
      | None => None
      end.
Proof.
  intros Hnd Hinst name. destruct m as [d]. cbn [attrs] in *.
  unfold instance_for_arguments in Hinst.
  destruct (resolve_prior_models arguments (prior_model_tuples (ModelMapper.mk d)) [])
    as [mi | e] eqn:Eres; cbn [bind] in Hinst; [ | discriminate ].
  injection Hinst as <-.
  rewrite (fold_plain_get _ (instance_tuples_NoDup d Hnd)).
  rewrite (resolve_prior_models_get arguments _ (prior_model_tuples_NoDup d Hnd)
             _ _ Eres).
  rewrite (instance_tuples_get d name Hnd), (prior_model_tuples_get d name Hnd).
  destruct (dict_get String.eqb d name) as [ [pm | v] | ]; cbn [dict_get]; auto.
  now destruct (name =? "id")%string.
Qed.

Lemma instance_mirrors_the_mapper_witness :
  dict_get String.eqb
    [("profile"%string, IObject [("centre_0"%string, 0.25%float);
                                 ("centre_1"%string, 0.5%float)])]
    "id"%string
  = match dict_get String.eqb (attrs Examples.mapper_two) "id"%string with
    | Some (APriorModel pm) =>
        match PriorModel.instance_for_arguments pm
                [(Examples.p0, 0.25%float); (Examples.p1, 0.5%float)] with
        | Ok o => Some (IObject o)
        | Raise _ => None
        end
    | Some (APlain v) => if ("id" =? "id")%string then None else Some (IPlain v)
    | None => None
    end.
Proof.
  apply (instance_mirrors_the_mapper Examples.mapper_two
           [(Examples.p0, 0.25%float); (Examples.p1, 0.5%float)]
           [("profile"%string, IObject [("centre_0"%string, 0.25%float);
                                        ("centre_1"%string, 0.5%float)])]).
  - cbn. repeat constructor; cbn; intuition discriminate.
  - reflexivity.
Defined.

(** X21: [prior_class_dict] has exactly one entry for each distinct prior
    of the mapper, so as many entries as the mapper has parameters, and the
    class it gives a prior is the owning class of a field that holds this
    prior. *)
Theorem prior_class_dict_one_class_per_prior (m : ModelMapper.t) :
  NoDup (key_ids Prior.id (prior_class_dict m)) /\
  (forall z, In z (key_ids Prior.id (prior_class_dict m)) <-> In z (field_prior_ids m)) /\
  Z.of_nat (List.length (prior_class_dict m)) = prior_count m /\
  forall p c,
    dict_get Prior.eqb (prior_class_dict m) p = Some c ->
    exists name pm f q,
      In (name, pm) (prior_model_tuples m) /\ In f (fields pm) /\
      field_value f = FPrior q /\ Prior.id q = Prior.id p /\ field_cls f = c.
Proof.
  assert (Hentry : forall q c,
             In (q, c) (flat_map (fun npm => dict_items
                                    (PriorModel.prior_class_dict (snd npm)))
                                 (prior_model_tuples m)) ->
             exists name pm f q',
               In (name, pm) (prior_model_tuples m) /\ In f (fields pm) /\
               field_value f = FPrior q' /\ Prior.id q' = Prior.id q /\
               field_cls f = c).
  { intros q c Hin. apply in_flat_map in Hin. destruct Hin as ([name pm] & Hpm & Hin).
    cbn [snd] in Hin. unfold dict_items, PriorModel.prior_class_dict in Hin.
    destruct (dict_of_list_last Prior.eqb Prior.id Prior_eqb_id _ q c Hin)
      as (l1 & l2 & k' & Hpairs & Hk' & _).
    assert (Hf : In (k', c)
                    (flat_map (fun f => match field_value f with
                                        | FPrior p => [(p, field_cls f)]
                                        | FConstant _ => []
                                        end) (fields pm))).
    { rewrite Hpairs. apply in_elt. }
    apply in_flat_map in Hf. destruct Hf as (f & Hf & Hin').
    destruct (field_value f) as [q' | ] eqn:Ev; [ | destruct Hin' ].
    destruct Hin' as [ Heq | [] ]. injection Heq as -> <-.
    exists name, pm, f, k'. repeat split; auto. }
  assert (Hnd : NoDup (key_ids Prior.id (prior_class_dict m))).
  { unfold prior_class_dict, dict_of_list.
    apply (key_ids_update_NoDup Prior.eqb Prior.id Prior_eqb_id). constructor. }
  assert (Hset : forall z, In z (key_ids Prior.id (prior_class_dict m))
                           <-> In z (field_prior_ids m)).
  { intros z. split; [ | apply prior_class_dict_covers ].
    unfold prior_class_dict, dict_of_list. intros Hz.
    apply (key_ids_update_In Prior.eqb Prior.id Prior_eqb_id) in Hz.
    destruct Hz as [ [] | Hz ]. rewrite map_map in Hz. apply in_map_iff in Hz.
    destruct Hz as ([q c] & <- & Hin). cbn [fst].
    destruct (Hentry q c Hin) as (name & pm & f & q' & Hpm & Hf & Hv & Hid & _).
    rewrite <- Hid. eapply field_prior_in_mapper; eauto. }
  repeat split; auto; try apply Hset.
  - rewrite prior_count_distinct. f_equal.
    transitivity (List.length (key_ids Prior.id (prior_class_dict m))).
    { unfold key_ids, dict_keys. now rewrite !length_map. }
    apply Nat.le_antisymm; apply NoDup_incl_length; auto using NoDup_nodup.
    + intros z Hz. apply nodup_In. now apply Hset.
    + intros z Hz. apply nodup_In in Hz. now apply Hset.
  - intros p c Hget. unfold prior_class_dict in Hget.
    destruct (dict_get_of_list _ p c Hget) as (q & Hin & Hid).
    destruct (Hentry q c Hin) as (name & pm & f & q' & Hpm & Hf & Hv & Hid' & Hc).
    exists name, pm, f, q'. repeat split; auto. congruence.
Qed.

End InstanceExtras.

(* ===================================================================== *)
(** * Facts about info dictionaries *)
(* ===================================================================== *)

Module InfoFacts.

Import NonLinear Info InfoViews StringDict.
Local Open Scope string_scope.

Lemma length_append (s1 s2 : string) :
  String.length (s1 ++ s2) = (String.length s1 + String.length s2)%nat.
Proof. induction s1 as [ | c s1 IH ]; cbn; auto. Qed.

Lemma len_append (s1 s2 : string) : len (s1 ++ s2) = len s1 + len s2.
Proof. unfold len. rewrite length_append. lia. Qed.

Lemma len_str_mul (n : Z) : len (str_mul n " ") = Z.max n 0.
Proof.
  unfold len, str_mul.
  assert (H : forall k, String.length (repeat_string k " ") = k).
  { induction k as [ | k IH ]; cbn; auto. }
  rewrite H. lia.
Qed.

Section Items.
Context {Item : Type}.
Variable str : Item -> string.

Lemma value_lines_Nested (line_length indent : Z) (key : string)
    (info_dict : dict string (info Item)) :
  value_lines str line_length indent key (Nested info_dict)
  = key :: map (fun line => str_mul indent " " ++ line)
               (info_dict_to_list str info_dict (line_length - indent) indent).
Proof.
  cbn [value_lines]. f_equal. f_equal. unfold info_dict_to_list, dict_items.
  induction info_dict as [ | [k v] es IH ]; cbn [flat_map fst snd]; auto.
  now rewrite IH.
Qed.

Lemma value_kinds_Nested (info_dict : dict string (info Item)) :
  value_kinds (Nested info_dict) = false :: line_kinds info_dict.
Proof.
  cbn [value_kinds]. f_equal. unfold line_kinds.
  induction info_dict as [ | [k v] es IH ]; cbn [flat_map fst snd]; auto.
  now rewrite IH.
Qed.

Lemma value_fits_Nested (line_length indent : Z) (key : string)
    (info_dict : dict string (info Item)) :
  value_fits str line_length indent key (Nested info_dict)
  = (len key <=? line_length)%Z && fits str info_dict (line_length - indent) indent.
Proof.
  cbn [value_fits]. f_equal. unfold fits.
  induction info_dict as [ | [k v] es IH ]; cbn [forallb fst snd]; auto.
  now rewrite IH.
Qed.

Lemma add_to_info_dict_step (key key2 : string) (rest : list string) (item : Item)
    (info_dict : dict string (info Item)) :
  add_to_info_dict (key :: key2 :: rest) item info_dict
  = let info_dict1 :=
      match dict_get String.eqb info_dict key with
      | None => dict_set String.eqb info_dict key (Nested [])
      | Some _ => info_dict
      end in
    match dict_get String.eqb info_dict1 key with
    | Some (Nested sub) =>
        let (r, sub') := add_to_info_dict (key2 :: rest) item sub in
        (r, dict_set String.eqb info_dict1 key (Nested sub'))
    | Some (Leaf _) => (Raise TypeError, info_dict1)
    | None => (Raise KeyError, info_dict1)
    end.
Proof. reflexivity. Qed.

Lemma info_get_step (key key2 : string) (rest : list string)
    (info_dict : dict string (info Item)) :
  info_get (key :: key2 :: rest) info_dict
  = match dict_get String.eqb info_dict key with
    | Some (Nested sub) => info_get (key2 :: rest) sub
    | _ => None
    end.
Proof. reflexivity. Qed.

Lemma blocked_step (key key2 : string) (rest : list string)
    (info_dict : dict string (info Item)) :
  blocked (key :: key2 :: rest) info_dict
  = match dict_get String.eqb info_dict key with
    | Some (Leaf _) => true
    | Some (Nested sub) => blocked (key2 :: rest) sub
    | None => false
    end.
Proof. reflexivity. Qed.

Lemma blocked_empty (path : list string) : blocked path (@nil (string * info Item)) = false.
Proof. destruct path as [ | key [ | key2 rest ] ]; reflexivity. Qed.

Lemma info_get_empty (path : list string) :
  info_get path (@nil (string * info Item)) = None.
Proof. destruct path as [ | key [ | key2 rest ] ]; reflexivity. Qed.

End Items.

End InfoFacts.

(* ===================================================================== *)
(** * Properties of the info dictionary *)
(* ===================================================================== *)

Section InfoExtras.

Import NonLinear Info InfoViews StringDict InfoFacts.
Local Open Scope string_scope.

(** X22: [add_to_info_dict] files the item under its path, so that it is
    found there afterwards, creating the dictionaries on the way and putting
    a new top-level key last.  It fails only on an empty path
    ([IndexError]) or when a proper prefix of the path already leads to an
    item ([TypeError]), and a call that fails leaves the dictionary as it
    was. *)
Theorem add_to_info_dict_files_the_item {Item : Type}
    (path : list string) (item : Item) (info_dict : dict string (info Item)) :
  let (r, info_dict') := add_to_info_dict path item info_dict in
  match r with
  | Ok _ =>
      path <> [] /\ blocked path info_dict = false /\
      info_get path info_dict' = Some (Leaf item) /\
      dict_keys info_dict'
      = match dict_get String.eqb info_dict (hd "" path) with
        | Some _ => dict_keys info_dict
        | None => (dict_keys info_dict ++ [hd "" path])%list
        end
  | Raise e =>
      info_dict' = info_dict /\
      (path = [] /\ e = IndexError \/ blocked path info_dict = true /\ e = TypeError)
  end.
Proof.
  revert info_dict. induction path as [ | key rest IH ]; intros d.
  - cbn. auto.
  - destruct rest as [ | key2 rest ].
    + cbn [add_to_info_dict]. unfold modify. cbn [hd info_get blocked].
      rewrite sget_set, String.eqb_refl, skeys_set.
      repeat split; auto. discriminate.
    + rewrite add_to_info_dict_step, blocked_step. cbn zeta.
      cbn [hd].
      destruct (dict_get String.eqb d key) as [ [x | sub] | ] eqn:Eg.
      * rewrite Eg. split; auto.
      * rewrite Eg. specialize (IH sub).
        destruct (add_to_info_dict (key2 :: rest) item sub) as [[[] | e] sub'].
        -- destruct IH as (_ & Hb & Hget & _).
           rewrite info_get_step, sget_set, String.eqb_refl, skeys_set, Eg.
           repeat split; auto. discriminate.
        -- destruct IH as (-> & [[Hnil _] | [Hb ->]]); [ discriminate | ].
           rewrite (sset_same d key (Nested sub) Eg). auto.
      * rewrite sget_set, String.eqb_refl.
        pose proof (IH []) as IH0.
        destruct (add_to_info_dict (key2 :: rest) item []) as [[[] | e] sub'].
        -- destruct IH0 as (_ & _ & Hget & _).
           rewrite info_get_step, sget_set, String.eqb_refl, !skeys_set, Eg, sget_set,
             String.eqb_refl.
           repeat split; auto. discriminate.
        -- destruct IH0 as (_ & [[Hnil _] | [Hb _]]); [ discriminate | ].
           rewrite blocked_empty in Hb. discriminate.
Qed.

(** X23: [add_to_info_dict] does not disturb what is filed elsewhere: the
    lookup of a path that parts from the added path at some key gives the
    same answer after the call as before it, whether the call succeeds or
    raises. *)
Theorem add_to_info_dict_keeps_other_paths {Item : Type}
    (path other : list string) (item : Item) (info_dict : dict string (info Item)) :
  diverge path other = true ->
  info_get other (snd (add_to_info_dict path item info_dict)) = info_get other info_dict.
Proof.
  revert other info_dict.
  induction path as [ | key rest IH ]; intros other d Hdiv; [ discriminate | ].
  destruct other as [ | okey orest ]; [ discriminate | ].
  cbn [diverge] in Hdiv.
  destruct rest as [ | key2 rest ].
  - cbn [add_to_info_dict]. unfold modify. cbn [snd].
    destruct (key =? okey) eqn:E; [ destruct orest; discriminate | ].
    assert (Hget : dict_get String.eqb (dict_set String.eqb d key (Leaf item)) okey
                   = dict_get String.eqb d okey).
    { now rewrite sget_set, String.eqb_sym, E. }
    destruct orest as [ | okey2 orest ]; cbn [info_get]; now rewrite Hget.
  - rewrite add_to_info_dict_step. cbn zeta.
    destruct (key =? okey) eqn:E.
    + apply String.eqb_eq in E. subst okey.
      destruct orest as [ | okey2 orest ]; [ discriminate | ].
      rewrite !info_get_step.
      destruct (dict_get String.eqb d key) as [ [x | sub] | ] eqn:Eg.
      * rewrite Eg. cbn [snd]. now rewrite Eg.
      * rewrite Eg. specialize (IH (okey2 :: orest) sub Hdiv).
        destruct (add_to_info_dict (key2 :: rest) item sub) as [r sub'].
        cbn [snd] in *. now rewrite sget_set, String.eqb_refl.
      * rewrite sget_set, String.eqb_refl.
        specialize (IH (okey2 :: orest) [] Hdiv).
        destruct (add_to_info_dict (key2 :: rest) item []) as [r sub'].
        cbn [snd] in *. rewrite sget_set, String.eqb_refl, IH.
        apply info_get_empty.
    + assert (Hget : forall (d' : dict string (info Item)) v,
                 dict_get String.eqb (dict_set String.eqb d' key v) okey
                 = dict_get String.eqb d' okey).
      { intros d' v. now rewrite sget_set, String.eqb_sym, E. }
      assert (Hsame : dict_get String.eqb
                        (snd (let info_dict1 :=
                                match dict_get String.eqb d key with
                                | Some _ => d
                                | None => dict_set String.eqb d key (Nested [])
                                end in
                              match dict_get String.eqb info_dict1 key with
                              | Some (Leaf _) => (Raise TypeError, info_dict1)
                              | Some (Nested sub) =>
                                  let (r, sub') :=
                                    add_to_info_dict (key2 :: rest) item sub in
                                  (r, dict_set String.eqb info_dict1 key (Nested sub'))
                              | None => (Raise KeyError, info_dict1)
                              end)) okey
                      = dict_get String.eqb d okey).
      { cbn zeta.
        destruct (dict_get String.eqb d key) as [ [x | sub] | ] eqn:Eg.
        - now rewrite Eg.
        - rewrite Eg.
          destruct (add_to_info_dict (key2 :: rest) item sub) as [r sub'].
          cbn [snd]. apply Hget.
        - rewrite sget_set, String.eqb_refl.
          destruct (add_to_info_dict (key2 :: rest) item []) as [r sub'].
          cbn [snd]. now rewrite !Hget. }
      cbn zeta in Hsame.
      destruct orest as [ | okey2 orest ]; cbn [info_get]; now rewrite Hsame.
Qed.

Lemma add_to_info_dict_keeps_other_paths_witness :
  info_get ["galaxy"; "redshift"]
    (snd (add_to_info_dict ["galaxy"; "light"; "radius"] "2.0" Examples.info_example))
  = info_get ["galaxy"; "redshift"] Examples.info_example.
Proof.
  apply (add_to_info_dict_keeps_other_paths ["galaxy"; "light"; "radius"]
           ["galaxy"; "redshift"] "2.0" Examples.info_example).
  reflexivity.
Defined.

(** X24: when every key and every item has room on its line, the listing
    of [info_dict_to_list] puts the end of every item at the column
    [line_length], however deep the item is nested, and no line is longer
    than that; the listing has one line for every key of the dictionary and
    of the dictionaries nested in it. *)
Theorem info_dict_to_list_aligns_the_items {Item : Type}
    (str : Item -> string) (info_dict : dict string (info Item))
    (line_length indent : Z) :
  0 <= indent ->
  fits str info_dict line_length indent = true ->
  Forall2 (fun is_item line => if is_item : bool
                               then len line = line_length
                               else len line <= line_length)
          (line_kinds info_dict)
          (info_dict_to_list str info_dict line_length indent).
Proof.
  intros Hindent.
  assert (Hvalue : forall (value : info Item) line_length key,
             value_fits str line_length indent key value = true ->
             Forall2 (fun is_item line => if is_item : bool
                                          then len line = line_length
                                          else len line <= line_length)
                     (value_kinds value)
                     (value_lines str line_length indent key value)).
  { induction value as [ item | es IHes ] using info_nested_ind;
      intros L key Hfit.
    - cbn [value_fits] in Hfit. apply Z.leb_le in Hfit.
      cbn [value_kinds value_lines]. constructor; [ | constructor ].
      rewrite !len_append, len_str_mul. lia.
    - rewrite value_fits_Nested in Hfit. apply andb_true_iff in Hfit.
      destruct Hfit as [Hkey Hfit]. apply Z.leb_le in Hkey.
      rewrite value_kinds_Nested, value_lines_Nested. constructor; [ exact Hkey | ].
      assert (Hsub : Forall2 (fun is_item line => if is_item : bool
                                                  then len line = L - indent
                                                  else len line <= L - indent)
                             (line_kinds es)
                             (info_dict_to_list str es (L - indent) indent)).
      { unfold line_kinds, info_dict_to_list, dict_items, fits in *.
        induction es as [ | [k v] es IH ]; cbn [flat_map fst snd]; [ constructor | ].
        cbn [forallb fst snd] in Hfit. apply andb_true_iff in Hfit.
        destruct Hfit as [Hv Hrest]. inversion IHes as [ | ? ? Hhead Htail ]; subst.
        apply Forall2_app; [ apply Hhead, Hv | apply IH; auto ]. }
      clear - Hsub Hindent.
      induction Hsub as [ | is_item line kinds lines Hline _ IH ]; cbn [map];
        constructor; auto.
      rewrite len_append, len_str_mul. destruct is_item; lia. }
  intros Hfit. unfold line_kinds, info_dict_to_list, dict_items, fits in *.
  induction info_dict as [ | [k v] es IH ]; cbn [flat_map fst snd]; [ constructor | ].
  cbn [forallb fst snd] in Hfit. apply andb_true_iff in Hfit.
  destruct Hfit as [Hv Hrest].
  apply Forall2_app; [ apply Hvalue, Hv | apply IH, Hrest ].
Qed.

Lemma info_dict_to_list_aligns_the_items_witness :
  Forall2 (fun is_item line => if is_item : bool
                               then len line = 30
                               else len line <= 30)
          (line_kinds Examples.info_example)
          (info_dict_to_list (fun item : string => item) Examples.info_example 30 4).
Proof.
  apply (info_dict_to_list_aligns_the_items (fun item : string => item)
           Examples.info_example 30 4).
  - lia.
  - reflexivity.
Defined.

End InfoExtras.

(* ===================================================================== *)
(** * The cadence of backups *)
(* ===================================================================== *)

Section BackupExtras.

Import ModelMapper NonLinear Observe Views PyFacts DriverFacts DriverMore.

(** X25: backups follow the number of evaluations, not the improvements:
    over a series of evaluations that all return a likelihood, the backup
    counter advances by one for each of them, whatever the likelihoods are,
    and a backup is made exactly at the evaluations that bring the counter
    to a multiple of the backup interval. *)
Theorem backup_follows_the_evaluations
    (analysis_fit : ModelInstance -> outcome float)
    (instance_add : ModelInstance -> ModelInstance -> ModelInstance)
    (instances : list ModelInstance) (self : Fitness) :
  interval (should_visualise self) <> 0 ->
  interval (should_backup self) <> 0 ->
  interval (should_backup self) <> -1 ->
  (forall instance, In instance instances ->
     exists likelihood,
       analysis_fit (instance_add instance (constant self)) = Ok likelihood) ->
  let (r, self') := fit_instances analysis_fit instance_add instances self in
  r = Ok tt /\
  count (should_backup self')
  = count (should_backup self) + Z.of_nat (List.length instances) /\
  count_backups (trace self')
  = Nat.add (count_backups (trace self))
      (List.length
         (filter (fun i => (count (should_backup self) + Z.of_nat i + 1)
                             mod interval (should_backup self) =? 0)
                 (seq 0 (List.length instances)))).
Proof.
  revert self. induction instances as [ | instance rest IH ]; intros self Hv Hb Hb1 Hall.
  - cbn. unfold ret. repeat split; lia.
  - destruct (Hall instance (or_introl eq_refl)) as [l Hl].
    cbn [fit_instances]. unfold mbind.
    rewrite (fit_instance_ok analysis_fit instance_add instance self l Hl Hv Hb).
    set (mid := fit_instance_next l (instance_add instance (constant self)) self).
    assert (Hconst : constant mid = constant self) by reflexivity.
    assert (Hvi : interval (should_visualise mid) = interval (should_visualise self)).
    { unfold mid, fit_instance_next. cbn [should_visualise].
      destruct (gt l (max_likelihood self)); auto. apply tick_interval. }
    assert (Htick : tick (should_backup self)
                    = ((count (should_backup self) + 1)
                         mod interval (should_backup self) =? 0,
                       mkIntervalCounter (count (should_backup self) + 1)
                                         (interval (should_backup self)))).
    { now apply tick_counting. }
    assert (Hbk : should_backup mid
                  = mkIntervalCounter (count (should_backup self) + 1)
                                      (interval (should_backup self))).
    { unfold mid, fit_instance_next. cbn [should_backup]. now rewrite Htick. }
    assert (Htr : count_backups (trace mid)
                  = Nat.add (count_backups (trace self))
                      (if (count (should_backup self) + 1)
                            mod interval (should_backup self) =? 0
                       then 1%nat else 0%nat)).
    { unfold mid, fit_instance_next. cbn [trace]. rewrite Htick. cbn [fst].
      unfold count_backups. rewrite !filter_app, !length_app. cbn [filter is_backup].
      destruct (gt l (max_likelihood self) && fst (tick (should_visualise self)));
        destruct ((count (should_backup self) + 1)
                    mod interval (should_backup self) =? 0); cbn; lia. }
    specialize (IH mid).
    destruct (fit_instances analysis_fit instance_add rest mid) as [r self'].
    destruct IH as (Hr & Hcount & Hbackups).
    + now rewrite Hvi.
    + now rewrite Hbk.
    + now rewrite Hbk.
    + intros i Hi. rewrite Hconst. apply Hall. now right.
    + rewrite Hbk in Hcount, Hbackups. cbn [count interval] in Hcount, Hbackups.
      repeat split; auto.
      * rewrite Hcount. cbn [List.length]. lia.
      * rewrite Hbackups, Htr. cbn [List.length seq filter].
        rewrite Z.add_0_r.
        assert (Hshift :
                  List.length
                    (filter (fun i => (count (should_backup self) + Z.of_nat i + 1)
                                        mod interval (should_backup self) =? 0)
                            (seq 1 (List.length rest)))
                  = List.length
                      (filter (fun i => (count (should_backup self) + 1
                                         + Z.of_nat i + 1)
                                          mod interval (should_backup self) =? 0)
                              (seq 0 (List.length rest)))).
        { rewrite <- seq_shift, filter_map_swap, length_map. f_equal.
          apply filter_ext. intros i. do 2 f_equal. lia. }
        destruct ((count (should_backup self) + 1)
                    mod interval (should_backup self) =? 0);
          cbn [List.length]; rewrite Hshift; lia.
Qed.

Lemma backup_follows_the_evaluations_witness :
  let (r, self') :=
    fit_instances Examples.first_value_fit Examples.keep_instance
      [Examples.instance_of 3; Examples.instance_of 1; Examples.instance_of 2]
      (Fitness_init (mkGeneralConfig 10 (-1) 2 (-1) 1) [] []) in
  r = Ok tt /\
  count (should_backup self')
  = count (should_backup (Fitness_init (mkGeneralConfig 10 (-1) 2 (-1) 1) [] []))
    + Z.of_nat (List.length [Examples.instance_of 3; Examples.instance_of 1;
                             Examples.instance_of 2]) /\
  count_backups (trace self')
  = Nat.add
      (count_backups (trace (Fitness_init (mkGeneralConfig 10 (-1) 2 (-1) 1) [] [])))
      (List.length
         (filter (fun i =>
                    (count (should_backup
                              (Fitness_init (mkGeneralConfig 10 (-1) 2 (-1) 1) [] []))
                     + Z.of_nat i + 1)
                      mod interval (should_backup
                                      (Fitness_init (mkGeneralConfig 10 (-1) 2 (-1) 1)
                                                    [] []))
                    =? 0)
                 (seq 0 (List.length [Examples.instance_of 3; Examples.instance_of 1;
                                      Examples.instance_of 2])))).
Proof.
  apply (backup_follows_the_evaluations Examples.first_value_fit Examples.keep_instance
           [Examples.instance_of 3; Examples.instance_of 1; Examples.instance_of 2]
           (Fitness_init (mkGeneralConfig 10 (-1) 2 (-1) 1) [] [])).
  - cbn. lia.
  - cbn. lia.
  - cbn. lia.
  - intros instance Hin. cbn in Hin.
    repeat (destruct Hin as [<- | Hin]; [ eexists; reflexivity | ]). contradiction.
Defined.

End BackupExtras.
